(** * ScopeDoom bridge: geometry sampler, frame serializer, framed transport

  A shallow embedding of [doomgeneric_kicad_dual_v2.c] and [doom_socket.c].
  C [int] and [fixed_t] values are integers in [Z] with the two's complement
  wrap-around of 32-bit arithmetic written out; byte buffers are
  [list byte]; the kernel behind the socket descriptor is an explicit
  record threaded through every call. *)

From Stdlib Require Import ZArith List Bool Lia PeanoNat.
From Stdlib Require Strings.String.
From Stdlib.Strings Require Import Byte.
Import ListNotations.
Local Open Scope Z_scope.
Import String.StringSyntax.
Delimit Scope string_scope with string.

(** ** 32-bit signed arithmetic *)

Module Int32.

Definition min_signed : Z := - 2 ^ 31.
Definition max_signed : Z := 2 ^ 31 - 1.

Definition in_range (z : Z) : Prop := min_signed <= z <= max_signed.

(** Reduction of an integer to the value an [int] variable holds. *)
Definition wrap (z : Z) : Z := (z + 2 ^ 31) mod 2 ^ 32 - 2 ^ 31.

Definition add (a b : Z) : Z := wrap (a + b).
Definition sub (a b : Z) : Z := wrap (a - b).
Definition mul (a b : Z) : Z := wrap (a * b).
(** C division truncates toward zero. *)
Definition div (a b : Z) : Z := wrap (Z.quot a b).
(** [>>] on a signed operand is an arithmetic shift. *)
Definition shr (a n : Z) : Z := Z.shiftr a n.

End Int32.

(** ** Fixed-point helpers of the host renderer *)

Definition FRACBITS : Z := 16.

(** Modelled from the spec: [FixedMul] lives in the host's m_fixed.c, which
  is not part of the bridge sources.  It is the product computed on a
  64-bit intermediate, shifted right by [FRACBITS] and stored back into a
  32-bit [fixed_t]. *)
Definition FixedMul (a b : Z) : Z := Int32.wrap (Z.shiftr (a * b) FRACBITS).

(** ** Renderer scratch records read by the sampler *)

Record sector_t := {
  floorheight : Z;
  ceilingheight : Z
}.

(** A [NULL] pointer is [None]. *)
Record seg_t := {
  frontsector : option sector_t
}.

Record drawseg_t := {
  curline : option seg_t;
  ds_x1 : Z;
  ds_x2 : Z;
  scale1 : Z;
  scale2 : Z;
  silhouette : Z
}.

Record vissprite_t := {
  vis_x1 : Z;
  vis_x2 : Z;
  vis_scale : Z;
  gz : Z;
  gzt : Z;
  mobjtype : Z
}.

Record pspdef_t := {
  psp_state : bool;   (* [state != NULL] *)
  sx : Z;
  sy : Z
}.

(** The renderer globals the frame hook reads.  [drawsegs] holds
  [drawsegs[0 .. ds_p)], [vissprites] holds [vissprites[0 .. vissprite_p)],
  and [weapon_psp] is [players[consoleplayer].psprites[ps_weapon]]. *)
Record view_t := {
  drawsegs : list drawseg_t;
  vissprites : list vissprite_t;
  viewwidth : Z;
  viewheight : Z;
  centeryfrac : Z;
  viewz : Z;
  weapon_psp : pspdef_t
}.

(** ** Geometry sampler *)

Module Sampler.

(** Lines 153-162 and 218-227: the depth bucket of a scale. *)
Definition distance_of_scale (scale : Z) : Z :=
  let distance :=
    if scale >? 0x20000 then 0
    else if scale <? 0x800 then 999
    else Int32.sub 999
           (Int32.div (Int32.mul (Int32.sub scale 0x800) 999)
                      (Int32.sub 0x20000 0x800)) in
  let distance := if distance <? 0 then 0 else distance in
  if distance >? 999 then 999 else distance.

(** [if (scale <= 0) scale = 1;] *)
Definition positive_scale (scale : Z) : Z :=
  if scale <=? 0 then 1 else scale.

(** [centeryfrac - FixedMul(height - viewz, scale)], then [>> FRACBITS]. *)
Definition project_y (v : view_t) (height scale : Z) : Z :=
  Int32.shr
    (Int32.sub (centeryfrac v) (FixedMul (Int32.sub height (viewz v)) scale))
    FRACBITS.

(** [if (y < 0) y = 0; if (y >= viewheight) y = viewheight - 1;] *)
Definition clamp_y (v : view_t) (y : Z) : Z :=
  let y := if y <? 0 then 0 else y in
  if y >=? viewheight v then Int32.sub (viewheight v) 1 else y.

Record wall_t := {
  w_x1 : Z; w_y1_top : Z; w_y1_bottom : Z;
  w_x2 : Z; w_y2_top : Z; w_y2_bottom : Z;
  w_distance : Z; w_silhouette : Z
}.

Record entity_t := {
  e_x : Z; e_y_top : Z; e_y_bottom : Z;
  e_height : Z; e_type : Z; e_distance : Z
}.

(** Body of the wall loop (lines 133-188): [None] is [continue]. *)
Definition sample_wall (v : view_t) (ds : drawseg_t) : option wall_t :=
  let x1 := ds_x1 ds in
  let x2 := ds_x2 ds in
  if (x1 <? 0) || (x2 <? 0) || (x1 >=? viewwidth v) || (x2 >=? viewwidth v)
     || (x1 >? x2)
  then None
  else
    match curline ds with
    | None => None
    | Some seg =>
      match frontsector seg with
      | None => None
      | Some sector =>
        let s1 := positive_scale (scale1 ds) in
        let s2 := positive_scale (scale2 ds) in
        let distance := distance_of_scale s1 in
        let ceiling_height := ceilingheight sector in
        let floor_height := floorheight sector in
        let y1_top := project_y v ceiling_height s1 in
        let y2_top := project_y v ceiling_height s2 in
        let y1_bottom := project_y v floor_height s1 in
        let y2_bottom := project_y v floor_height s2 in
        Some {| w_x1 := x1;
                w_y1_top := clamp_y v y1_top;
                w_y1_bottom := clamp_y v y1_bottom;
                w_x2 := x2;
                w_y2_top := clamp_y v y2_top;
                w_y2_bottom := clamp_y v y2_bottom;
                w_distance := distance;
                w_silhouette := silhouette ds |}
      end
    end.

(** Body of the sprite loop (lines 206-247). *)
Definition sample_sprite (v : view_t) (vis : vissprite_t) : option entity_t :=
  let x1 := vis_x1 vis in
  let x2 := vis_x2 vis in
  if (x1 <? 0) || (x2 <? 0) || (x1 >=? viewwidth v) || (x2 >=? viewwidth v)
  then None
  else
    let x := Int32.div (Int32.add x1 x2) 2 in
    let sprite_scale := positive_scale (vis_scale vis) in
    let distance := distance_of_scale sprite_scale in
    let y_top := clamp_y v (project_y v (gzt vis) sprite_scale) in
    let y_bottom := clamp_y v (project_y v (gz vis) sprite_scale) in
    let sprite_height := Int32.sub y_bottom y_top in
    let sprite_height := if sprite_height <? 5 then 5 else sprite_height in
    Some {| e_x := x; e_y_top := y_top; e_y_bottom := y_bottom;
            e_height := sprite_height; e_type := mobjtype vis;
            e_distance := distance |}.

(** Lines 264-278: the weapon overlay, [None] when the slot has no state. *)
Definition sample_weapon (v : view_t) : option (Z * Z) :=
  let psp := weapon_psp v in
  if psp_state psp then
    let wx := Int32.add (Int32.shr (sx psp) FRACBITS)
                        (Int32.div (viewwidth v) 2) in
    let wy := Int32.sub (Int32.add (Int32.shr (sy psp) FRACBITS)
                                   (viewheight v)) 32 in
    let wx := if wx <? 0 then 0 else wx in
    let wx := if wx >=? viewwidth v then Int32.sub (viewwidth v) 1 else wx in
    let wy := if wy <? 0 then 0 else wy in
    let wy := if wy >=? viewheight v then Int32.sub (viewheight v) 1 else wy in
    Some (wx, wy)
  else None.

End Sampler.

(** ** Text formatting *)

Module Fmt.

(** The bytes of a format string.  An apostrophe in the literal stands for
  the double quote of the C source. *)
Definition text (s : String.string) : list byte :=
  map (fun b => if Byte.eqb b x27 then x22 else b)
      (String.list_byte_of_string s).

Arguments text s%_string.

Definition digit (n : Z) : byte :=
  match Byte.of_N (Z.to_N (48 + n)) with Some b => b | None => x30 end.

(** Decimal digits of a non-negative number, most significant first; at most
  [fuel] digits are produced. *)
Fixpoint dec (fuel : nat) (n : Z) : list byte :=
  match fuel with
  | O => []
  | S f => if n <? 10 then [digit n] else dec f (n / 10) ++ [digit (n mod 10)]
  end.

(** [%d] applied to an [int]: ten digits are enough for 32 bits. *)
Definition fmt_d (z : Z) : list byte :=
  let z := Int32.wrap z in
  if z <? 0 then x2d :: dec 10 (- z) else dec 10 z.

(** [%u] applied to an [unsigned int]. *)
Definition fmt_u (z : Z) : list byte := dec 10 (z mod 2 ^ 32).

End Fmt.

(** ** Frame serializer *)

Module Serializer.

Import Sampler.

(** [sizeof(json_buf)] *)
Definition JSON_BUF_SIZE : Z := 262144.

(** Subtraction on [size_t]. *)
Definition size_sub (a b : Z) : Z := (a - b) mod 2 ^ 64.

(** The static array [json_buf] is kept as the list of its leading bytes;
  every byte past the end of the list is still zero. *)
Definition peek (mem : list byte) (n : nat) : list byte :=
  firstn n (mem ++ repeat x00 (n - length mem)).

Definition poke (mem : list byte) (off : nat) (bs : list byte) : list byte :=
  peek mem off ++ bs ++ skipn (off + length bs) mem.

(** Serializer state: the array, the running [offset], and whether some
  [snprintf] was handed a destination outside the array. *)
Record jstate := {
  json_buf : list byte;
  offset : Z;
  oob : bool
}.

(** [offset += snprintf(json_buf + offset, sizeof(json_buf) - offset, s)]
  for an already formatted text [s].  [snprintf] stores at most [size - 1]
  bytes and a terminating zero, stores nothing when [size] is zero, and
  returns the length of [s] whatever it stored. *)
Definition snprintf (st : jstate) (s : list byte) : jstate :=
  let off := offset st in
  let size := size_sub JSON_BUF_SIZE off in
  let len := Z.of_nat (length s) in
  let st' :=
    if (0 <=? off) && (off <=? JSON_BUF_SIZE) then
      if size =? 0 then st
      else
        let k := Z.min len (size - 1) in
        {| json_buf := poke (json_buf st) (Z.to_nat off)
                            (firstn (Z.to_nat k) s ++ [x00]);
           offset := off;
           oob := oob st |}
    else {| json_buf := json_buf st; offset := off; oob := true |} in
  {| json_buf := json_buf st'; offset := Int32.add off len; oob := oob st' |}.

Definition comma : list byte := Fmt.text ",".

(** ["[%d,%d,%d,%d,%d,%d,%d,%d]"] *)
Definition fmt_wall (w : wall_t) : list byte :=
  Fmt.text "[" ++ Fmt.fmt_d (w_x1 w) ++ comma ++ Fmt.fmt_d (w_y1_top w)
  ++ comma ++ Fmt.fmt_d (w_y1_bottom w) ++ comma ++ Fmt.fmt_d (w_x2 w)
  ++ comma ++ Fmt.fmt_d (w_y2_top w) ++ comma ++ Fmt.fmt_d (w_y2_bottom w)
  ++ comma ++ Fmt.fmt_d (w_distance w) ++ comma
  ++ Fmt.fmt_d (w_silhouette w) ++ Fmt.text "]".

Definition fmt_entity (e : entity_t) : list byte :=
  Fmt.text "{'x':" ++ Fmt.fmt_d (e_x e)
  ++ Fmt.text ",'y_top':" ++ Fmt.fmt_d (e_y_top e)
  ++ Fmt.text ",'y_bottom':" ++ Fmt.fmt_d (e_y_bottom e)
  ++ Fmt.text ",'height':" ++ Fmt.fmt_d (e_height e)
  ++ Fmt.text ",'type':" ++ Fmt.fmt_d (e_type e)
  ++ Fmt.text ",'distance':" ++ Fmt.fmt_d (e_distance e) ++ Fmt.text "}".

Definition fmt_weapon (w : option (Z * Z)) : list byte :=
  match w with
  | Some (wx, wy) =>
    Fmt.text "{'x':" ++ Fmt.fmt_d wx ++ Fmt.text ",'y':" ++ Fmt.fmt_d wy
    ++ Fmt.text ",'visible':true}"
  | None => Fmt.text "{'visible':false}"
  end.

(** The wall loop, lines 132-198, over the draw-segments still to visit. *)
Fixpoint wall_loop (v : view_t) (dsl : list drawseg_t) (wall_output : Z)
  (st : jstate) : jstate :=
  match dsl with
  | [] => st
  | ds :: rest =>
    match sample_wall v ds with
    | None => wall_loop v rest wall_output st
    | Some w =>
      let st := if wall_output >? 0 then snprintf st comma else st in
      let st := snprintf st (fmt_wall w) in
      wall_loop v rest (Int32.add wall_output 1) st
    end
  end.

(** The sprite loop, lines 205-256; [i] is the loop index. *)
Fixpoint sprite_loop (v : view_t) (vl : list vissprite_t) (i : Z)
  (st : jstate) : jstate :=
  match vl with
  | [] => st
  | vis :: rest =>
    match sample_sprite v vis with
    | None => sprite_loop v rest (i + 1) st
    | Some e =>
      let st := if i >? 0 then snprintf st comma else st in
      let st := snprintf st (fmt_entity e) in
      sprite_loop v rest (i + 1) st
    end
  end.

Section Limits.

(** Array bounds of the host renderer (r_defs.h, r_things.h). *)
Variables MAXDRAWSEGS MAXVISSPRITES : nat.

(** [extract_vectors_to_json]: [buf] is what the static array holds on
  entry; the result carries the array and [*out_len] (the final offset). *)
Definition extract_vectors_to_json (v : view_t) (g_frame_count : Z)
  (buf : list byte) : jstate :=
  let st := {| json_buf := buf; offset := 0; oob := false |} in
  let st := snprintf st (Fmt.text "{'frame':" ++ Fmt.fmt_d g_frame_count
                         ++ Fmt.text ",'walls':[") in
  let st := wall_loop v (firstn MAXDRAWSEGS (drawsegs v)) 0 st in
  let st := snprintf st (Fmt.text "],'entities':[") in
  let st := sprite_loop v (firstn MAXVISSPRITES (vissprites v)) 0 st in
  let st := snprintf st (Fmt.text "],'weapon':") in
  let st := snprintf st (fmt_weapon (sample_weapon v)) in
  snprintf st (Fmt.text "}").

(** The [out_len] bytes the caller reads back from the returned pointer.
  The read stays inside the array while [offset] is at most
  [sizeof(json_buf)]; every property below that speaks of the document is
  about such a frame. *)
Definition document (st : jstate) : list byte :=
  peek (json_buf st) (Z.to_nat (offset st)).

End Limits.

End Serializer.

(** ** JSON syntax (RFC 8259) *)

Module Json.

Inductive container := Arr | Obj.

(** What the recognizer is in the middle of. *)
Inductive mode :=
| Val                     (* a value must start here *)
| ValOrEnd                (* just after an opening bracket *)
| KeyOrEnd                (* just after an opening brace *)
| Key                     (* after a comma inside an object *)
| Colon                   (* after a member name *)
| After                   (* a value was completed *)
| Str (key : bool)        (* inside a string *)
| StrEsc (key : bool)     (* after a backslash *)
| StrU (key : bool) (n : nat)  (* inside a \u escape, [n] hex digits to go *)
| NumMinus | NumZero | NumInt | NumDot | NumFrac | NumE | NumESign | NumExp
| Lit (rest : list byte)  (* inside true, false or null *)
| Bad.

Definition is_ws (b : byte) : bool :=
  Byte.eqb b x20 || Byte.eqb b x09 || Byte.eqb b x0a || Byte.eqb b x0d.

Definition is_digit (b : byte) : bool :=
  (48 <=? Byte.to_N b)%N && (Byte.to_N b <=? 57)%N.

Definition is_digit19 (b : byte) : bool :=
  (49 <=? Byte.to_N b)%N && (Byte.to_N b <=? 57)%N.

Definition is_hex (b : byte) : bool :=
  is_digit b
  || ((65 <=? Byte.to_N b)%N && (Byte.to_N b <=? 70)%N)
  || ((97 <=? Byte.to_N b)%N && (Byte.to_N b <=? 102)%N).

Definition is_escape (b : byte) : bool :=
  Byte.eqb b x22 || Byte.eqb b x5c || Byte.eqb b x2f || Byte.eqb b x62
  || Byte.eqb b x66 || Byte.eqb b x6e || Byte.eqb b x72 || Byte.eqb b x74.

Definition state : Type := mode * list container.

(** A value starts with byte [b]. *)
Definition start_value (b : byte) (stack : list container) : state :=
  if Byte.eqb b x7b then (KeyOrEnd, Obj :: stack)
  else if Byte.eqb b x5b then (ValOrEnd, Arr :: stack)
  else if Byte.eqb b x22 then (Str false, stack)
  else if Byte.eqb b x2d then (NumMinus, stack)
  else if Byte.eqb b x30 then (NumZero, stack)
  else if is_digit19 b then (NumInt, stack)
  else if Byte.eqb b x74 then (Lit [x72; x75; x65], stack)
  else if Byte.eqb b x66 then (Lit [x61; x6c; x73; x65], stack)
  else if Byte.eqb b x6e then (Lit [x75; x6c; x6c], stack)
  else (Bad, stack).

(** Byte [b] follows a completed value. *)
Definition after_value (b : byte) (stack : list container) : state :=
  if is_ws b then (After, stack)
  else
    match stack with
    | [] => (Bad, stack)
    | Arr :: rest =>
      if Byte.eqb b x2c then (Val, stack)
      else if Byte.eqb b x5d then (After, rest)
      else (Bad, stack)
    | Obj :: rest =>
      if Byte.eqb b x2c then (Key, stack)
      else if Byte.eqb b x7d then (After, rest)
      else (Bad, stack)
    end.

Definition step (st : state) (b : byte) : state :=
  let (m, stack) := st in
  match m with
  | Bad => (Bad, stack)
  | Val => if is_ws b then st else start_value b stack
  | ValOrEnd =>
    if is_ws b then st
    else if Byte.eqb b x5d then (After, tl stack)
    else start_value b stack
  | KeyOrEnd =>
    if is_ws b then st
    else if Byte.eqb b x7d then (After, tl stack)
    else if Byte.eqb b x22 then (Str true, stack)
    else (Bad, stack)
  | Key =>
    if is_ws b then st
    else if Byte.eqb b x22 then (Str true, stack)
    else (Bad, stack)
  | Colon =>
    if is_ws b then st
    else if Byte.eqb b x3a then (Val, stack)
    else (Bad, stack)
  | After => after_value b stack
  | Str key =>
    if Byte.eqb b x22 then ((if key then Colon else After), stack)
    else if Byte.eqb b x5c then (StrEsc key, stack)
    else if (Byte.to_N b <? 32)%N then (Bad, stack)
    else st
  | StrEsc key =>
    if is_escape b then (Str key, stack)
    else if Byte.eqb b x75 then (StrU key 4, stack)
    else (Bad, stack)
  | StrU key n =>
    if is_hex b then
      match n with
      | S (S k) => (StrU key (S k), stack)
      | _ => (Str key, stack)
      end
    else (Bad, stack)
  | NumMinus =>
    if Byte.eqb b x30 then (NumZero, stack)
    else if is_digit19 b then (NumInt, stack)
    else (Bad, stack)
  | NumZero =>
    if Byte.eqb b x2e then (NumDot, stack)
    else if Byte.eqb b x65 || Byte.eqb b x45 then (NumE, stack)
    else if is_digit b then (Bad, stack)
    else after_value b stack
  | NumInt =>
    if is_digit b then st
    else if Byte.eqb b x2e then (NumDot, stack)
    else if Byte.eqb b x65 || Byte.eqb b x45 then (NumE, stack)
    else after_value b stack
  | NumDot => if is_digit b then (NumFrac, stack) else (Bad, stack)
  | NumFrac =>
    if is_digit b then st
    else if Byte.eqb b x65 || Byte.eqb b x45 then (NumE, stack)
    else after_value b stack
  | NumE =>
    if Byte.eqb b x2b || Byte.eqb b x2d then (NumESign, stack)
    else if is_digit b then (NumExp, stack)
    else (Bad, stack)
  | NumESign => if is_digit b then (NumExp, stack) else (Bad, stack)
  | NumExp => if is_digit b then st else after_value b stack
  | Lit rest =>
    match rest with
    | [] => after_value b stack
    | c :: rest' =>
      if Byte.eqb b c then
        match rest' with
        | [] => (After, stack)
        | _ => (Lit rest', stack)
        end
      else (Bad, stack)
    end
  end.

Definition run (st : state) (s : list byte) : state := fold_left step s st.

(** The whole input has been one value. *)
Definition accepting (st : state) : bool :=
  match st with
  | (After, []) | (NumZero, []) | (NumInt, []) | (NumFrac, [])
  | (NumExp, []) => true
  | _ => false
  end.

Definition valid (s : list byte) : bool := accepting (run (Val, []) s).

(** Modes in which a value may start, and modes reached after an integer. *)
Definition value_start (m : mode) : Prop := m = Val \/ m = ValOrEnd.

Definition number_done (m : mode) : Prop := m = NumZero \/ m = NumInt.

End Json.

(** ** The kernel behind the socket descriptor *)

Module Kernel.

Inductive errno := EINTR | EAGAIN | EPIPE | ECONNRESET | EBADF | EIO.

(** Errors after which the same call may simply be issued again. *)
Definition retryable (e : errno) : bool :=
  match e with
  | EINTR | EAGAIN => true
  | _ => false
  end.

(** What one [read] finds: bytes that have arrived (a [read] takes as many
  of them as it asked for and leaves the others), end of stream, an error. *)
Inductive rd_event :=
| RdData (bs : list byte)
| RdEof
| RdErr (e : errno).

(** How one [write] is served: at most [k] bytes accepted, a zero return,
  an error. *)
Inductive wr_event :=
| WrAccept (k : positive)
| WrZero
| WrErr (e : errno).

Record kernel := {
  socket_ret : Z;            (* what [socket] returns next *)
  connect_ret : Z;           (* what [connect] returns next *)
  malloc_ok : Z -> bool;     (* whether [malloc n] yields a block *)
  open_fds : list Z;         (* descriptors the process holds *)
  rx : list rd_event;        (* inbound stream, as successive reads find it *)
  wr : list wr_event;        (* how successive writes are served *)
  tx : list byte             (* outbound bytes accepted so far *)
}.

Definition is_open (k : kernel) (fd : Z) : bool :=
  existsb (Z.eqb fd) (open_fds k).

Definition set_rx (k : kernel) (r : list rd_event) : kernel :=
  {| socket_ret := socket_ret k; connect_ret := connect_ret k;
     malloc_ok := malloc_ok k; open_fds := open_fds k;
     rx := r; wr := wr k; tx := tx k |}.

Definition set_tx (k : kernel) (w : list wr_event) (t : list byte) : kernel :=
  {| socket_ret := socket_ret k; connect_ret := connect_ret k;
     malloc_ok := malloc_ok k; open_fds := open_fds k;
     rx := rx k; wr := w; tx := t |}.

Definition set_fds (k : kernel) (fds : list Z) : kernel :=
  {| socket_ret := socket_ret k; connect_ret := connect_ret k;
     malloc_ok := malloc_ok k; open_fds := fds;
     rx := rx k; wr := wr k; tx := tx k |}.

(** [socket(AF_UNIX, SOCK_STREAM, 0)] *)
Definition sys_socket (k : kernel) : Z * kernel :=
  let fd := socket_ret k in
  if fd <? 0 then (fd, k) else (fd, set_fds k (fd :: open_fds k)).

Definition sys_close (k : kernel) (fd : Z) : kernel :=
  set_fds k (filter (fun d => negb (Z.eqb fd d)) (open_fds k)).

(** Result of a call that may wait for the peer. *)
Inductive sys_result :=
| Returned (ret : Z) (data : list byte) (k : kernel)
| Blocks.

(** [read(fd, buf, n)] on the blocking socket, [n > 0]. *)
Definition sys_read (k : kernel) (fd : Z) (n : nat) : sys_result :=
  if negb (is_open k fd) then Returned (-1) [] k
  else
    match rx k with
    | [] => Blocks
    | RdData bs :: rest =>
      if (length bs <=? n)%nat
      then Returned (Z.of_nat (length bs)) bs (set_rx k rest)
      else Returned (Z.of_nat n) (firstn n bs)
                    (set_rx k (RdData (skipn n bs) :: rest))
    | RdEof :: _ => Returned 0 [] k
    | RdErr _ :: rest => Returned (-1) [] (set_rx k rest)
    end.

(** [write(fd, buf, n)]; once the script is used up the kernel takes
  everything it is given. *)
Definition sys_write (k : kernel) (fd : Z) (bs : list byte) : Z * kernel :=
  if negb (is_open k fd) then (-1, k)
  else
    match wr k with
    | [] => (Z.of_nat (length bs), set_tx k [] (tx k ++ bs))
    | WrAccept p :: rest =>
      let n := Nat.min (Pos.to_nat p) (length bs) in
      (Z.of_nat n, set_tx k rest (tx k ++ firstn n bs))
    | WrZero :: rest => (0, set_tx k rest (tx k))
    | WrErr _ :: rest => (-1, set_tx k rest (tx k))
    end.

(** [select] on the one descriptor with a zero timeout: the descriptor is
  readable when a [read] would not wait. *)
Definition sys_select (k : kernel) (fd : Z) : Z :=
  if negb (is_open k fd) then -1
  else match rx k with [] => 0 | _ => 1 end.

End Kernel.

(** ** Framed transport (doom_socket.c) *)

Module DoomSocket.

Import Kernel.

Definition MSG_FRAME_DATA : Z := 0x01.
Definition MSG_KEY_EVENT : Z := 0x02.
Definition MSG_INIT_COMPLETE : Z := 0x03.
Definition MSG_SHUTDOWN : Z := 0x04.
Definition MSG_SCREENSHOT : Z := 0x05.

Definition byte_of_Z (z : Z) : byte :=
  match Byte.of_N (Z.to_N (z mod 256)) with Some b => b | None => x00 end.

Definition Z_of_byte (b : byte) : Z := Z.of_N (Byte.to_N b).

(** A [uint32_t] as it lies in memory on the host (least significant byte
  first), and back. *)
Definition bytes_of_u32 (z : Z) : list byte :=
  [byte_of_Z z; byte_of_Z (Z.shiftr z 8); byte_of_Z (Z.shiftr z 16);
   byte_of_Z (Z.shiftr z 24)].

Fixpoint u32_of_bytes (bs : list byte) : Z :=
  match bs with
  | [] => 0
  | b :: rest => Z_of_byte b + 256 * u32_of_bytes rest
  end.

(** The process-wide handle together with the kernel it talks to. *)
Record world := {
  g_socket_fd : Z;
  kern : kernel
}.

(** A call either returns [ret], with its output [out], in a new state, or
  never returns because a [read] waits for bytes that do not come. *)
Inductive outcome (S A : Type) :=
| Done (ret : Z) (out : A) (s : S)
| Hang.

Arguments Done {S A} ret out s.
Arguments Hang {S A}.

(** The loop of [recv_exactly]; every round takes at least one byte, so
  [n] rounds always suffice and the [O] case is never reached. *)
Fixpoint recv_loop (fuel : nat) (k : kernel) (fd : Z) (n total_read : nat)
  (buf : list byte) : outcome kernel (list byte) :=
  if (n <=? total_read)%nat then Done 0 buf k
  else
    match fuel with
    | O => Hang
    | S fuel' =>
      match sys_read k fd (n - total_read) with
      | Blocks => Hang
      | Returned bytes_read data k' =>
        if bytes_read <=? 0 then Done (-1) buf k'
        else recv_loop fuel' k' fd n (total_read + Z.to_nat bytes_read)
                       (buf ++ data)
      end
    end.

Definition recv_exactly (k : kernel) (fd : Z) (n : nat)
  : outcome kernel (list byte) :=
  recv_loop n k fd n 0 [].

(** The loop of [send_exactly], with the same bound on its rounds. *)
Fixpoint send_loop (fuel : nat) (k : kernel) (fd : Z) (buf : list byte)
  (total_sent : nat) : Z * kernel :=
  if (length buf <=? total_sent)%nat then (0, k)
  else
    match fuel with
    | O => (0, k)
    | S fuel' =>
      let (bytes_sent, k') := sys_write k fd (skipn total_sent buf) in
      if bytes_sent <=? 0 then (-1, k')
      else send_loop fuel' k' fd buf (total_sent + Z.to_nat bytes_sent)
    end.

Definition send_exactly (k : kernel) (fd : Z) (buf : list byte) : Z * kernel :=
  send_loop (length buf) k fd buf 0.

Definition closed_world (k : kernel) (fd : Z) : world :=
  {| g_socket_fd := -1; kern := sys_close k fd |}.

Definition doom_socket_connect (w : world) : outcome world unit :=
  let (fd, k) := sys_socket (kern w) in
  if fd <? 0 then Done (-1) tt {| g_socket_fd := fd; kern := k |}
  else
    (* both setsockopt results are dropped *)
    if connect_ret k <? 0 then Done (-1) tt (closed_world k fd)
    else
      match recv_exactly k fd 4 with
      | Hang => Hang
      | Done r1 type_bytes k1 =>
        if r1 <? 0 then Done (-1) tt (closed_world k1 fd)
        else
          match recv_exactly k1 fd 4 with
          | Hang => Hang
          | Done r2 len_bytes k2 =>
            if r2 <? 0 then Done (-1) tt (closed_world k2 fd)
            else
              let msg_type := u32_of_bytes type_bytes in
              let payload_len := u32_of_bytes len_bytes in
              if negb (msg_type =? MSG_INIT_COMPLETE)
              then Done (-1) tt (closed_world k2 fd)
              else if (payload_len >? 0) && malloc_ok k2 payload_len then
                match recv_exactly k2 fd (Z.to_nat payload_len) with
                | Hang => Hang
                | Done _ _ k3 => Done 0 tt {| g_socket_fd := fd; kern := k3 |}
                end
              else Done 0 tt {| g_socket_fd := fd; kern := k2 |}
          end
      end.

Definition with_kernel (w : world) (k : kernel) : world :=
  {| g_socket_fd := g_socket_fd w; kern := k |}.

(** [doom_socket_send_message]; [len] is the length of [json_data]. *)
Definition doom_socket_send_message (w : world) (msg_type : Z)
  (json_data : list byte) : Z * world :=
  if g_socket_fd w <? 0 then (-1, w)
  else
    let len := Z.of_nat (length json_data) in
    let header := bytes_of_u32 (msg_type mod 2 ^ 32)
                  ++ bytes_of_u32 (len mod 2 ^ 32) in
    let (r1, k1) := send_exactly (kern w) (g_socket_fd w) header in
    if r1 <? 0 then (-1, with_kernel w k1)
    else
      let (r2, k2) := send_exactly k1 (g_socket_fd w) json_data in
      if r2 <? 0 then (-1, with_kernel w k2)
      else (0, with_kernel w k2).

(** [doom_socket_send_frame] has the body of [doom_socket_send_message]
  with the tag fixed to [MSG_FRAME_DATA]. *)
Definition doom_socket_send_frame (w : world) (json_data : list byte)
  : Z * world :=
  doom_socket_send_message w MSG_FRAME_DATA json_data.

(** *** Key event parsing *)

(** The C string held in a buffer: the bytes before the first zero. *)
Fixpoint cstr (buf : list byte) : list byte :=
  match buf with
  | [] => []
  | b :: rest => if Byte.eqb b x00 then [] else b :: cstr rest
  end.

Fixpoint starts_with (needle hay : list byte) : bool :=
  match needle, hay with
  | [], _ => true
  | _ :: _, [] => false
  | n :: needle', h :: hay' => Byte.eqb n h && starts_with needle' hay'
  end.

(** [strstr]: the tail of [hay] from the first occurrence of [needle]. *)
Fixpoint strstr (hay needle : list byte) : option (list byte) :=
  if starts_with needle hay then Some hay
  else
    match hay with
    | [] => None
    | _ :: rest => strstr rest needle
    end.

Definition isspace (b : byte) : bool :=
  Byte.eqb b x20 || ((9 <=? Byte.to_N b)%N && (Byte.to_N b <=? 13)%N).

Fixpoint skip (p : byte -> bool) (s : list byte) : list byte :=
  match s with
  | [] => []
  | b :: rest => if p b then skip p rest else s
  end.

(** Value of the leading decimal digits of [s], continuing from [acc]. *)
Fixpoint digits_value (s : list byte) (acc : Z) : Z :=
  match s with
  | [] => acc
  | b :: rest =>
    if Json.is_digit b then digits_value rest (10 * acc + (Z_of_byte b - 48))
    else acc
  end.

(** [strtol(s, NULL, 10)] on a 64-bit [long]: out-of-range values stick at
  the nearest bound. *)
Definition strtol (s : list byte) : Z :=
  let s := skip isspace s in
  let v :=
    match s with
    | b :: rest =>
      if Byte.eqb b x2d then - digits_value rest 0
      else if Byte.eqb b x2b then digits_value rest 0
      else digits_value s 0
    | [] => 0
    end in
  Z.max (- 2 ^ 63) (Z.min (2 ^ 63 - 1) v).

(** [atoi] is [(int) strtol(s, NULL, 10)]. *)
Definition atoi (s : list byte) : Z := Int32.wrap (strtol s).

Definition is_blank (b : byte) : bool := Byte.eqb b x20 || Byte.eqb b x09.

(** Lines 233-244: [pressed_val]. *)
Definition parse_pressed (json_buf : list byte) : Z :=
  match strstr json_buf (Fmt.text "'pressed':") with
  | Some pressed_str =>
    match strstr pressed_str (Fmt.text "true") with
    | Some _ => 1
    | None => 0
    end
  | None => 0
  end.

(** Lines 246-255: [key_val]. *)
Definition parse_key (json_buf : list byte) : Z :=
  match strstr json_buf (Fmt.text "'key':") with
  | Some key_str => atoi (skip is_blank (skipn 6 key_str))
  | None => 0
  end.

(** The two output parameters, written only when a key event is returned. *)
Record key_out := {
  pressed : Z;
  key : Z
}.

Definition doom_socket_recv_key (w : world) : outcome world (option key_out) :=
  let fd := g_socket_fd w in
  let k := kern w in
  if fd <? 0 then Done 0 None w
  else if sys_select k fd <=? 0 then Done 0 None w
  else
    match recv_exactly k fd 4 with
    | Hang => Hang
    | Done r1 type_bytes k1 =>
      if r1 <? 0 then Done (-1) None (with_kernel w k1)
      else
        match recv_exactly k1 fd 4 with
        | Hang => Hang
        | Done r2 len_bytes k2 =>
          if r2 <? 0 then Done (-1) None (with_kernel w k2)
          else
            let msg_type := u32_of_bytes type_bytes in
            let payload_len := u32_of_bytes len_bytes in
            if msg_type =? MSG_SHUTDOWN then Done (-1) None (with_kernel w k2)
            else if negb (msg_type =? MSG_KEY_EVENT) then
              if (payload_len >? 0) && (payload_len <? 65536)
                 && malloc_ok k2 payload_len
              then
                match recv_exactly k2 fd (Z.to_nat payload_len) with
                | Hang => Hang
                | Done _ _ k3 => Done 0 None (with_kernel w k3)
                end
              else Done 0 None (with_kernel w k2)
            else if payload_len >=? 256 then Done (-1) None (with_kernel w k2)
            else
              match recv_exactly k2 fd (Z.to_nat payload_len) with
              | Hang => Hang
              | Done r3 payload k3 =>
                if r3 <? 0 then Done (-1) None (with_kernel w k3)
                else
                  let json_buf := cstr payload in
                  let pressed_val := parse_pressed json_buf in
                  let key_val := parse_key json_buf in
                  Done 1 (Some {| pressed := pressed_val;
                                  key := key_val mod 256 |})
                       (with_kernel w k3)
              end
        end
    end.

Definition doom_socket_close (w : world) : world :=
  if g_socket_fd w >=? 0 then
    let header := bytes_of_u32 MSG_SHUTDOWN ++ bytes_of_u32 0 in
    let (_, k1) := sys_write (kern w) (g_socket_fd w) header in
    closed_world k1 (g_socket_fd w)
  else w.

Definition doom_socket_is_connected (w : world) : Z :=
  if g_socket_fd w >=? 0 then 1 else 0.

End DoomSocket.

(** ** The frame hook (doomgeneric_kicad_dual_v2.c) *)

Module Bridge.

Import Kernel DoomSocket.

Definition KEYQUEUE_SIZE : Z := 16.

Record keyqueue := {
  s_KeyQueue : list Z;
  s_KeyQueueWriteIndex : Z;
  s_KeyQueueReadIndex : Z
}.

(** [a[i] = x] inside the array. *)
Fixpoint store (a : list Z) (i : nat) (x : Z) : list Z :=
  match a, i with
  | [], _ => []
  | _ :: rest, O => x :: rest
  | y :: rest, S i' => y :: store rest i' x
  end.

Inductive sdl_event :=
| SDL_QUIT
| SDL_KEYDOWN (sym : Z)
| SDL_KEYUP (sym : Z)
| SDL_OTHER.

(** Process state the hook works on. *)
Record bridge := {
  sock : world;
  g_frame_count : Z;
  keys : keyqueue;
  json_mem : list byte;          (* the static [json_buf] *)
  last_screenshot_time : Z
}.

(** What the surroundings hand to one call of the hook. *)
Record tick_env := {
  view : view_t;
  sdl_events : list sdl_event;   (* what [SDL_PollEvent] delivers *)
  current_time : Z;              (* [get_time_ms ()], read into a [uint32_t] *)
  surface_ok : bool;             (* [SDL_CreateRGBSurfaceFrom] succeeded *)
  save_ok : bool                 (* [SDL_SaveBMP] returned 0 *)
}.

Inductive tick_result :=
| Exits (code : Z) (b : bridge)
| Continues (b : bridge).

(** The key constants of SDL.h and doomkeys.h that [convertToDoomKey]
  names: host declarations outside the bridge sources. *)
Record keymap := {
  SDLK_RETURN : Z; SDLK_ESCAPE : Z; SDLK_LEFT : Z; SDLK_RIGHT : Z;
  SDLK_UP : Z; SDLK_DOWN : Z; SDLK_LCTRL : Z; SDLK_RCTRL : Z;
  SDLK_SPACE : Z; SDLK_LSHIFT : Z; SDLK_RSHIFT : Z; SDLK_LALT : Z;
  SDLK_RALT : Z; SDLK_F2 : Z; SDLK_F3 : Z; SDLK_F4 : Z; SDLK_F5 : Z;
  SDLK_F6 : Z; SDLK_F7 : Z; SDLK_F8 : Z; SDLK_F9 : Z; SDLK_F10 : Z;
  SDLK_F11 : Z; SDLK_EQUALS : Z; SDLK_PLUS : Z; SDLK_MINUS : Z;
  KEY_ENTER : Z; KEY_ESCAPE : Z; KEY_LEFTARROW : Z; KEY_RIGHTARROW : Z;
  KEY_UPARROW : Z; KEY_DOWNARROW : Z; KEY_FIRE : Z; KEY_USE : Z;
  KEY_RSHIFT : Z; KEY_LALT : Z; KEY_F2 : Z; KEY_F3 : Z; KEY_F4 : Z;
  KEY_F5 : Z; KEY_F6 : Z; KEY_F7 : Z; KEY_F8 : Z; KEY_F9 : Z; KEY_F10 : Z;
  KEY_F11 : Z; KEY_EQUALS : Z; KEY_MINUS : Z
}.

(** [tolower] in the C locale. *)
Definition tolower (c : Z) : Z :=
  if (65 <=? c) && (c <=? 90) then c + 32 else c.

(** The [switch] of [convertToDoomKey]; the value is stored in an
  [unsigned char] by the caller. *)
Definition convertToDoomKey (km : keymap) (key : Z) : Z :=
  if key =? SDLK_RETURN km then KEY_ENTER km
  else if key =? SDLK_ESCAPE km then KEY_ESCAPE km
  else if key =? SDLK_LEFT km then KEY_LEFTARROW km
  else if key =? SDLK_RIGHT km then KEY_RIGHTARROW km
  else if key =? SDLK_UP km then KEY_UPARROW km
  else if key =? SDLK_DOWN km then KEY_DOWNARROW km
  else if (key =? SDLK_LCTRL km) || (key =? SDLK_RCTRL km) then KEY_FIRE km
  else if key =? SDLK_SPACE km then KEY_USE km
  else if (key =? SDLK_LSHIFT km) || (key =? SDLK_RSHIFT km)
       then KEY_RSHIFT km
  else if (key =? SDLK_LALT km) || (key =? SDLK_RALT km) then KEY_LALT km
  else if key =? SDLK_F2 km then KEY_F2 km
  else if key =? SDLK_F3 km then KEY_F3 km
  else if key =? SDLK_F4 km then KEY_F4 km
  else if key =? SDLK_F5 km then KEY_F5 km
  else if key =? SDLK_F6 km then KEY_F6 km
  else if key =? SDLK_F7 km then KEY_F7 km
  else if key =? SDLK_F8 km then KEY_F8 km
  else if key =? SDLK_F9 km then KEY_F9 km
  else if key =? SDLK_F10 km then KEY_F10 km
  else if key =? SDLK_F11 km then KEY_F11 km
  else if (key =? SDLK_EQUALS km) || (key =? SDLK_PLUS km)
       then KEY_EQUALS km
  else if key =? SDLK_MINUS km then KEY_MINUS km
  else tolower key.

Section Host.

(** Array bounds of the renderer and the key constants: host declarations
  outside the bridge sources. *)
Variables MAXDRAWSEGS MAXVISSPRITES : nat.
Variable km : keymap.

Definition addKeyToQueue (q : keyqueue) (pressed keyCode : Z) : keyqueue :=
  let key := convertToDoomKey km keyCode mod 256 in
  let keyData := Z.lor (Z.shiftl pressed 8) key mod 2 ^ 16 in
  {| s_KeyQueue :=
       store (s_KeyQueue q) (Z.to_nat (s_KeyQueueWriteIndex q)) keyData;
     s_KeyQueueWriteIndex :=
       ((s_KeyQueueWriteIndex q + 1) mod 2 ^ 32) mod KEYQUEUE_SIZE;
     s_KeyQueueReadIndex := s_KeyQueueReadIndex q |}.

(** How [handleKeyInput] ends: it returns once [SDL_PollEvent] has nothing
  more to deliver, or it calls [exit(1)] at a quit request.  Either way the
  queue holds the key events polled until then. *)
Inductive poll_result :=
| Polled (q : keyqueue)
| QuitRequested (q : keyqueue).

Fixpoint handleKeyInput (q : keyqueue) (events : list sdl_event)
  : poll_result :=
  match events with
  | [] => Polled q
  | SDL_QUIT :: _ => QuitRequested q
  | SDL_KEYDOWN sym :: rest => handleKeyInput (addKeyToQueue q 1 sym) rest
  | SDL_KEYUP sym :: rest => handleKeyInput (addKeyToQueue q 0 sym) rest
  | SDL_OTHER :: rest => handleKeyInput q rest
  end.

(** The text of the screenshot notice; both [snprintf] calls have room to
  spare (at most 66 and 81 bytes for buffers of 256 and 512). *)
Definition screenshot_msg (current_time : Z) : list byte :=
  Fmt.text "{'sdl_path':'"
  ++ Fmt.text "/Users/tribune/Desktop/KiDoom/screenshots/sdl/sdl_"
  ++ Fmt.fmt_u (current_time / 1000) ++ Fmt.text ".bmp" ++ Fmt.text "'}".

Definition DG_DrawFrame (b : bridge) (e : tick_env) : tick_result :=
  let st := Serializer.extract_vectors_to_json MAXDRAWSEGS MAXVISSPRITES
              (view e) (g_frame_count b) (json_mem b) in
  let json_data := Serializer.document st in
  let (r, w1) := doom_socket_send_frame (sock b) json_data in
  if r <? 0 then
    Exits 1 {| sock := w1; g_frame_count := g_frame_count b; keys := keys b;
               json_mem := Serializer.json_buf st;
               last_screenshot_time := last_screenshot_time b |}
  else
    match handleKeyInput (keys b) (sdl_events e) with
    | QuitRequested q =>
      Exits 1 {| sock := w1; g_frame_count := g_frame_count b; keys := q;
                 json_mem := Serializer.json_buf st;
                 last_screenshot_time := last_screenshot_time b |}
    | Polled q =>
      let frame_count := Int32.add (g_frame_count b) 1 in
      let now := current_time e mod 2 ^ 32 in
      let last := last_screenshot_time b in
      let (w2, last') :=
        if last =? 0 then (w1, now)
        else if (now - last) mod 2 ^ 32 >=? 3000 then
          if surface_ok e && save_ok e
          then (snd (doom_socket_send_message w1 MSG_SCREENSHOT
                       (screenshot_msg now)), now)
          else (w1, now)
        else (w1, last) in
      Continues {| sock := w2; g_frame_count := frame_count; keys := q;
                   json_mem := Serializer.json_buf st;
                   last_screenshot_time := last' |}
    end.

Definition DG_GetKey (q : keyqueue) : option (Z * Z) * keyqueue :=
  if s_KeyQueueReadIndex q =? s_KeyQueueWriteIndex q then (None, q)
  else
    let keyData := nth (Z.to_nat (s_KeyQueueReadIndex q)) (s_KeyQueue q) 0 in
    (Some (Z.shiftr keyData 8, Z.land keyData 0xFF),
     {| s_KeyQueue := s_KeyQueue q;
        s_KeyQueueWriteIndex := s_KeyQueueWriteIndex q;
        s_KeyQueueReadIndex :=
          ((s_KeyQueueReadIndex q + 1) mod 2 ^ 32) mod KEYQUEUE_SIZE |}).

End Host.

End Bridge.

(** ** Notions used to state the properties *)

(** A view the renderer can be set to: positive dimensions, and a width
  whose column midpoints [(x1 + x2) / 2] stay within an [int]. *)
Definition valid_view (v : view_t) : Prop :=
  0 < viewwidth v <= 2 ^ 30 /\ 0 < viewheight v <= Int32.max_signed.

(** The projection formula on unbounded integers. *)
Definition exact_y (v : view_t) (height scale : Z) : Z :=
  Z.shiftr (centeryfrac v - Z.shiftr ((height - viewz v) * scale) FRACBITS)
           FRACBITS.

(** The texts handed to [snprintf], in call order, by the wall loop, by the
  sprite loop and by a whole run of [extract_vectors_to_json]. *)
Module Calls.

Import Sampler Serializer.

Fixpoint wall_calls (v : view_t) (dsl : list drawseg_t) (wall_output : Z)
  : list (list byte) :=
  match dsl with
  | [] => []
  | ds :: rest =>
    match sample_wall v ds with
    | None => wall_calls v rest wall_output
    | Some w =>
      (if wall_output >? 0 then [comma] else [])
      ++ fmt_wall w :: wall_calls v rest (Int32.add wall_output 1)
    end
  end.

Fixpoint sprite_calls (v : view_t) (vl : list vissprite_t) (i : Z)
  : list (list byte) :=
  match vl with
  | [] => []
  | vis :: rest =>
    match sample_sprite v vis with
    | None => sprite_calls v rest (i + 1)
    | Some e =>
      (if i >? 0 then [comma] else [])
      ++ fmt_entity e :: sprite_calls v rest (i + 1)
    end
  end.

Definition frame_calls (MAXDRAWSEGS MAXVISSPRITES : nat) (v : view_t)
  (g_frame_count : Z) : list (list byte) :=
  (Fmt.text "{'frame':" ++ Fmt.fmt_d g_frame_count ++ Fmt.text ",'walls':[")
  :: (wall_calls v (firstn MAXDRAWSEGS (drawsegs v)) 0
      ++ (Fmt.text "],'entities':["
          :: (sprite_calls v (firstn MAXVISSPRITES (vissprites v)) 0
              ++ [Fmt.text "],'weapon':"; fmt_weapon (sample_weapon v);
                  Fmt.text "}"]))).

(** The complete document of a frame, whatever its length. *)
Definition frame_text (MAXDRAWSEGS MAXVISSPRITES : nat) (v : view_t)
  (g_frame_count : Z) : list byte :=
  concat (frame_calls MAXDRAWSEGS MAXVISSPRITES v g_frame_count).

Definition total (calls : list (list byte)) : Z :=
  Z.of_nat (length (concat calls)).

Definition accepted (v : view_t) (vis : vissprite_t) : bool :=
  match sample_sprite v vis with
  | Some _ => true
  | None => false
  end.

(** The vissprites on which the sprite loop's test [i > 0] agrees with
  "an entity has been written already": either the first one is emitted, or
  none is. *)
Definition separators_agree (v : view_t) (vl : list vissprite_t) : bool :=
  match vl with
  | [] => true
  | vis :: rest => accepted v vis || forallb (fun s => negb (accepted v s)) rest
  end.

End Calls.

(** Notions about the transport. *)
Module Wire.

Import Kernel DoomSocket.

(** The handle is Connected: it holds a descriptor the process has open. *)
Definition connected (w : world) : Prop :=
  0 <= g_socket_fd w /\ is_open (kern w) (g_socket_fd w) = true.

(** One message on the wire: the two header words, then the payload. *)
Definition message (msg_type : Z) (payload : list byte) : list byte :=
  bytes_of_u32 msg_type ++ bytes_of_u32 (Z.of_nat (length payload))
  ++ payload.

(** A header announcing [len] payload bytes. *)
Definition header (msg_type len : Z) : list byte :=
  bytes_of_u32 msg_type ++ bytes_of_u32 len.

(** The inbound stream [r] delivers the bytes [bs], cut into non-empty
  pieces in any way, and then goes on as [rest]. *)
Definition carries (r : list rd_event) (bs : list byte)
  (rest : list rd_event) : Prop :=
  exists segs, r = map RdData segs ++ rest
               /\ Forall (fun s => s <> []) segs
               /\ concat segs = bs.

(** The kernel takes bytes on this [write]. *)
Definition accepts (e : wr_event) : bool :=
  match e with
  | WrAccept _ => true
  | _ => false
  end.

(** Bytes of a buffer of [n] bytes still to be sent after successive
  writes that take at most [ps] bytes each. *)
Fixpoint unsent (ps : list positive) (n : nat) : nat :=
  match ps with
  | [] => n
  | p :: rest => unsent rest (n - Pos.to_nat p)
  end.

(** The same for a message of [h] header bytes and [m] payload bytes: the
  header goes out first, by writes of its own. *)
Fixpoint unsent_message (ps : list positive) (h m : nat) : nat :=
  match ps with
  | [] => h + m
  | p :: rest =>
    match h with
    | O => unsent_message rest O (m - Pos.to_nat p)
    | S _ => unsent_message rest (h - Pos.to_nat p) m
    end
  end.

(** What [doom_socket_recv_key] goes on to do, from line 202, once the two
  header words are known; [k2] is the kernel after the header was read. *)
Definition recv_key_dispatch (w : world) (k2 : kernel)
  (msg_type payload_len : Z) : outcome world (option key_out) :=
  let fd := g_socket_fd w in
  if msg_type =? MSG_SHUTDOWN then Done (-1) None (with_kernel w k2)
  else if negb (msg_type =? MSG_KEY_EVENT) then
    if (payload_len >? 0) && (payload_len <? 65536)
       && malloc_ok k2 payload_len
    then
      match recv_exactly k2 fd (Z.to_nat payload_len) with
      | Hang => Hang
      | Done _ _ k3 => Done 0 None (with_kernel w k3)
      end
    else Done 0 None (with_kernel w k2)
  else if payload_len >=? 256 then Done (-1) None (with_kernel w k2)
  else
    match recv_exactly k2 fd (Z.to_nat payload_len) with
    | Hang => Hang
    | Done r3 payload k3 =>
      if r3 <? 0 then Done (-1) None (with_kernel w k3)
      else
        Done 1 (Some {| pressed := parse_pressed (cstr payload);
                        key := parse_key (cstr payload) mod 256 |})
             (with_kernel w k3)
    end.

(** The payload the peer sends for a key event, as in
  [{"pressed": true, "key": 97}]. *)
Definition key_event_json (is_pressed : bool) (code : Z) : list byte :=
  Fmt.text "{'pressed': "
  ++ (if is_pressed then Fmt.text "true" else Fmt.text "false")
  ++ Fmt.text ", 'key': " ++ Fmt.fmt_d code ++ Fmt.text "}".

(** What [doom_socket_connect] goes on to do, from line 122, once the two
  header words are known. *)
Definition connect_dispatch (fd : Z) (k2 : kernel)
  (msg_type payload_len : Z) : outcome world unit :=
  if negb (msg_type =? MSG_INIT_COMPLETE)
  then Done (-1) tt (closed_world k2 fd)
  else if (payload_len >? 0) && malloc_ok k2 payload_len then
    match recv_exactly k2 fd (Z.to_nat payload_len) with
    | Hang => Hang
    | Done _ _ k3 => Done 0 tt {| g_socket_fd := fd; kern := k3 |}
    end
  else Done 0 tt {| g_socket_fd := fd; kern := k2 |}.

(** The handle is Disconnected and descriptor [fd] is no longer held. *)
Definition released (w : world) (fd : Z) : Prop :=
  g_socket_fd w = -1
  /\ is_open (kern w) fd = false
  /\ doom_socket_is_connected w = 0.

(** Reading one message the way [doom_socket_connect] does, keeping the
  payload: the receiving end of the round trip. *)
Definition recv_message (k : kernel) (fd : Z)
  : outcome kernel (Z * list byte) :=
  match recv_exactly k fd 4 with
  | Hang => Hang
  | Done r1 type_bytes k1 =>
    if r1 <? 0 then Done (-1) (0, []) k1
    else
      match recv_exactly k1 fd 4 with
      | Hang => Hang
      | Done r2 len_bytes k2 =>
        if r2 <? 0 then Done (-1) (0, []) k2
        else
          let msg_type := u32_of_bytes type_bytes in
          let payload_len := u32_of_bytes len_bytes in
          match recv_exactly k2 fd (Z.to_nat payload_len) with
          | Hang => Hang
          | Done r3 payload k3 =>
            if r3 <? 0 then Done (-1) (msg_type, payload) k3
            else Done 0 (msg_type, payload) k3
          end
      end
  end.

End Wire.

(** ** Concrete inputs *)

Module Vectors.

Definition FRACUNIT : Z := 65536.

(** A 320 x 200 view with the eye 41 units above the floor. *)
Definition view_of (ds : list drawseg_t) (vs : list vissprite_t)
  (weapon : pspdef_t) : view_t :=
  {| drawsegs := ds; vissprites := vs;
     viewwidth := 320; viewheight := 200;
     centeryfrac := 100 * FRACUNIT; viewz := 41 * FRACUNIT;
     weapon_psp := weapon |}.

Definition no_weapon : pspdef_t := {| psp_state := false; sx := 0; sy := 0 |}.

Definition wall_10_30 : drawseg_t :=
  {| curline := Some {| frontsector :=
                          Some {| floorheight := 0;
                                  ceilingheight := 128 * FRACUNIT |} |};
     ds_x1 := 10; ds_x2 := 30;
     scale1 := 0x10000; scale2 := 0x10000; silhouette := 3 |}.

(** A sprite 56 units tall standing on the floor, columns 10 to 21. *)
Definition sprite_10_21 : vissprite_t :=
  {| vis_x1 := 10; vis_x2 := 21; vis_scale := 0x10000;
     gz := 0; gzt := 56 * FRACUNIT; mobjtype := 7 |}.

(** A sprite starting just past the right edge: the renderer keeps a
  sprite whose first column is [viewwidth] and clips its last column to
  [viewwidth - 1]. *)
Definition sprite_offscreen : vissprite_t :=
  {| vis_x1 := 320; vis_x2 := 319; vis_scale := 0x10000;
     gz := 0; gzt := 56 * FRACUNIT; mobjtype := 1 |}.

(** A sprite 100 units tall, 841 units overhead, seen from 4 units away
  (scale 40.0). *)
Definition sprite_overhead : vissprite_t :=
  {| vis_x1 := 0; vis_x2 := 319; vis_scale := 40 * FRACUNIT;
     gz := 841 * FRACUNIT; gzt := 941 * FRACUNIT; mobjtype := 7 |}.

(** A kernel that hands out descriptor 3, lets [connect] and [malloc]
  succeed, and has nothing sent yet. *)
Definition kernel_of (fds : list Z) (r : list Kernel.rd_event)
  (w : list Kernel.wr_event) : Kernel.kernel :=
  {| Kernel.socket_ret := 3; Kernel.connect_ret := 0;
     Kernel.malloc_ok := fun _ => true; Kernel.open_fds := fds;
     Kernel.rx := r; Kernel.wr := w; Kernel.tx := [] |}.

(** The handle before [doom_socket_connect]. *)
Definition fresh_world (r : list Kernel.rd_event) : DoomSocket.world :=
  {| DoomSocket.g_socket_fd := -1; DoomSocket.kern := kernel_of [] r [] |}.

(** A Connected handle on descriptor 3. *)
Definition connected_world (r : list Kernel.rd_event)
  (w : list Kernel.wr_event) : DoomSocket.world :=
  {| DoomSocket.g_socket_fd := 3; DoomSocket.kern := kernel_of [3] r w |}.

(** The key constants as SDL2 and doomkeys.h spell them. *)
Definition sdl2_keys : Bridge.keymap :=
  {| Bridge.SDLK_RETURN := 13; Bridge.SDLK_ESCAPE := 27;
     Bridge.SDLK_LEFT := 0x40000050; Bridge.SDLK_RIGHT := 0x4000004F;
     Bridge.SDLK_UP := 0x40000052; Bridge.SDLK_DOWN := 0x40000051;
     Bridge.SDLK_LCTRL := 0x400000E0; Bridge.SDLK_RCTRL := 0x400000E4;
     Bridge.SDLK_SPACE := 32;
     Bridge.SDLK_LSHIFT := 0x400000E1; Bridge.SDLK_RSHIFT := 0x400000E5;
     Bridge.SDLK_LALT := 0x400000E2; Bridge.SDLK_RALT := 0x400000E6;
     Bridge.SDLK_F2 := 0x4000003B; Bridge.SDLK_F3 := 0x4000003C;
     Bridge.SDLK_F4 := 0x4000003D; Bridge.SDLK_F5 := 0x4000003E;
     Bridge.SDLK_F6 := 0x4000003F; Bridge.SDLK_F7 := 0x40000040;
     Bridge.SDLK_F8 := 0x40000041; Bridge.SDLK_F9 := 0x40000042;
     Bridge.SDLK_F10 := 0x40000043; Bridge.SDLK_F11 := 0x40000044;
     Bridge.SDLK_EQUALS := 61; Bridge.SDLK_PLUS := 43;
     Bridge.SDLK_MINUS := 45;
     Bridge.KEY_ENTER := 13; Bridge.KEY_ESCAPE := 27;
     Bridge.KEY_LEFTARROW := 0xac; Bridge.KEY_RIGHTARROW := 0xae;
     Bridge.KEY_UPARROW := 0xad; Bridge.KEY_DOWNARROW := 0xaf;
     Bridge.KEY_FIRE := 0xa3; Bridge.KEY_USE := 0xa2;
     Bridge.KEY_RSHIFT := 0xb6; Bridge.KEY_LALT := 0xb8;
     Bridge.KEY_F2 := 0xbc; Bridge.KEY_F3 := 0xbd; Bridge.KEY_F4 := 0xbe;
     Bridge.KEY_F5 := 0xbf; Bridge.KEY_F6 := 0xc0; Bridge.KEY_F7 := 0xc1;
     Bridge.KEY_F8 := 0xc2; Bridge.KEY_F9 := 0xc3; Bridge.KEY_F10 := 0xc4;
     Bridge.KEY_F11 := 0xd7; Bridge.KEY_EQUALS := 0x3d;
     Bridge.KEY_MINUS := 0x2d |}.

(** The hook's state on a Connected handle with an empty key queue, and a
  call of the hook during which no SDL event arrives. *)
Definition bridge_of (w : DoomSocket.world) : Bridge.bridge :=
  {| Bridge.sock := w; Bridge.g_frame_count := 0;
     Bridge.keys := {| Bridge.s_KeyQueue := repeat 0 16;
                       Bridge.s_KeyQueueWriteIndex := 0;
                       Bridge.s_KeyQueueReadIndex := 0 |};
     Bridge.json_mem := []; Bridge.last_screenshot_time := 0 |}.

Definition quiet_tick : Bridge.tick_env :=
  {| Bridge.view := view_of [wall_10_30] [sprite_10_21] no_weapon;
     Bridge.sdl_events := []; Bridge.current_time := 1000;
     Bridge.surface_ok := true; Bridge.save_ok := true |}.

(** A sprite record whose top lies below its bottom. *)
Definition sprite_inverted : vissprite_t :=
  {| vis_x1 := 10; vis_x2 := 20; vis_scale := 0x10000;
     gz := 91 * FRACUNIT; gzt := 41 * FRACUNIT; mobjtype := 7 |}.

End Vectors.

(** ** Sequences of transport calls *)

Module Session.

Import Kernel DoomSocket.

(** The handle is usable: Disconnected, or holding a descriptor the process
  has open. *)
Definition handle_ok (w : world) : Prop :=
  g_socket_fd w < 0 \/ Wire.connected w.

(** The entry points of doom_socket.h. *)
Inductive call :=
| Connect
| SendFrame (json_data : list byte)
| SendMessage (msg_type : Z) (json_data : list byte)
| RecvKey
| Close.

(** One call; [None] when the call never returns. *)
Definition do_call (w : world) (c : call) : option world :=
  match c with
  | Connect =>
    match doom_socket_connect w with
    | Done _ _ w' => Some w'
    | Hang => None
    end
  | SendFrame json_data => Some (snd (doom_socket_send_frame w json_data))
  | SendMessage msg_type json_data =>
    Some (snd (doom_socket_send_message w msg_type json_data))
  | RecvKey =>
    match doom_socket_recv_key w with
    | Done _ _ w' => Some w'
    | Hang => None
    end
  | Close => Some (doom_socket_close w)
  end.

Fixpoint do_calls (w : world) (cs : list call) : option world :=
  match cs with
  | [] => Some w
  | c :: rest =>
    match do_call w c with
    | Some w' => do_calls w' rest
    | None => None
    end
  end.

End Session.

(** ** Start-up (doomgeneric_kicad_dual_v2.c) *)

Module Startup.

Import DoomSocket.

(** [get_time_ms]: [tv_sec * 1000 + tv_usec / 1000], returned as a
  [uint32_t]. *)
Definition get_time_ms (tv_sec tv_usec : Z) : Z :=
  (tv_sec * 1000 + Z.quot tv_usec 1000) mod 2 ^ 32.

Inductive init_result :=
| InitExits (code : Z) (w : world)
| InitReturns (w : world)
| InitWaits.

(** [DG_Init], lines 286-320.  The SDL window, renderer and texture it
  creates take no part in the transport; what is left is the connect and
  the [exit(1)] when it fails. *)
Definition DG_Init (w : world) : init_result :=
  match doom_socket_connect w with
  | Hang => InitWaits
  | Done r _ w' => if r <? 0 then InitExits 1 w' else InitReturns w'
  end.

End Startup.

(** ** The layout of a frame document *)

Module Layout.

Import Sampler Serializer.

(** The items of a JSON array, joined by [sep]. *)
Fixpoint join (sep : list byte) (items : list (list byte)) : list byte :=
  match items with
  | [] => []
  | x :: rest =>
    match rest with
    | [] => x
    | _ :: _ => x ++ sep ++ join sep rest
    end
  end.

(** The walls and the entities the sampler emits, in the order of the
  renderer's arrays. *)
Definition walls_of (v : view_t) (dsl : list drawseg_t) : list wall_t :=
  flat_map (fun ds => match sample_wall v ds with
                      | Some w => [w]
                      | None => []
                      end) dsl.

Definition entities_of (v : view_t) (vl : list vissprite_t)
  : list entity_t :=
  flat_map (fun vis => match sample_sprite v vis with
                       | Some e => [e]
                       | None => []
                       end) vl.

(** The comma the sprite loop writes ahead of the first entity when that
  entity does not come from the first vissprite. *)
Definition stray_comma (v : view_t) (vl : list vissprite_t) : list byte :=
  match vl with
  | [] => []
  | vis :: rest =>
    match sample_sprite v vis, entities_of v rest with
    | None, _ :: _ => comma
    | _, _ => []
    end
  end.

End Layout.

(** ** The key queue *)

Module Queue.

Import Bridge.

(** The array has its sixteen cells and both indices point into it. *)
Definition well_formed (q : keyqueue) : Prop :=
  length (s_KeyQueue q) = 16%nat
  /\ 0 <= s_KeyQueueWriteIndex q < KEYQUEUE_SIZE
  /\ 0 <= s_KeyQueueReadIndex q < KEYQUEUE_SIZE.

(** How far the write index is ahead of the read index, around the ring. *)
Definition pending (q : keyqueue) : nat :=
  Z.to_nat ((s_KeyQueueWriteIndex q - s_KeyQueueReadIndex q)
            mod KEYQUEUE_SIZE).

(** The cell [i] places after the read index. *)
Definition slot (q : keyqueue) (i : nat) : Z :=
  nth (Z.to_nat ((s_KeyQueueReadIndex q + Z.of_nat i) mod KEYQUEUE_SIZE))
      (s_KeyQueue q) 0.

(** [*pressed] and [*doomKey] as [DG_GetKey] takes them out of a cell. *)
Definition decode (keyData : Z) : Z * Z :=
  (Z.shiftr keyData 8, Z.land keyData 0xFF).

(** The keys between the read index and the write index. *)
Definition waiting (q : keyqueue) : list (Z * Z) :=
  map (fun i => decode (slot q i)) (seq 0 (pending q)).

(** Up to [n] calls of [DG_GetKey], stopping at the first that returns 0. *)
Fixpoint drain (n : nat) (q : keyqueue) : list (Z * Z) * keyqueue :=
  match n with
  | O => ([], q)
  | S n' =>
    match DG_GetKey q with
    | (Some kv, q') => let (l, q'') := drain n' q' in (kv :: l, q'')
    | (None, q') => ([], q')
    end
  end.

(** The pressed flag and key code of each key event among SDL events. *)
Definition keys_of (km : keymap) (events : list sdl_event) : list (Z * Z) :=
  flat_map (fun e => match e with
                     | SDL_KEYDOWN sym => [(1, convertToDoomKey km sym mod 256)]
                     | SDL_KEYUP sym => [(0, convertToDoomKey km sym mod 256)]
                     | _ => []
                     end) events.

End Queue.

(** ** Successive calls of the frame hook *)

Module Hook.

Import Bridge.

(** The test of lines 346-370 under which a screenshot notice is sent: a
  capture time is on record, 3000 ms or more have passed on the 32-bit
  clock, and the surface was created and saved. *)
Definition screenshot_due (b : bridge) (e : tick_env) : bool :=
  negb (last_screenshot_time b =? 0)
  && ((current_time e mod 2 ^ 32 - last_screenshot_time b) mod 2 ^ 32
      >=? 3000)
  && surface_ok e && save_ok e.

(** The capture time the hook leaves on record. *)
Definition next_screenshot_time (b : bridge) (e : tick_env) : Z :=
  if last_screenshot_time b =? 0 then current_time e mod 2 ^ 32
  else if (current_time e mod 2 ^ 32 - last_screenshot_time b) mod 2 ^ 32
          >=? 3000
       then current_time e mod 2 ^ 32
       else last_screenshot_time b.

Section Ticks.

Variables MAXDRAWSEGS MAXVISSPRITES : nat.
Variable km : keymap.

(** The hook called once per tick of the main loop, each time with what
  the surroundings deliver; [None] when a call exits the process. *)
Fixpoint ticks (b : bridge) (envs : list tick_env) : option bridge :=
  match envs with
  | [] => Some b
  | e :: rest =>
    match DG_DrawFrame MAXDRAWSEGS MAXVISSPRITES km b e with
    | Continues b' => ticks b' rest
    | Exits _ _ => None
    end
  end.

End Ticks.

End Hook.

(** * Properties *)

Lemma Some_inj {A : Type} (a b : A) : Some a = Some b -> a = b.
Proof. intros H. injection H. auto. Qed.

Lemma Polled_inj a b : Bridge.Polled a = Bridge.Polled b -> a = b.
Proof. intros H. injection H. auto. Qed.

(** ** 32-bit arithmetic *)

Lemma wrap_range z : Int32.in_range (Int32.wrap z).
Proof.
  unfold Int32.in_range, Int32.wrap, Int32.min_signed, Int32.max_signed.
  pose proof (Z.mod_pos_bound (z + 2 ^ 31) (2 ^ 32) ltac:(lia)). lia.
Qed.

Lemma wrap_id z : Int32.in_range z -> Int32.wrap z = z.
Proof.
  unfold Int32.in_range, Int32.wrap, Int32.min_signed, Int32.max_signed.
  intros H. rewrite Z.mod_small by lia. lia.
Qed.

Lemma wrap_small z : - 2 ^ 31 <= z < 2 ^ 31 -> Int32.wrap z = z.
Proof.
  intros H. apply wrap_id.
  unfold Int32.in_range, Int32.min_signed, Int32.max_signed. lia.
Qed.

Lemma shiftr_mono a b n : 0 <= n -> a <= b -> Z.shiftr a n <= Z.shiftr b n.
Proof.
  intros Hn Hab. rewrite !Z.shiftr_div_pow2 by lia.
  apply Z.div_le_mono; [apply Z.pow_pos_nonneg; lia | exact Hab].
Qed.

(** ** Depth bucket *)

Section DepthBucket.

Import Sampler.

Lemma distance_formula_exact s :
  0x800 <= s <= 0x20000 ->
  Int32.sub 999
    (Int32.div (Int32.mul (Int32.sub s 0x800) 999) (Int32.sub 0x20000 0x800))
  = 999 - ((s - 0x800) * 999) / (0x20000 - 0x800).
Proof.
  intros Hs. unfold Int32.sub, Int32.div, Int32.mul.
  rewrite (wrap_small (s - 0x800)) by lia.
  rewrite (wrap_small (0x20000 - 0x800)) by lia.
  rewrite (wrap_small ((s - 0x800) * 999)) by lia.
  rewrite Z.quot_div_nonneg by lia.
  assert (0 <= (s - 0x800) * 999 / (0x20000 - 0x800) <= 999).
  { split.
    - apply Z.div_pos; lia.
    - apply Z.div_le_upper_bound; lia. }
  rewrite (wrap_small ((s - 0x800) * 999 / (0x20000 - 0x800))) by lia.
  apply wrap_small. lia.
Qed.

Lemma distance_range s : 0 <= distance_of_scale s <= 999.
Proof.
  unfold distance_of_scale.
  set (d := if s >? 0x20000 then _ else _). clearbody d. cbv zeta.
  destruct (d <? 0) eqn:E1.
  - reflexivity || (split; discriminate).
  - destruct (d >? 999) eqn:E2; lia.
Qed.

(** C7.  The depth bucket of a scale [s]: 0 above 0x20000, 999 below 0x800,
  and in between [999 - ((s - 0x800) * 999) / (0x20000 - 0x800)] with integer
  division, a value already inside [0, 999]; none of the 32-bit operations of
  the formula wraps there; replacing a non-positive scale by 1 first does not
  change the bucket; and the three boundary scales map to 0, 999 and 500. *)
Theorem distance_of_scale_spec (s : Z) (Hs : Int32.in_range s) :
  (0x20000 < s -> distance_of_scale s = 0)
  /\ (s < 0x800 -> distance_of_scale s = 999)
  /\ (0x800 <= s <= 0x20000 ->
      distance_of_scale s = 999 - ((s - 0x800) * 999) / (0x20000 - 0x800)
      /\ Int32.in_range (s - 0x800)
      /\ Int32.in_range ((s - 0x800) * 999)
      /\ Int32.mul (Int32.sub s 0x800) 999 = (s - 0x800) * 999)
  /\ 0 <= distance_of_scale s <= 999
  /\ distance_of_scale (positive_scale s) = distance_of_scale s
  /\ distance_of_scale 0x20000 = 0
  /\ distance_of_scale 0x800 = 999
  /\ 500 - 1 <= distance_of_scale 0x10400 <= 500 + 1.
Proof.
  split; [| split; [| split; [| split; [| split; [| split; [| split]]]]]].
  - intros H. unfold distance_of_scale.
    destruct (s >? 0x20000) eqn:E; [reflexivity | lia].
  - intros H. unfold distance_of_scale.
    destruct (s >? 0x20000) eqn:E1; [lia |].
    destruct (s <? 0x800) eqn:E2; [reflexivity | lia].
  - intros H.
    assert (0 <= (s - 0x800) * 999 / (0x20000 - 0x800) <= 999).
    { split; [apply Z.div_pos; lia | apply Z.div_le_upper_bound; lia]. }
    split; [| split; [| split]].
    + unfold distance_of_scale.
      destruct (s >? 0x20000) eqn:E1; [lia |].
      destruct (s <? 0x800) eqn:E2; [lia |].
      rewrite distance_formula_exact by lia.
      set (d := 999 - _) in *. cbv zeta.
      destruct (d <? 0) eqn:E3; [lia |].
      destruct (d >? 999) eqn:E4; [lia | reflexivity].
    + unfold Int32.in_range, Int32.min_signed, Int32.max_signed. lia.
    + unfold Int32.in_range, Int32.min_signed, Int32.max_signed. lia.
    + unfold Int32.mul, Int32.sub.
      rewrite (wrap_small (s - 0x800)) by lia. apply wrap_small. lia.
  - apply distance_range.
  - unfold positive_scale. destruct (s <=? 0) eqn:E; [| reflexivity].
    unfold distance_of_scale.
    destruct (s >? 0x20000) eqn:E1; [lia |].
    destruct (s <? 0x800) eqn:E2; [reflexivity | lia].
  - vm_compute. reflexivity.
  - vm_compute. reflexivity.
  - vm_compute. split; discriminate.
Qed.

Lemma distance_of_scale_spec_witness :
  Int32.in_range 0x10400
  /\ distance_of_scale 0x10400
     = 999 - ((0x10400 - 0x800) * 999) / (0x20000 - 0x800).
Proof.
  assert (R : Int32.in_range 0x10400).
  { unfold Int32.in_range, Int32.min_signed, Int32.max_signed. lia. }
  split; [exact R |].
  destruct (distance_of_scale_spec 0x10400 R) as (_ & _ & H & _).
  apply H. lia.
Defined.

End DepthBucket.

(** ** Sampler invariants *)

Section SamplerBounds.

Import Sampler.

Variable v : view_t.
Hypothesis Hv : valid_view v.

Lemma clamp_y_range y : 0 <= clamp_y v y <= viewheight v - 1.
Proof.
  destruct Hv as [_ Hh]. unfold Int32.max_signed in Hh.
  unfold clamp_y. cbv zeta.
  assert (Int32.sub (viewheight v) 1 = viewheight v - 1) as ->.
  { unfold Int32.sub. apply wrap_small. lia. }
  destruct (y <? 0) eqn:E1.
  - destruct (0 >=? viewheight v) eqn:E2; lia.
  - destruct (y >=? viewheight v) eqn:E2; lia.
Qed.

Lemma clamp_y_mono a b : a <= b -> clamp_y v a <= clamp_y v b.
Proof.
  intros Hab. destruct Hv as [_ Hh]. unfold Int32.max_signed in Hh.
  unfold clamp_y. cbv zeta.
  assert (Int32.sub (viewheight v) 1 = viewheight v - 1) as ->.
  { unfold Int32.sub. apply wrap_small. lia. }
  destruct (a <? 0) eqn:Ea; destruct (b <? 0) eqn:Eb;
    repeat match goal with
           | |- context [?x >=? ?y] => destruct (x >=? y) eqn:?
           end; lia.
Qed.

Lemma positive_scale_pos s : 0 < positive_scale s.
Proof. unfold positive_scale. destruct (s <=? 0) eqn:E; lia. Qed.

Lemma exact_y_antitone s h1 h2 :
  0 < s -> h1 <= h2 -> exact_y v h2 s <= exact_y v h1 s.
Proof.
  intros Hs Hh. unfold exact_y, FRACBITS.
  apply shiftr_mono; [lia |].
  assert (Z.shiftr ((h1 - viewz v) * s) 16 <= Z.shiftr ((h2 - viewz v) * s) 16).
  { apply shiftr_mono; [lia | nia]. }
  lia.
Qed.

Lemma sample_wall_bounds ds w :
  sample_wall v ds = Some w ->
  0 <= w_x1 w <= w_x2 w /\ w_x2 w < viewwidth v
  /\ 0 <= w_y1_top w <= viewheight v - 1
  /\ 0 <= w_y1_bottom w <= viewheight v - 1
  /\ 0 <= w_y2_top w <= viewheight v - 1
  /\ 0 <= w_y2_bottom w <= viewheight v - 1
  /\ 0 <= w_distance w <= 999.
Proof.
  unfold sample_wall. cbv zeta.
  destruct (_ || _) eqn:Ex; [discriminate |].
  destruct (curline ds) as [seg |]; [| discriminate].
  destruct (frontsector seg) as [sector |]; [| discriminate].
  intros H. apply Some_inj in H. subst w.
  cbn [w_x1 w_x2 w_y1_top w_y1_bottom w_y2_top w_y2_bottom w_distance].
  rewrite !orb_false_iff in Ex. destruct Ex as ((((E1 & E2) & E3) & E4) & E5).
  split; [lia |]. split; [lia |].
  repeat (split; [apply clamp_y_range |]).
  apply distance_range.
Qed.

Lemma sample_sprite_bounds vis e :
  sample_sprite v vis = Some e ->
  0 <= e_x e < viewwidth v
  /\ 0 <= e_y_top e <= viewheight v - 1
  /\ 0 <= e_y_bottom e <= viewheight v - 1
  /\ e_height e = Z.max 5 (e_y_bottom e - e_y_top e)
  /\ 5 <= e_height e
  /\ 0 <= e_distance e <= 999.
Proof.
  unfold sample_sprite. cbv zeta.
  destruct (_ || _) eqn:Ex; [discriminate |].
  intros H. apply Some_inj in H. subst e.
  cbn [e_x e_y_top e_y_bottom e_height e_distance].
  rewrite !orb_false_iff in Ex. destruct Ex as (((E1 & E2) & E3) & E4).
  destruct Hv as [Hw Hh]. unfold Int32.max_signed in Hh.
  set (s := positive_scale (vis_scale vis)).
  pose proof (clamp_y_range (project_y v (gzt vis) s)) as Rt.
  pose proof (clamp_y_range (project_y v (gz vis) s)) as Rb.
  set (yt := clamp_y v (project_y v (gzt vis) s)) in *.
  set (yb := clamp_y v (project_y v (gz vis) s)) in *.
  assert (Hsub : Int32.sub yb yt = yb - yt).
  { unfold Int32.sub. apply wrap_small. lia. }
  assert (Hx : Int32.div (Int32.add (vis_x1 vis) (vis_x2 vis)) 2
               = (vis_x1 vis + vis_x2 vis) / 2).
  { unfold Int32.div, Int32.add.
    rewrite (wrap_small (vis_x1 vis + vis_x2 vis)) by lia.
    rewrite Z.quot_div_nonneg by lia.
    apply wrap_small.
    assert (0 <= (vis_x1 vis + vis_x2 vis) / 2 < 2 ^ 31); [| lia].
    split; [apply Z.div_pos; lia | apply Z.div_lt_upper_bound; lia]. }
  rewrite Hx, Hsub. clearbody yt yb. clear Hx Hsub.
  split; [| split; [exact Rt | split; [exact Rb | split; [| split]]]].
  - split; [apply Z.div_pos; lia | apply Z.div_lt_upper_bound; lia].
  - destruct (yb - yt <? 5) eqn:E; lia.
  - destruct (yb - yt <? 5) eqn:E; lia.
  - apply distance_range.
Qed.

Lemma sample_sprite_ordered vis e :
  sample_sprite v vis = Some e ->
  gz vis <= gzt vis ->
  (forall h, h = gz vis \/ h = gzt vis ->
     project_y v h (positive_scale (vis_scale vis))
     = exact_y v h (positive_scale (vis_scale vis))) ->
  e_y_top e <= e_y_bottom e.
Proof.
  unfold sample_sprite. cbv zeta.
  destruct (_ || _) eqn:Ex; [discriminate |].
  intros H Hz Hexact. apply Some_inj in H. subst e. cbn [e_y_top e_y_bottom].
  apply clamp_y_mono.
  rewrite !Hexact by auto.
  apply exact_y_antitone; [apply positive_scale_pos | exact Hz].
Qed.

End SamplerBounds.

(** C8 (amended).  In a valid view every emitted wall has
  [0 <= x1 <= x2 < viewwidth], its four Y values in [0, viewheight - 1] and
  its distance in [0, 999]; every emitted entity has [0 <= x < viewwidth],
  [y_top] and [y_bottom] each in [0, viewheight - 1],
  [height = max 5 (y_bottom - y_top) >= 5] and its distance in [0, 999].
  [y_top <= y_bottom] holds when the sprite's top is not below its bottom
  and both projections are computed without 32-bit wrap-around. *)
Theorem sampler_invariants (v : view_t) (Hv : valid_view v) :
  (forall ds w, Sampler.sample_wall v ds = Some w ->
     0 <= Sampler.w_x1 w <= Sampler.w_x2 w
     /\ Sampler.w_x2 w < viewwidth v
     /\ 0 <= Sampler.w_y1_top w <= viewheight v - 1
     /\ 0 <= Sampler.w_y1_bottom w <= viewheight v - 1
     /\ 0 <= Sampler.w_y2_top w <= viewheight v - 1
     /\ 0 <= Sampler.w_y2_bottom w <= viewheight v - 1
     /\ 0 <= Sampler.w_distance w <= 999)
  /\ (forall vis e, Sampler.sample_sprite v vis = Some e ->
     0 <= Sampler.e_x e < viewwidth v
     /\ 0 <= Sampler.e_y_top e <= viewheight v - 1
     /\ 0 <= Sampler.e_y_bottom e <= viewheight v - 1
     /\ Sampler.e_height e
        = Z.max 5 (Sampler.e_y_bottom e - Sampler.e_y_top e)
     /\ 5 <= Sampler.e_height e
     /\ 0 <= Sampler.e_distance e <= 999
     /\ (gz vis <= gzt vis ->
         (forall h, h = gz vis \/ h = gzt vis ->
            Sampler.project_y v h (Sampler.positive_scale (vis_scale vis))
            = exact_y v h (Sampler.positive_scale (vis_scale vis))) ->
         Sampler.e_y_top e <= Sampler.e_y_bottom e)).
Proof.
  split.
  - intros ds w H. apply (sample_wall_bounds v Hv ds w H).
  - intros vis e H.
    pose proof (sample_sprite_bounds v Hv vis e H) as (A & B & C & D & E & F).
    repeat (split; [assumption |]).
    intros Hz Hex. apply (sample_sprite_ordered v Hv vis e H Hz Hex).
Qed.

Lemma sampler_invariants_witness :
  valid_view (Vectors.view_of [Vectors.wall_10_30] [Vectors.sprite_10_21]
                              Vectors.no_weapon)
  /\ (forall e,
        Sampler.sample_sprite
          (Vectors.view_of [Vectors.wall_10_30] [Vectors.sprite_10_21]
                           Vectors.no_weapon) Vectors.sprite_10_21 = Some e ->
        Sampler.e_y_top e <= Sampler.e_y_bottom e).
Proof.
  assert (Hv : valid_view (Vectors.view_of [Vectors.wall_10_30]
                             [Vectors.sprite_10_21] Vectors.no_weapon)).
  { unfold valid_view, Int32.max_signed. cbn. lia. }
  split; [exact Hv |].
  intros e He.
  destruct (sampler_invariants _ Hv) as [_ Hs].
  destruct (Hs _ _ He) as (_ & _ & _ & _ & _ & _ & Hord).
  apply Hord.
  - cbn. lia.
  - intros h [-> | ->]; vm_compute; reflexivity.
Defined.

(** C8, as stated, fails: a sprite whose top is above its bottom, inside the
  view, is emitted with [y_top = 199] and [y_bottom = 0], because the
  projection of its top wraps around in 32 bits. *)
Lemma entity_y_order_counterexample :
  valid_view (Vectors.view_of [] [Vectors.sprite_overhead] Vectors.no_weapon)
  /\ gz Vectors.sprite_overhead <= gzt Vectors.sprite_overhead
  /\ Sampler.sample_sprite
       (Vectors.view_of [] [Vectors.sprite_overhead] Vectors.no_weapon)
       Vectors.sprite_overhead
     = Some {| Sampler.e_x := 159; Sampler.e_y_top := 199;
               Sampler.e_y_bottom := 0; Sampler.e_height := 5;
               Sampler.e_type := 7; Sampler.e_distance := 0 |}
  /\ ~ (199 <= 0).
Proof.
  split; [| split; [| split]].
  - unfold valid_view, Int32.max_signed. cbn. lia.
  - vm_compute. discriminate.
  - vm_compute. reflexivity.
  - lia.
Qed.

(** The sampler does not compare [gz] with [gzt] either: a record with the
  two swapped is emitted with [y_top] below [y_bottom] on the screen. *)
Lemma entity_inverted_example :
  Sampler.sample_sprite
    (Vectors.view_of [] [Vectors.sprite_inverted] Vectors.no_weapon)
    Vectors.sprite_inverted
  = Some {| Sampler.e_x := 15; Sampler.e_y_top := 100;
            Sampler.e_y_bottom := 50; Sampler.e_height := 5;
            Sampler.e_type := 7; Sampler.e_distance := 508 |}.
Proof. vm_compute. reflexivity. Qed.

(** ** The serializer's buffer *)

Section Buffer.

Import Serializer Calls.

Lemma length_peek mem n : length (peek mem n) = n.
Proof.
  unfold peek. rewrite length_firstn, length_app, repeat_length.
  apply Nat.min_l. lia.
Qed.

Lemma peek_poke mem off bs k :
  (k <= length bs)%nat ->
  peek (poke mem off bs) (off + k) = peek mem off ++ firstn k bs.
Proof.
  intros Hk. unfold poke.
  pose proof (length_peek mem off) as Hl.
  set (p := peek mem off) in *. clearbody p.
  unfold peek.
  replace (off + k - length (p ++ bs ++ skipn (off + length bs) mem))%nat
    with 0%nat by (rewrite !length_app; lia).
  cbn [repeat]. rewrite app_nil_r.
  rewrite firstn_app. replace (off + k - length p)%nat with k by lia.
  rewrite (firstn_all2 p) by lia.
  rewrite firstn_app. replace (k - length bs)%nat with 0%nat by lia.
  cbn [firstn]. rewrite app_nil_r. reflexivity.
Qed.

Lemma length_poke mem off bs :
  length (poke mem off bs) = Nat.max (length mem) (off + length bs).
Proof.
  unfold poke. rewrite !length_app, length_peek, length_skipn. lia.
Qed.

Lemma snprintf_offset st s :
  offset (snprintf st s) = Int32.add (offset st) (Z.of_nat (length s)).
Proof. reflexivity. Qed.

Lemma snprintf_fits st s :
  0 <= offset st ->
  offset st + Z.of_nat (length s) < JSON_BUF_SIZE ->
  snprintf st s
  = {| json_buf := poke (json_buf st) (Z.to_nat (offset st)) (s ++ [x00]);
       offset := offset st + Z.of_nat (length s);
       oob := oob st |}.
Proof.
  intros H0 Hfit. unfold snprintf. cbv zeta.
  assert (HS : JSON_BUF_SIZE = 262144) by reflexivity.
  assert (Hsz : size_sub JSON_BUF_SIZE (offset st) = JSON_BUF_SIZE - offset st).
  { unfold size_sub. apply Z.mod_small. lia. }
  rewrite Hsz.
  assert ((0 <=? offset st) = true) as -> by lia.
  assert ((offset st <=? JSON_BUF_SIZE) = true) as -> by lia.
  cbn [andb].
  assert ((JSON_BUF_SIZE - offset st =? 0) = false) as -> by lia.
  cbn [json_buf oob offset].
  rewrite Z.min_l by lia. rewrite Nat2Z.id, firstn_all.
  unfold Int32.add. rewrite wrap_small by lia. reflexivity.
Qed.

Lemma total_cons s calls :
  total (s :: calls) = Z.of_nat (length s) + total calls.
Proof. unfold total. cbn [concat]. rewrite length_app. lia. Qed.

Lemma total_app c1 c2 : total (c1 ++ c2) = total c1 + total c2.
Proof. unfold total. rewrite concat_app, length_app. lia. Qed.

Lemma total_nonneg calls : 0 <= total calls.
Proof. unfold total. lia. Qed.

(** While the texts fit, the buffer holds them back to back, closed by a
  zero byte, and nothing is aimed outside the array. *)
Lemma run_fits calls : forall st,
  0 <= offset st ->
  offset st + total calls < JSON_BUF_SIZE ->
  let st' := fold_left snprintf calls st in
  offset st' = offset st + total calls
  /\ peek (json_buf st') (Z.to_nat (offset st'))
     = peek (json_buf st) (Z.to_nat (offset st)) ++ concat calls
  /\ oob st' = oob st
  /\ (length (json_buf st')
      <= Nat.max (length (json_buf st)) (Z.to_nat (offset st') + 1))%nat.
Proof.
  induction calls as [| s calls IH]; intros st H0 Hfit; cbn [fold_left].
  - cbv zeta. unfold total. cbn. rewrite app_nil_r.
    split; [lia |]. split; [reflexivity |]. split; [reflexivity | lia].
  - rewrite total_cons in Hfit. pose proof (total_nonneg calls) as Hn.
    rewrite snprintf_fits; [| lia | lia].
    set (st1 := {| json_buf := _; offset := _; oob := _ |}).
    specialize (IH st1).
    destruct IH as (I1 & I2 & I3 & I4); [unfold st1; cbn [offset]; lia .. |].
    cbv zeta. rewrite total_cons.
    set (st2 := fold_left snprintf calls st1) in *. clearbody st2.
    unfold st1 in *. cbn [json_buf offset oob] in *. clear st1.
    split; [lia |].
    split; [| split; [exact I3 |]].
    + rewrite I2.
      rewrite Z2Nat.inj_add by lia. rewrite Nat2Z.id.
      rewrite peek_poke by (rewrite length_app; lia).
      rewrite firstn_app, Nat.sub_diag, firstn_all. cbn [firstn concat].
      rewrite app_nil_r, app_assoc. reflexivity.
    + etransitivity; [exact I4 |].
      rewrite length_poke, length_app. cbn [length].
      rewrite I1. rewrite !Z2Nat.inj_add by lia. rewrite Nat2Z.id. lia.
Qed.

Lemma wall_loop_calls v dsl : forall wall_output st,
  wall_loop v dsl wall_output st
  = fold_left snprintf (wall_calls v dsl wall_output) st.
Proof.
  induction dsl as [| ds rest IH]; intros wo st; cbn [wall_loop wall_calls].
  - reflexivity.
  - destruct (Sampler.sample_wall v ds) as [w |]; [| apply IH].
    rewrite IH. destruct (wo >? 0); reflexivity.
Qed.

Lemma sprite_loop_calls v vl : forall i st,
  sprite_loop v vl i st = fold_left snprintf (sprite_calls v vl i) st.
Proof.
  induction vl as [| vis rest IH]; intros i st; cbn [sprite_loop sprite_calls].
  - reflexivity.
  - destruct (Sampler.sample_sprite v vis) as [e |]; [| apply IH].
    rewrite IH. destruct (i >? 0); reflexivity.
Qed.

Lemma extract_calls M1 M2 v fc buf :
  extract_vectors_to_json M1 M2 v fc buf
  = fold_left snprintf (frame_calls M1 M2 v fc)
              {| json_buf := buf; offset := 0; oob := false |}.
Proof.
  unfold extract_vectors_to_json, frame_calls. cbv zeta.
  cbn [fold_left]. rewrite wall_loop_calls, sprite_loop_calls.
  rewrite fold_left_app. cbn [fold_left]. rewrite fold_left_app.
  reflexivity.
Qed.

End Buffer.

(** ** Length of a frame *)

(** Replace the length of every literal text by its value. *)
Ltac text_lengths :=
  repeat match goal with
         | |- context [length (Fmt.text ?s)] =>
           let n := eval vm_compute in (length (Fmt.text s)) in
           change (length (Fmt.text s)) with n
         end.

Section FrameLength.

Import Sampler Serializer Calls.

Lemma dec_length fuel : forall n, (length (Fmt.dec fuel n) <= fuel)%nat.
Proof.
  induction fuel as [| f IH]; intros n; cbn [Fmt.dec].
  - cbn. lia.
  - destruct (n <? 10).
    + cbn. lia.
    + rewrite length_app. specialize (IH (n / 10)). cbn [length]. lia.
Qed.

Lemma dec_nonempty fuel n : (1 <= length (Fmt.dec (S fuel) n))%nat.
Proof.
  cbn [Fmt.dec]. destruct (n <? 10).
  - cbn. lia.
  - rewrite length_app. cbn [length]. lia.
Qed.

Lemma fmt_d_length z : (1 <= length (Fmt.fmt_d z) <= 11)%nat.
Proof.
  unfold Fmt.fmt_d. cbv zeta. destruct (Int32.wrap z <? 0).
  - pose proof (dec_length 10 (- Int32.wrap z)). cbn [length]. lia.
  - pose proof (dec_length 10 (Int32.wrap z)).
    pose proof (dec_nonempty 9 (Int32.wrap z)). lia.
Qed.








End FrameLength.

(** ** When the document is JSON *)

Section DocumentSyntax.

Import Sampler Serializer Calls.

Lemma run_app st a b : Json.run st (a ++ b) = Json.run (Json.run st a) b.
Proof. apply fold_left_app. Qed.

Lemma run_bad s : forall stack, fst (Json.run (Json.Bad, stack) s) = Json.Bad.
Proof.
  induction s as [| b s IH]; intros stack; [reflexivity |]. apply IH.
Qed.

Lemma run_from_bad st s : fst st = Json.Bad -> fst (Json.run st s) = Json.Bad.
Proof. destruct st as [m stack]. cbn. intros ->. apply run_bad. Qed.

Lemma bad_not_accepting st : fst st = Json.Bad -> Json.accepting st = false.
Proof. destruct st as [m stack]. cbn. intros ->. reflexivity. Qed.

Lemma digit19_step m stack d :
  1 <= d < 10 ->
  Json.value_start m \/ m = Json.NumMinus \/ m = Json.NumInt ->
  Json.step (m, stack) (Fmt.digit d) = (Json.NumInt, stack).
Proof.
  intros Hd Hm.
  assert (d = 1 \/ d = 2 \/ d = 3 \/ d = 4 \/ d = 5 \/ d = 6 \/ d = 7
          \/ d = 8 \/ d = 9) as Hc by lia.
  destruct Hm as [[-> | ->] | [-> | ->]];
    repeat (destruct Hc as [-> | Hc]; [reflexivity |]); subst; reflexivity.
Qed.

Lemma digit_step stack d :
  0 <= d < 10 ->
  Json.step (Json.NumInt, stack) (Fmt.digit d) = (Json.NumInt, stack).
Proof.
  intros Hd.
  assert (d = 0 \/ d = 1 \/ d = 2 \/ d = 3 \/ d = 4 \/ d = 5 \/ d = 6
          \/ d = 7 \/ d = 8 \/ d = 9) as Hc by lia.
  repeat (destruct Hc as [-> | Hc]; [reflexivity |]); subst; reflexivity.
Qed.

(** The digits of a positive number form a JSON integer: no leading zero. *)
Lemma run_dec_pos fuel : forall n m stack,
  1 <= n < 10 ^ Z.of_nat fuel ->
  Json.value_start m \/ m = Json.NumMinus \/ m = Json.NumInt ->
  Json.run (m, stack) (Fmt.dec fuel n) = (Json.NumInt, stack).
Proof.
  induction fuel as [| f IH]; intros n m stack Hn Hm.
  - change (10 ^ Z.of_nat 0) with 1 in Hn. lia.
  - cbn [Fmt.dec]. destruct (n <? 10) eqn:E.
    + cbn [Json.run fold_left]. apply digit19_step; [lia | exact Hm].
    + rewrite Nat2Z.inj_succ, Z.pow_succ_r in Hn by lia.
      rewrite run_app, IH.
      * cbn [Json.run fold_left]. apply digit_step.
        apply Z.mod_pos_bound. lia.
      * split; [apply Z.div_le_lower_bound; lia |].
        apply Z.div_lt_upper_bound; lia.
      * exact Hm.
Qed.

Lemma run_fmt_d z m stack :
  Json.value_start m ->
  exists m', Json.run (m, stack) (Fmt.fmt_d z) = (m', stack)
             /\ Json.number_done m'.
Proof.
  intros Hm. unfold Fmt.fmt_d. cbv zeta.
  pose proof (wrap_range z) as Hr.
  unfold Int32.in_range, Int32.min_signed, Int32.max_signed in Hr.
  set (w := Int32.wrap z) in *. clearbody w.
  destruct (w <? 0) eqn:E.
  - exists Json.NumInt. split; [| right; reflexivity].
    change (Json.run (m, stack) (x2d :: Fmt.dec 10 (- w)))
      with (Json.run (Json.step (m, stack) x2d) (Fmt.dec 10 (- w))).
    assert (Json.step (m, stack) x2d = (Json.NumMinus, stack)) as ->
      by (destruct Hm as [-> | ->]; reflexivity).
    apply run_dec_pos; [| auto].
    change (10 ^ Z.of_nat 10) with 10000000000. lia.
  - destruct (Z.eq_dec w 0) as [-> | Hnz].
    + exists Json.NumZero. split; [| left; reflexivity].
      destruct Hm as [-> | ->]; reflexivity.
    + exists Json.NumInt. split; [| right; reflexivity].
      apply run_dec_pos; [| left; exact Hm].
      change (10 ^ Z.of_nat 10) with 10000000000. lia.
Qed.

(** A number followed by a comma or a closing bracket or brace. *)
Lemma run_fmt_d_then z m stack b rest :
  Json.value_start m ->
  b = x2c \/ b = x5d \/ b = x7d ->
  Json.run (m, stack) (Fmt.fmt_d z ++ b :: rest)
  = Json.run (Json.after_value b stack) rest.
Proof.
  intros Hm Hb. rewrite run_app.
  destruct (run_fmt_d z m stack Hm) as (m' & -> & Hd).
  cbn [Json.run fold_left]. f_equal.
  destruct Hd as [-> | ->]; destruct Hb as [-> | [-> | ->]]; reflexivity.
Qed.

Ltac run_text :=
  rewrite run_app;
  match goal with
  | |- context [Json.run ?st (Fmt.text ?s)] =>
    let r := eval vm_compute in (Json.run st (Fmt.text s)) in
    change (Json.run st (Fmt.text s)) with r
  end.

Lemma after_comma_arr stack :
  Json.after_value x2c (Json.Arr :: stack) = (Json.Val, Json.Arr :: stack).
Proof. reflexivity. Qed.

Lemma after_comma_obj stack :
  Json.after_value x2c (Json.Obj :: stack) = (Json.Key, Json.Obj :: stack).
Proof. reflexivity. Qed.

Lemma run_fmt_wall w m stack :
  Json.value_start m ->
  Json.run (m, Json.Arr :: stack) (fmt_wall w)
  = (Json.After, Json.Arr :: stack).
Proof.
  intros Hm. unfold fmt_wall, comma.
  change (Fmt.text "[") with [x5b]. change (Fmt.text ",") with [x2c].
  change (Fmt.text "]") with [x5d]. cbn [app].
  change (Json.run (m, Json.Arr :: stack) (x5b :: ?l))
    with (Json.run (Json.step (m, Json.Arr :: stack) x5b) l).
  assert (Json.step (m, Json.Arr :: stack) x5b
          = (Json.ValOrEnd, Json.Arr :: Json.Arr :: stack)) as ->
    by (destruct Hm as [-> | ->]; reflexivity).
  rewrite run_fmt_d_then, after_comma_arr by (unfold Json.value_start; auto).
  do 6 (rewrite run_fmt_d_then, after_comma_arr
          by (unfold Json.value_start; auto)).
  rewrite run_fmt_d_then by (unfold Json.value_start; auto).
  reflexivity.
Qed.

Lemma run_fmt_entity e m stack :
  Json.value_start m ->
  Json.run (m, Json.Arr :: stack) (fmt_entity e)
  = (Json.After, Json.Arr :: stack).
Proof.
  intros Hm. unfold fmt_entity.
  change (Fmt.text ",'y_top':") with (x2c :: Fmt.text "'y_top':").
  change (Fmt.text ",'y_bottom':") with (x2c :: Fmt.text "'y_bottom':").
  change (Fmt.text ",'height':") with (x2c :: Fmt.text "'height':").
  change (Fmt.text ",'type':") with (x2c :: Fmt.text "'type':").
  change (Fmt.text ",'distance':") with (x2c :: Fmt.text "'distance':").
  change (Fmt.text "}") with [x7d]. cbn [app].
  assert (Hopen : Json.run (m, Json.Arr :: stack) (Fmt.text "{'x':")
                  = (Json.Val, Json.Obj :: Json.Arr :: stack))
    by (destruct Hm as [-> | ->]; reflexivity).
  rewrite run_app, Hopen.
  do 5 (rewrite run_fmt_d_then, after_comma_obj
          by (unfold Json.value_start; auto);
        run_text).
  rewrite run_fmt_d_then by (unfold Json.value_start; auto).
  reflexivity.
Qed.

Lemma run_fmt_weapon wp stack :
  Json.run (Json.Val, Json.Obj :: stack) (fmt_weapon wp)
  = (Json.After, Json.Obj :: stack).
Proof.
  destruct wp as [[wx wy] |]; cbn [fmt_weapon]; [| reflexivity].
  change (Fmt.text ",'y':") with (x2c :: Fmt.text "'y':").
  change (Fmt.text ",'visible':true}")
    with (x2c :: Fmt.text "'visible':true}").
  cbn [app]. run_text.
  rewrite run_fmt_d_then, after_comma_obj by (unfold Json.value_start; auto).
  run_text.
  rewrite run_fmt_d_then, after_comma_obj by (unfold Json.value_start; auto).
  reflexivity.
Qed.

(** The wall loop: nothing written while [wall_output] is 0, complete
  elements separated by commas afterwards. *)
Lemma run_wall_calls v stack dsl : forall wall_output m,
  (wall_output = 0 /\ m = Json.ValOrEnd)
  \/ (0 < wall_output /\ m = Json.After) ->
  wall_output + Z.of_nat (length dsl) < 2 ^ 31 ->
  exists m',
    Json.run (m, Json.Arr :: stack) (concat (wall_calls v dsl wall_output))
    = (m', Json.Arr :: stack)
    /\ (m' = Json.ValOrEnd \/ m' = Json.After).
Proof.
  induction dsl as [| ds rest IH]; intros wo m Hinv Hlen;
    cbn [wall_calls concat length] in *.
  - exists m. split; [reflexivity |]. destruct Hinv as [[_ ->] | [_ ->]]; auto.
  - destruct (sample_wall v ds) as [w |].
    2:{ apply IH; [exact Hinv | lia]. }
    assert (Hadd : Int32.add wo 1 = wo + 1).
    { unfold Int32.add. apply wrap_small.
      destruct Hinv as [[-> _] | [H _]]; lia. }
    rewrite Hadd, concat_app. cbn [concat]. rewrite run_app.
    assert (Hsep : Json.run (m, Json.Arr :: stack)
                     (concat (if wo >? 0 then [comma] else []))
                   = ((if wo >? 0 then Json.Val else Json.ValOrEnd),
                      Json.Arr :: stack)).
    { destruct Hinv as [[-> ->] | [H ->]]; [reflexivity |].
      assert ((wo >? 0) = true) as -> by lia. reflexivity. }
    rewrite Hsep, run_app, run_fmt_wall
      by (unfold Json.value_start; destruct (wo >? 0); auto).
    apply IH; [right; split; [| reflexivity] | lia].
    destruct Hinv as [[-> _] | [H _]]; lia.
Qed.

(** The sprite loop once an entity has been written. *)
Lemma run_sprite_calls_after v stack vl : forall i,
  0 < i ->
  Json.run (Json.After, Json.Arr :: stack) (concat (sprite_calls v vl i))
  = (Json.After, Json.Arr :: stack).
Proof.
  induction vl as [| vis rest IH]; intros i Hi; cbn [sprite_calls concat].
  - reflexivity.
  - destruct (sample_sprite v vis) as [e |]; [| apply IH; lia].
    assert ((i >? 0) = true) as -> by lia.
    cbn [app concat]. rewrite run_app.
    change (Json.run (Json.After, Json.Arr :: stack) comma)
      with (Json.Val, Json.Arr :: stack).
    rewrite run_app, run_fmt_entity by (unfold Json.value_start; auto).
    apply IH. lia.
Qed.

(** The sprite loop past index 0 with nothing written yet: the first
  entity that is emitted comes with a comma in front. *)
Lemma run_sprite_calls_late v stack vl : forall i,
  0 < i ->
  let st := Json.run (Json.ValOrEnd, Json.Arr :: stack)
                     (concat (sprite_calls v vl i)) in
  if forallb (fun s => negb (accepted v s)) vl
  then st = (Json.ValOrEnd, Json.Arr :: stack)
  else fst st = Json.Bad.
Proof.
  induction vl as [| vis rest IH]; intros i Hi;
    cbn [sprite_calls concat forallb]; cbv zeta.
  - reflexivity.
  - unfold accepted at 1.
    destruct (sample_sprite v vis) as [e |]; cbn [negb andb].
    + assert ((i >? 0) = true) as -> by lia.
      cbn [app concat]. rewrite run_app.
      change (Json.run (Json.ValOrEnd, Json.Arr :: stack) comma)
        with (Json.Bad, Json.Arr :: stack).
      apply run_from_bad. reflexivity.
    + apply (IH (i + 1)). lia.
Qed.

Lemma run_sprite_calls v stack vl :
  let st := Json.run (Json.ValOrEnd, Json.Arr :: stack)
                     (concat (sprite_calls v vl 0)) in
  if separators_agree v vl
  then snd st = Json.Arr :: stack
       /\ (fst st = Json.ValOrEnd \/ fst st = Json.After)
  else fst st = Json.Bad.
Proof.
  cbv zeta. destruct vl as [| vis rest]; cbn [sprite_calls separators_agree].
  - cbn. auto.
  - unfold accepted at 1.
    destruct (sample_sprite v vis) as [e |]; cbn [orb].
    + cbn [Z.gtb Z.compare app concat].
      rewrite run_app, run_fmt_entity by (unfold Json.value_start; auto).
      rewrite run_sprite_calls_after by lia. cbn. auto.
    + pose proof (run_sprite_calls_late v stack rest 1 ltac:(lia)) as H.
      cbv zeta in H. change (0 + 1) with 1.
      destruct (forallb _ rest); [rewrite H; cbn; auto | exact H].
Qed.

(** The complete document of a frame is JSON exactly when the sprite
  loop's separators agree with what it emits. *)
Lemma frame_text_valid MAXDRAWSEGS MAXVISSPRITES v g_frame_count :
  Z.of_nat MAXDRAWSEGS < 2 ^ 31 ->
  Json.valid (frame_text MAXDRAWSEGS MAXVISSPRITES v g_frame_count)
  = separators_agree v (firstn MAXVISSPRITES (vissprites v)).
Proof.
  intros Hmax. unfold Json.valid, frame_text, frame_calls.
  cbn [concat]. rewrite concat_app. cbn [concat]. rewrite concat_app.
  cbn [concat]. rewrite app_nil_r.
  change (Fmt.text ",'walls':[") with (x2c :: Fmt.text "'walls':[").
  rewrite <- !app_assoc. cbn [app].
  run_text. rewrite run_fmt_d_then, after_comma_obj
    by (unfold Json.value_start; auto).
  run_text.
  destruct (run_wall_calls v [Json.Obj]
              (firstn MAXDRAWSEGS (drawsegs v)) 0 Json.ValOrEnd)
    as (m1 & Hw & Hm1); [auto | |].
  { pose proof (firstn_le_length MAXDRAWSEGS (drawsegs v)). lia. }
  rewrite run_app, Hw.
  assert (Hent : Json.run (m1, [Json.Arr; Json.Obj])
                   (Fmt.text "],'entities':[")
                 = (Json.ValOrEnd, [Json.Arr; Json.Obj]))
    by (destruct Hm1 as [-> | ->]; reflexivity).
  rewrite run_app, Hent, run_app.
  pose proof (run_sprite_calls v [Json.Obj]
                (firstn MAXVISSPRITES (vissprites v))) as Hs.
  cbv zeta in Hs.
  set (st2 := Json.run (Json.ValOrEnd, [Json.Arr; Json.Obj])
                (concat (sprite_calls v _ 0))) in *.
  clearbody st2. destruct st2 as [m2 s2].
  destruct (separators_agree v _); cbn [fst snd] in Hs.
  - destruct Hs as [-> Hm2].
    assert (Hwp : Json.run (m2, [Json.Arr; Json.Obj])
                    (Fmt.text "],'weapon':")
                  = (Json.Val, [Json.Obj]))
      by (destruct Hm2 as [-> | ->]; reflexivity).
    rewrite run_app, Hwp, run_app, run_fmt_weapon. reflexivity.
  - subst m2. apply bad_not_accepting. apply run_from_bad. reflexivity.
Qed.

End DocumentSyntax.

(** ** The serialized frame *)

Section SerializedFrame.

Import Serializer Calls.

(** A frame whose complete text is shorter than the array is stored in
  full, by writes that all land inside the array. *)
Lemma extract_fits (MAXDRAWSEGS MAXVISSPRITES : nat) (v : view_t)
  (g_frame_count : Z) (buf : list byte) :
  let st := extract_vectors_to_json MAXDRAWSEGS MAXVISSPRITES v
              g_frame_count buf in
  let text := frame_text MAXDRAWSEGS MAXVISSPRITES v g_frame_count in
  Z.of_nat (length text) < JSON_BUF_SIZE ->
  document st = text
  /\ offset st = Z.of_nat (length text)
  /\ oob st = false
  /\ (Z.of_nat (length buf) <= JSON_BUF_SIZE ->
      Z.of_nat (length (json_buf st)) <= JSON_BUF_SIZE).
Proof.
  cbv zeta. rewrite extract_calls.
  set (st0 := {| json_buf := buf; offset := 0; oob := false |}).
  change (Z.of_nat (length (frame_text MAXDRAWSEGS MAXVISSPRITES v
                              g_frame_count)))
    with (total (frame_calls MAXDRAWSEGS MAXVISSPRITES v g_frame_count)).
  unfold frame_text.
  set (calls := frame_calls MAXDRAWSEGS MAXVISSPRITES v g_frame_count).
  intros Hfit.
  destruct (run_fits calls st0) as (I1 & I2 & I3 & I4);
    [cbn [offset st0]; lia .. |].
  cbn [offset json_buf oob st0] in *.
  split; [| split; [lia | split; [exact I3 |]]].
  - unfold document. rewrite I2. reflexivity.
  - intros Hbuf. pose proof (total_nonneg calls). rewrite I1 in I4. lia.
Qed.



(** For a frame that fits the array, the document handed to the transport
  is JSON exactly when the first vissprite considered is emitted or none
  is. *)
Lemma document_valid_exactly_when (MAXDRAWSEGS MAXVISSPRITES : nat)
  (v : view_t) (g_frame_count : Z) (buf : list byte) :
  Z.of_nat MAXDRAWSEGS < 2 ^ 31 ->
  Z.of_nat (length (frame_text MAXDRAWSEGS MAXVISSPRITES v g_frame_count))
  < JSON_BUF_SIZE ->
  Json.valid (document (extract_vectors_to_json MAXDRAWSEGS MAXVISSPRITES v
                          g_frame_count buf))
  = separators_agree v (firstn MAXVISSPRITES (vissprites v)).
Proof.
  intros Hmax Hfit.
  destruct (extract_fits MAXDRAWSEGS MAXVISSPRITES v g_frame_count buf Hfit)
    as (-> & _).
  apply frame_text_valid. exact Hmax.
Qed.

(** C1 at the failing input: the first vissprite is off the right edge and
  the second is on screen.  The document fits the array, and its entities
  array opens with a comma, so it is not JSON; the same pattern in the
  wall loop, which counts emitted walls, gives a valid document. *)
Theorem entities_separator_after_rejected_sprite :
  let v := Vectors.view_of [Vectors.wall_10_30]
             [Vectors.sprite_offscreen; Vectors.sprite_10_21]
             Vectors.no_weapon in
  let st := extract_vectors_to_json 256 128 v 7 [] in
  Sampler.sample_sprite v Vectors.sprite_offscreen = None
  /\ document st
     = Fmt.text
         (String.append
            "{'frame':7,'walls':[[10,13,141,30,13,141,508,3]],'entities':[,"
            (String.append
               "{'x':15,'y_top':85,'y_bottom':141,'height':56,'type':7,"
               "'distance':508}],'weapon':{'visible':false}}"))
  /\ oob st = false
  /\ Json.valid (document st) = false.
Proof.
  cbv zeta. split; [| split; [| split]]; vm_compute; reflexivity.
Qed.

(** With the two sprites in the other order the document is JSON. *)
Lemma entities_separator_when_first_accepted :
  let v := Vectors.view_of [Vectors.wall_10_30]
             [Vectors.sprite_10_21; Vectors.sprite_offscreen;
              Vectors.sprite_10_21]
             Vectors.no_weapon in
  Json.valid (document (extract_vectors_to_json 256 128 v 7 [])) = true.
Proof. vm_compute. reflexivity. Qed.

(** A rejected leading draw-segment leaves no stray comma in [walls]. *)
Lemma walls_separator_after_rejected_wall :
  let rejected :=
    {| curline := None; ds_x1 := 0; ds_x2 := 5; scale1 := 1; scale2 := 1;
       silhouette := 0 |} in
  let v := Vectors.view_of [rejected; Vectors.wall_10_30; Vectors.wall_10_30]
             [] Vectors.no_weapon in
  Sampler.sample_wall v rejected = None
  /\ Json.valid (document (extract_vectors_to_json 256 128 v 7 [])) = true.
Proof. vm_compute. split; reflexivity. Qed.

End SerializedFrame.

(** ** The kernel model *)

Section KernelFacts.

Import Kernel DoomSocket Wire.

Lemma set_rx_same k : set_rx k (rx k) = k.
Proof. destruct k. reflexivity. Qed.

Lemma set_rx_twice k a b : set_rx (set_rx k a) b = set_rx k b.
Proof. reflexivity. Qed.

Lemma is_open_set_rx k r fd : is_open (set_rx k r) fd = is_open k fd.
Proof. reflexivity. Qed.

Lemma Z_of_byte_range b : 0 <= Z_of_byte b < 256.
Proof.
  unfold Z_of_byte. pose proof (Byte.to_N_bounded b) as H.
  apply N2Z.inj_le in H. change (Z.of_N 255) with 255 in H. lia.
Qed.

Lemma Z_of_byte_of_Z z : Z_of_byte (byte_of_Z z) = z mod 256.
Proof.
  unfold Z_of_byte, byte_of_Z.
  pose proof (Z.mod_pos_bound z 256 ltac:(lia)) as Hm.
  destruct (Byte.of_N (Z.to_N (z mod 256))) as [b |] eqn:E.
  - apply Byte.to_of_N in E. rewrite E. rewrite Z2N.id; lia.
  - apply Byte.of_N_None_iff in E.
    apply N2Z.inj_lt in E. rewrite Z2N.id in E by lia.
    change (Z.of_N 255) with 255 in E. lia.
Qed.

Lemma u32_of_bytes_of_u32 z :
  0 <= z < 2 ^ 32 -> u32_of_bytes (bytes_of_u32 z) = z.
Proof.
  intros Hz. unfold bytes_of_u32. cbn [u32_of_bytes].
  rewrite !Z_of_byte_of_Z. rewrite !Z.shiftr_div_pow2 by lia.
  change (2 ^ 8) with 256. change (2 ^ 16) with 65536.
  change (2 ^ 24) with 16777216. change (2 ^ 32) with 4294967296 in Hz.
  Z.div_mod_to_equations. lia.
Qed.

Lemma length_bytes_of_u32 z : length (bytes_of_u32 z) = 4%nat.
Proof. reflexivity. Qed.

End KernelFacts.

(** ** Exact reads and writes *)

Section ExactIO.

Import Kernel DoomSocket Wire.

Lemma recv_loop_eq fuel k fd n total_read buf :
  recv_loop fuel k fd n total_read buf
  = if (n <=? total_read)%nat then Done 0 buf k
    else
      match fuel with
      | O => Hang
      | S fuel' =>
        match sys_read k fd (n - total_read) with
        | Blocks => Hang
        | Returned bytes_read data k' =>
          if bytes_read <=? 0 then Done (-1) buf k'
          else recv_loop fuel' k' fd n (total_read + Z.to_nat bytes_read)
                         (buf ++ data)
        end
      end.
Proof. destruct fuel; reflexivity. Qed.

Lemma sys_read_only_rx k fd n ret data k' :
  sys_read k fd n = Returned ret data k' -> exists r, k' = set_rx k r.
Proof.
  unfold sys_read. destruct (negb (is_open k fd)).
  - intros [= _ _ <-]. exists (rx k). symmetry. apply set_rx_same.
  - destruct (rx k) as [| [bs | | e] rest] eqn:E; [discriminate | | |].
    + destruct (length bs <=? n)%nat; intros [= _ _ <-]; eauto.
    + intros [= _ _ <-]. exists (rx k). symmetry. apply set_rx_same.
    + intros [= _ _ <-]. eauto.
Qed.

(** A receive touches nothing but the inbound stream. *)
Lemma recv_loop_only_rx fuel : forall k fd n total_read buf ret out k',
  recv_loop fuel k fd n total_read buf = Done ret out k' ->
  (ret = 0 \/ ret = -1) /\ exists r, k' = set_rx k r.
Proof.
  induction fuel as [| f IH]; intros k fd n t buf ret out k';
    rewrite recv_loop_eq; destruct (n <=? t)%nat.
  - intros [= <- _ <-]. split; [auto |].
    exists (rx k). symmetry. apply set_rx_same.
  - discriminate.
  - intros [= <- _ <-]. split; [auto |].
    exists (rx k). symmetry. apply set_rx_same.
  - destruct (sys_read k fd (n - t)) as [br data k1 |] eqn:E; [| discriminate].
    apply sys_read_only_rx in E. destruct E as (r1 & ->).
    destruct (br <=? 0).
    + intros [= <- _ <-]. split; [auto |]. eauto.
    + intros H. apply IH in H. destruct H as (Hr & r2 & ->).
      split; [exact Hr |]. exists r2. reflexivity.
Qed.

(** The bound on the rounds is never what stops the loop: any two bounds
  that cover the bytes still missing give the same outcome. *)
Lemma recv_loop_fuel fuel1 : forall fuel2 k fd n total_read buf,
  (n - total_read <= fuel1)%nat -> (n - total_read <= fuel2)%nat ->
  recv_loop fuel1 k fd n total_read buf = recv_loop fuel2 k fd n total_read buf.
Proof.
  induction fuel1 as [| f1 IH]; intros fuel2 k fd n t buf H1 H2;
    rewrite (recv_loop_eq _ k), (recv_loop_eq fuel2 k);
    destruct (n <=? t)%nat eqn:E; try reflexivity;
    apply Nat.leb_gt in E; [lia |].
  destruct fuel2 as [| f2]; [lia |].
  destruct (sys_read k fd (n - t)) as [br data k1 |]; [| reflexivity].
  destruct (br <=? 0) eqn:Eb; [reflexivity |].
  apply Z.leb_gt in Eb. apply IH; lia.
Qed.

Lemma recv_exactly_only_rx k fd n ret out k' :
  recv_exactly k fd n = Done ret out k' ->
  (ret = 0 \/ ret = -1) /\ exists r, k' = set_rx k r.
Proof. apply recv_loop_only_rx. Qed.

(** Short reads: whatever the segmentation, the loop gathers exactly the
  bytes asked for and leaves the others in the stream. *)
Lemma recv_loop_carries fd rest segs :
  forall fuel k n total_read buf,
  is_open k fd = true ->
  rx k = map RdData segs ++ rest ->
  Forall (fun s => s <> []) segs ->
  (total_read <= n)%nat ->
  (n - total_read <= fuel)%nat ->
  (n - total_read <= length (concat segs))%nat ->
  exists segs',
    recv_loop fuel k fd n total_read buf
    = Done 0 (buf ++ firstn (n - total_read) (concat segs))
           (set_rx k (map RdData segs' ++ rest))
    /\ Forall (fun s => s <> []) segs'
    /\ concat segs' = skipn (n - total_read) (concat segs).
Proof.
  induction segs as [| seg segs1 IH];
    intros fuel k n t buf Hopen Hrx Hne Ht Hfuel Hlen;
    rewrite recv_loop_eq; destruct (n <=? t)%nat eqn:Ent.
  - apply Nat.leb_le in Ent. replace (n - t)%nat with 0%nat by lia.
    exists []. cbn. rewrite app_nil_r. cbn in Hrx. rewrite <- Hrx, set_rx_same.
    auto.
  - apply Nat.leb_gt in Ent. cbn in Hlen. lia.
  - apply Nat.leb_le in Ent. replace (n - t)%nat with 0%nat by lia.
    exists (seg :: segs1). cbn [firstn skipn]. rewrite app_nil_r.
    rewrite <- Hrx, set_rx_same. auto.
  - apply Nat.leb_gt in Ent.
    destruct fuel as [| f]; [lia |].
    inversion Hne as [| ? ? Hseg Hne1]; subst.
    assert (Hpos : (0 < length seg)%nat)
      by (destruct seg; [congruence | cbn; lia]).
    unfold sys_read. rewrite Hopen. cbn [negb]. rewrite Hrx. cbn [map app].
    cbn [concat] in *. rewrite length_app in Hlen.
    destruct (length seg <=? n - t)%nat eqn:Eseg.
    + apply Nat.leb_le in Eseg.
      assert ((Z.of_nat (length seg) <=? 0) = false) as -> by lia.
      rewrite Nat2Z.id.
      destruct (IH f (set_rx k (map RdData segs1 ++ rest)) n
                   (t + length seg)%nat (buf ++ seg))
        as (segs' & Hrun & Hne' & Hcat); try assumption; try reflexivity;
        try lia.
      exists segs'. rewrite Hrun. split; [| split; [assumption |]].
      * rewrite set_rx_twice. f_equal.
        rewrite firstn_app, (firstn_all2 seg) by lia.
        rewrite <- app_assoc.
        replace (n - (t + length seg))%nat with (n - t - length seg)%nat by lia.
        reflexivity.
      * rewrite Hcat. rewrite skipn_app, (skipn_all2 seg) by lia.
        cbn [app].
        replace (n - (t + length seg))%nat with (n - t - length seg)%nat by lia.
        reflexivity.
    + apply Nat.leb_gt in Eseg.
      assert ((Z.of_nat (n - t) <=? 0) = false) as ->
        by (apply Z.leb_gt; lia).
      rewrite Nat2Z.id. rewrite recv_loop_eq.
      assert ((n <=? t + (n - t))%nat = true) as -> by (apply Nat.leb_le; lia).
      exists (skipn (n - t) seg :: segs1).
      split; [| split].
      * f_equal. f_equal. rewrite firstn_app.
        replace (n - t - length seg)%nat with 0%nat by lia.
        cbn [firstn]. rewrite app_nil_r. reflexivity.
      * constructor; [| assumption].
        intros Hnil. apply (f_equal (@length byte)) in Hnil.
        rewrite length_skipn in Hnil. cbn in Hnil. lia.
      * cbn [concat]. rewrite skipn_app.
        replace (n - t - length seg)%nat with 0%nat by lia. reflexivity.
Qed.

Lemma carries_nil r rest : carries r [] rest -> r = rest.
Proof.
  intros (segs & -> & Hne & Hcat).
  destruct segs as [| seg segs1]; [reflexivity |].
  inversion Hne as [| ? ? Hseg _]; subst.
  destruct seg; [congruence | discriminate].
Qed.

Lemma recv_exactly_carries k fd a b rest :
  is_open k fd = true ->
  carries (rx k) (a ++ b) rest ->
  exists r, recv_exactly k fd (length a) = Done 0 a (set_rx k r)
            /\ carries r b rest.
Proof.
  intros Hopen (segs & Hrx & Hne & Hcat). unfold recv_exactly.
  destruct (recv_loop_carries fd rest segs (length a) k (length a) 0 [])
    as (segs' & Hrun & Hne' & Hcat'); try assumption; try lia.
  { rewrite Hcat, length_app. lia. }
  rewrite Nat.sub_0_r in *. rewrite Hcat in *.
  rewrite firstn_app, Nat.sub_diag, firstn_all in Hrun.
  cbn [firstn app] in Hrun. rewrite app_nil_r in Hrun.
  rewrite skipn_app, Nat.sub_diag, skipn_all in Hcat'. cbn in Hcat'.
  exists (map RdData segs' ++ rest). split; [exact Hrun |].
  exists segs'. auto.
Qed.

(** The stream ends, or fails, before the bytes asked for are there. *)
Lemma recv_loop_short fd ev rest segs :
  (ev = RdEof \/ exists e, ev = RdErr e) ->
  forall fuel k n total_read buf,
  is_open k fd = true ->
  rx k = map RdData segs ++ ev :: rest ->
  Forall (fun s => s <> []) segs ->
  (n - total_read <= fuel)%nat ->
  (length (concat segs) < n - total_read)%nat ->
  exists k', recv_loop fuel k fd n total_read buf
             = Done (-1) (buf ++ concat segs) k'.
Proof.
  intros Hev.
  induction segs as [| seg segs1 IH];
    intros fuel k n t buf Hopen Hrx Hne Hfuel Hlen;
    rewrite recv_loop_eq;
    (assert ((n <=? t)%nat = false) as -> by (apply Nat.leb_gt; lia));
    (destruct fuel as [| f]; [lia |]);
    unfold sys_read; rewrite Hopen; cbn [negb]; rewrite Hrx; cbn [map app].
  - cbn [concat]. rewrite app_nil_r.
    destruct Hev as [-> | (e & ->)]; cbn; eauto.
  - inversion Hne as [| ? ? Hseg Hne1]; subst.
    assert (Hpos : (0 < length seg)%nat)
      by (destruct seg; [congruence | cbn; lia]).
    cbn [concat] in *. rewrite length_app in Hlen.
    assert ((length seg <=? n - t)%nat = true) as ->
      by (apply Nat.leb_le; lia).
    assert ((Z.of_nat (length seg) <=? 0) = false) as -> by lia.
    rewrite Nat2Z.id.
    destruct (IH f (set_rx k (map RdData segs1 ++ ev :: rest)) n
                 (t + length seg)%nat (buf ++ seg))
      as (k' & Hrun); try assumption; try reflexivity; try lia.
    exists k'. rewrite Hrun. rewrite <- app_assoc. reflexivity.
Qed.

Lemma recv_exactly_short k fd n a ev rest :
  (ev = RdEof \/ exists e, ev = RdErr e) ->
  is_open k fd = true ->
  carries (rx k) a (ev :: rest) ->
  (length a < n)%nat ->
  exists k', recv_exactly k fd n = Done (-1) a k'.
Proof.
  intros Hev Hopen (segs & Hrx & Hne & Hcat) Hlen. unfold recv_exactly.
  destruct (recv_loop_short fd ev rest segs Hev n k n 0%nat [])
    as (k' & Hrun); try assumption; try lia.
  { rewrite Hcat. lia. }
  exists k'. rewrite Hrun. rewrite Hcat. reflexivity.
Qed.

End ExactIO.

Section ExactWrites.

Import Kernel DoomSocket Wire.

Lemma send_loop_eq fuel k fd buf total_sent :
  send_loop fuel k fd buf total_sent
  = if (length buf <=? total_sent)%nat then (0, k)
    else
      match fuel with
      | O => (0, k)
      | S fuel' =>
        let (bytes_sent, k') := sys_write k fd (skipn total_sent buf) in
        if bytes_sent <=? 0 then (-1, k')
        else send_loop fuel' k' fd buf (total_sent + Z.to_nat bytes_sent)
      end.
Proof. destruct fuel; reflexivity. Qed.

Lemma set_tx_same k : set_tx k (wr k) (tx k) = k.
Proof. destruct k. reflexivity. Qed.

Lemma skipn_step {A : Type} (l : list A) t n :
  firstn n (skipn t l) ++ skipn (t + n) l = skipn t l.
Proof.
  rewrite (Nat.add_comm t n), <- skipn_skipn. apply firstn_skipn.
Qed.

(** What one [write] does: bytes are appended to the outbound stream when
  the return value is positive, and nothing else changes but the script. *)
Lemma sys_write_spec k fd bs r k' :
  sys_write k fd bs = (r, k') ->
  exists ws t,
    k' = set_tx k ws t
    /\ (r <= 0 -> t = tx k)
    /\ (0 < r -> (Z.to_nat r <= length bs)%nat
                 /\ t = tx k ++ firstn (Z.to_nat r) bs)
    /\ (Forall (fun e => accepts e = true) (wr k) ->
        Forall (fun e => accepts e = true) ws
        /\ (is_open k fd = true -> bs <> [] -> 0 < r)).
Proof.
  unfold sys_write. destruct (is_open k fd) eqn:Eo; cbn [negb].
  2:{ intros [= <- <-]. exists (wr k), (tx k). rewrite set_tx_same.
      split; [reflexivity |]. split; [reflexivity |]. split; [lia |].
      intros Hacc. split; [exact Hacc | discriminate]. }
  destruct (wr k) as [| [p | | e] ws] eqn:Ew; intros [= <- <-].
  - exists [], (tx k ++ bs). split; [reflexivity |].
    split; [| split; [| split; [constructor |]]].
    + intros Hr. assert (length bs = 0%nat) as H0 by lia.
      apply length_zero_iff_nil in H0. subst bs. rewrite app_nil_r.
      reflexivity.
    + intros Hr. rewrite Nat2Z.id, firstn_all. split; [lia | reflexivity].
    + intros _ Hbs. destruct bs; [congruence | cbn; lia].
  - exists ws, (tx k ++ firstn (Nat.min (Pos.to_nat p) (length bs)) bs).
    split; [reflexivity |]. split; [| split; [| split]].
    + intros Hr. assert (Nat.min (Pos.to_nat p) (length bs) = 0%nat) as ->
        by lia.
      cbn. rewrite app_nil_r. reflexivity.
    + intros Hr. rewrite Nat2Z.id. split; [lia | reflexivity].
    + inversion H; assumption.
    + intros _ Hbs. pose proof (Pos2Nat.is_pos p).
      destruct bs; [congruence | cbn [length]; lia].
  - exists ws, (tx k). split; [reflexivity |]. split; [reflexivity |].
    split; [lia |]. intros Hacc. inversion Hacc; discriminate.
  - exists ws, (tx k). split; [reflexivity |]. split; [reflexivity |].
    split; [lia |]. intros Hacc. inversion Hacc; discriminate.
Qed.

(** A send touches only the write script and the outbound stream, to which
  it appends; a zero return means every byte went out. *)
Lemma send_loop_spec fd buf fuel : forall k total_sent r k',
  (length buf - total_sent <= fuel)%nat ->
  send_loop fuel k fd buf total_sent = (r, k') ->
  (r = 0 \/ r = -1)
  /\ (exists ws more, k' = set_tx k ws (tx k ++ more)
                      /\ (r = 0 -> more = skipn total_sent buf))
  /\ (is_open k fd = true ->
      Forall (fun e => accepts e = true) (wr k) ->
      r = 0 /\ Forall (fun e => accepts e = true) (wr k')).
Proof.
  induction fuel as [| f IH]; intros k t r k' Hfuel; rewrite send_loop_eq;
    destruct (length buf <=? t)%nat eqn:El.
  1, 3: apply Nat.leb_le in El; intros [= <- <-];
    (split; [auto |]); (split; [| auto]);
    exists (wr k), []; rewrite app_nil_r, set_tx_same;
    (split; [reflexivity |]); intros _; symmetry; apply skipn_all2; lia.
  - apply Nat.leb_gt in El. lia.
  - apply Nat.leb_gt in El.
    destruct (sys_write k fd (skipn t buf)) as [bs k1] eqn:Ew.
    apply sys_write_spec in Ew.
    destruct Ew as (ws & t1 & -> & Hzero & Hpos & Hacc).
    assert (Hrem : skipn t buf <> []).
    { intros Hnil. apply (f_equal (@length byte)) in Hnil.
      rewrite length_skipn in Hnil. cbn in Hnil. lia. }
    destruct (bs <=? 0) eqn:Eb.
    + intros [= <- <-]. apply Z.leb_le in Eb.
      split; [auto |]. split.
      * exists ws, []. rewrite app_nil_r, (Hzero Eb).
        split; [reflexivity | discriminate].
      * intros Ho Ha. destruct (Hacc Ha) as [_ Hp].
        specialize (Hp Ho Hrem). lia.
    + apply Z.leb_gt in Eb. destruct (Hpos Eb) as [Hle ->].
      rewrite length_skipn in Hle.
      intros Hrun. apply IH in Hrun; [| lia].
      destruct Hrun as (Hr & (ws2 & more & -> & Hmore) & Hok).
      split; [exact Hr |]. split.
      * exists ws2, (firstn (Z.to_nat bs) (skipn t buf) ++ more).
        cbn [tx set_tx]. rewrite <- app_assoc.
        split; [reflexivity |].
        intros Hr0. rewrite (Hmore Hr0). apply skipn_step.
      * intros Ho Ha. destruct (Hacc Ha) as [Ha1 _].
        apply Hok; [exact Ho | exact Ha1].
Qed.

Lemma send_exactly_spec k fd buf r k' :
  send_exactly k fd buf = (r, k') ->
  (r = 0 \/ r = -1)
  /\ (exists ws more, k' = set_tx k ws (tx k ++ more)
                      /\ (r = 0 -> more = buf))
  /\ (is_open k fd = true ->
      Forall (fun e => accepts e = true) (wr k) ->
      r = 0 /\ Forall (fun e => accepts e = true) (wr k')).
Proof.
  unfold send_exactly. intros H.
  apply send_loop_spec in H; [exact H | lia].
Qed.

(** The first [write] returns zero or fails: the send fails at once. *)
Lemma send_exactly_refused k fd buf e ws :
  is_open k fd = true -> buf <> [] -> wr k = e :: ws -> accepts e = false ->
  send_exactly k fd buf = (-1, set_tx k ws (tx k)).
Proof.
  intros Ho Hbuf Hw He. unfold send_exactly.
  destruct buf as [| b buf']; [congruence |].
  cbn [length]. rewrite send_loop_eq. cbn [Nat.leb length].
  unfold sys_write. rewrite Ho, Hw. cbn [negb].
  destruct e as [p | | err]; [discriminate | reflexivity | reflexivity].
Qed.

Lemma firstn_add {A : Type} (a b : nat) : forall l : list A,
  firstn (a + b) l = firstn a l ++ firstn b (skipn a l).
Proof.
  induction a as [| a IH]; intros l; [reflexivity |].
  destruct l as [| x l]; cbn [Nat.add firstn skipn app].
  - rewrite firstn_nil. reflexivity.
  - rewrite IH. reflexivity.
Qed.

Lemma unsent_le ps : forall n, (unsent ps n <= n)%nat.
Proof.
  induction ps as [| p ps IH]; intros n; cbn [unsent]; [lia |].
  specialize (IH (n - Pos.to_nat p)%nat). lia.
Qed.

Lemma unsent_message_le ps : forall h m, (unsent_message ps h m <= h + m)%nat.
Proof.
  induction ps as [| p ps IH]; intros h m; cbn [unsent_message]; [lia |].
  destruct h as [| h'].
  - specialize (IH 0%nat (m - Pos.to_nat p)%nat). lia.
  - specialize (IH (S h' - Pos.to_nat p)%nat m). lia.
Qed.

Lemma unsent_message_0 ps : forall m, unsent_message ps 0 m = unsent ps m.
Proof.
  induction ps as [| p ps IH]; intros m; cbn [unsent_message unsent];
    [reflexivity | apply IH].
Qed.

(** One accepted [write] of the loop of [send_exactly]. *)
Lemma send_loop_accepted fd buf fuel k t p ws :
  is_open k fd = true -> wr k = WrAccept p :: ws ->
  (t < length buf)%nat ->
  send_loop (S fuel) k fd buf t
  = send_loop fuel
      (set_tx k ws (tx k ++ firstn (Nat.min (Pos.to_nat p) (length buf - t))
                                   (skipn t buf)))
      fd buf (t + Nat.min (Pos.to_nat p) (length buf - t)).
Proof.
  intros Ho Hw Ht. rewrite send_loop_eq.
  assert ((length buf <=? t)%nat = false) as -> by (apply Nat.leb_gt; lia).
  unfold sys_write. rewrite Ho, Hw. cbn [negb]. rewrite length_skipn.
  pose proof (Pos2Nat.is_pos p) as Hp.
  assert ((Z.of_nat (Nat.min (Pos.to_nat p) (length buf - t)) <=? 0) = false)
    as -> by (apply Z.leb_gt; lia).
  rewrite Nat2Z.id. reflexivity.
Qed.

(** The loop of [send_exactly] stops at the first [write] that returns zero
  or fails: it returns -1 with what the earlier writes took on the stream
  and the rest of the script untouched. *)
Lemma send_loop_refused_after fd buf e ws :
  accepts e = false ->
  forall ps fuel k t,
  is_open k fd = true ->
  wr k = map WrAccept ps ++ e :: ws ->
  (length buf - t <= fuel)%nat ->
  (0 < unsent ps (length buf - t))%nat ->
  send_loop fuel k fd buf t
  = (-1, set_tx k ws
           (tx k ++ firstn (length buf - t - unsent ps (length buf - t))
                           (skipn t buf))).
Proof.
  intros He. induction ps as [| p ps IH]; intros fuel k t Ho Hw Hfuel Hleft.
  - cbn [unsent map app] in *. rewrite send_loop_eq.
    assert ((length buf <=? t)%nat = false) as -> by (apply Nat.leb_gt; lia).
    destruct fuel as [| fuel]; [lia |].
    unfold sys_write. rewrite Ho, Hw. cbn [negb].
    rewrite Nat.sub_diag. cbn [firstn]. rewrite app_nil_r.
    destruct e as [q | | err]; [discriminate He | reflexivity | reflexivity].
  - cbn [unsent map app] in *.
    pose proof (unsent_le ps (length buf - t - Pos.to_nat p)) as Hu.
    destruct fuel as [| fuel]; [lia |].
    rewrite (send_loop_accepted fd buf fuel k t p _ Ho Hw) by lia.
    assert (Hmin : Nat.min (Pos.to_nat p) (length buf - t) = Pos.to_nat p)
      by lia.
    rewrite Hmin.
    rewrite IH; cbn [wr tx set_tx]; [| exact Ho | reflexivity | lia |].
    + f_equal. unfold set_tx. cbn [socket_ret connect_ret malloc_ok open_fds
                                    rx]. f_equal.
      rewrite <- app_assoc. f_equal.
      replace (length buf - t - unsent ps (length buf - t - Pos.to_nat p))%nat
        with (Pos.to_nat p
              + (length buf - (t + Pos.to_nat p)
                 - unsent ps (length buf - (t + Pos.to_nat p))))%nat.
      * rewrite firstn_add, skipn_skipn.
        rewrite (Nat.add_comm (Pos.to_nat p) t). reflexivity.
      * replace (length buf - (t + Pos.to_nat p))%nat
          with (length buf - t - Pos.to_nat p)%nat by lia.
        lia.
    + replace (length buf - (t + Pos.to_nat p))%nat
        with (length buf - t - Pos.to_nat p)%nat by lia.
      exact Hleft.
Qed.

Lemma send_exactly_refused_after k fd buf ps e ws :
  accepts e = false ->
  is_open k fd = true ->
  wr k = map WrAccept ps ++ e :: ws ->
  (0 < unsent ps (length buf))%nat ->
  send_exactly k fd buf
  = (-1, set_tx k ws (tx k ++ firstn (length buf - unsent ps (length buf))
                                     buf)).
Proof.
  intros He Ho Hw Hleft. unfold send_exactly.
  rewrite (send_loop_refused_after fd buf e ws He ps (length buf) k 0 Ho Hw);
    rewrite ?Nat.sub_0_r; [reflexivity | lia | exact Hleft].
Qed.

End ExactWrites.

(** ** Round trip of a message *)

Section RoundTrip.

Import Kernel DoomSocket Wire.

Lemma recv_message_carries k fd msg_type payload rest :
  is_open k fd = true ->
  0 <= msg_type < 2 ^ 32 ->
  Z.of_nat (length payload) < 2 ^ 32 ->
  carries (rx k) (message msg_type payload) rest ->
  recv_message k fd = Done 0 (msg_type, payload) (set_rx k rest).
Proof.
  intros Ho Ht Hl Hc. unfold message in Hc. unfold recv_message.
  change 4%nat with (length (bytes_of_u32 msg_type)) at 1.
  destruct (recv_exactly_carries k fd _ _ rest Ho Hc) as (r1 & -> & Hc1).
  cbn [Z.ltb Z.compare].
  change 4%nat with (length (bytes_of_u32 (Z.of_nat (length payload)))).
  destruct (recv_exactly_carries (set_rx k r1) fd _ _ rest Ho Hc1)
    as (r2 & -> & Hc2).
  cbn [Z.ltb Z.compare]. cbv zeta.
  rewrite !u32_of_bytes_of_u32 by lia. rewrite Nat2Z.id.
  rewrite <- (app_nil_r payload) in Hc2.
  destruct (recv_exactly_carries (set_rx (set_rx k r1) r2) fd _ _ rest Ho Hc2)
    as (r3 & -> & Hc3).
  apply carries_nil in Hc3. subst r3. reflexivity.
Qed.

(** The same for a whole message: header, then payload. *)
Lemma send_message_refused_after w msg_type payload e ws :
  accepts e = false ->
  connected w ->
  forall ps,
  wr (kern w) = map WrAccept ps ++ e :: ws ->
  (0 < unsent_message ps 8 (length payload))%nat ->
  doom_socket_send_message w msg_type payload
  = (-1, with_kernel w
           (set_tx (kern w) ws
              (tx (kern w)
               ++ firstn (8 + length payload
                          - unsent_message ps 8 (length payload))
                         (header (msg_type mod 2 ^ 32)
                                 (Z.of_nat (length payload) mod 2 ^ 32)
                          ++ payload)))).
Proof.
  intros He [Hfd Ho] ps Hw Hleft. unfold doom_socket_send_message.
  assert ((g_socket_fd w <? 0) = false) as -> by lia. cbv zeta.
  change (bytes_of_u32 (msg_type mod 2 ^ 32)
          ++ bytes_of_u32 (Z.of_nat (length payload) mod 2 ^ 32))
    with (header (msg_type mod 2 ^ 32)
                 (Z.of_nat (length payload) mod 2 ^ 32)).
  set (hdr := header _ _).
  assert (Hh : length hdr = 8%nat) by reflexivity.
  set (fd := g_socket_fd w) in *.
  set (m := length payload) in *.
  unfold send_exactly at 1. rewrite Hh.
  assert (Hgen : forall ps fuel k t,
             is_open k fd = true ->
             wr k = map WrAccept ps ++ e :: ws ->
             (t <= 8)%nat -> (8 - t <= fuel)%nat ->
             (0 < unsent_message ps (8 - t) m)%nat ->
             (let (r1, k1) := send_loop fuel k fd hdr t in
              if r1 <? 0 then (-1, with_kernel w k1)
              else
                let (r2, k2) := send_exactly k1 fd payload in
                if r2 <? 0 then (-1, with_kernel w k2)
                else (0, with_kernel w k2))
             = (-1, with_kernel w
                      (set_tx k ws
                         (tx k ++ firstn (8 - t + m
                                          - unsent_message ps (8 - t) m)
                                         (skipn t hdr ++ payload))))).
  { clear ps Hw Hleft.
    induction ps as [| p ps IH]; intros fuel k t Hok Hwk Ht Hfuel Hl.
    - destruct (Nat.eq_dec t 8) as [-> | Hne].
      + rewrite send_loop_eq, Hh. cbn [Nat.leb Z.ltb Z.compare].
        cbn [unsent_message Nat.sub Nat.add] in Hl.
        rewrite (send_exactly_refused_after k fd payload [] e ws He Hok Hwk)
          by exact Hl.
        cbn [Z.ltb Z.compare unsent unsent_message Nat.sub Nat.add].
        rewrite Nat.sub_diag. cbn [firstn].
        replace (m - m)%nat with 0%nat by lia. reflexivity.
      + rewrite (send_loop_refused_after fd hdr e ws He [] fuel k t Hok Hwk);
          rewrite ?Hh; cbn [unsent]; [| lia | lia].
        cbn [Z.ltb Z.compare unsent_message].
        rewrite Nat.sub_diag.
        replace (8 - t + m - (8 - t + m))%nat with 0%nat by lia.
        reflexivity.
    - destruct (Nat.eq_dec t 8) as [-> | Hne].
      + rewrite send_loop_eq, Hh. cbn [Nat.leb Z.ltb Z.compare].
        cbn [Nat.sub] in Hl. rewrite unsent_message_0 in Hl.
        rewrite (send_exactly_refused_after k fd payload (p :: ps) e ws He
                   Hok Hwk) by exact Hl.
        cbn [Z.ltb Z.compare Nat.sub Nat.add].
        rewrite unsent_message_0.
        replace (skipn 8 hdr) with (@nil byte) by reflexivity.
        reflexivity.
      + destruct fuel as [| fuel]; [lia |].
        cbn [map app] in Hwk.
        rewrite (send_loop_accepted fd hdr fuel k t p _ Hok Hwk) by lia.
        rewrite Hh.
        set (n1 := Nat.min (Pos.to_nat p) (8 - t)).
        assert (Hu : unsent_message (p :: ps) (8 - t) m
                     = unsent_message ps (8 - (t + n1)) m).
        { cbn [unsent_message]. destruct (8 - t)%nat as [| h'] eqn:Eh; [lia |].
          f_equal. unfold n1. lia. }
        rewrite Hu in *.
        pose proof (unsent_message_le ps (8 - (t + n1)) m) as Hle.
        rewrite IH; cbn [wr tx set_tx]; [| exact Hok | reflexivity
                                          | unfold n1; lia | unfold n1; lia
                                          | exact Hl].
        f_equal. f_equal. unfold set_tx.
        cbn [socket_ret connect_ret malloc_ok open_fds rx]. f_equal.
        rewrite <- app_assoc. f_equal.
        replace (8 - t + m - unsent_message ps (8 - (t + n1)) m)%nat
          with (n1 + (8 - (t + n1) + m
                      - unsent_message ps (8 - (t + n1)) m))%nat
          by (unfold n1 in *; lia).
        rewrite firstn_add. f_equal.
        * rewrite firstn_app.
          replace (n1 - length (skipn t hdr))%nat with 0%nat
            by (rewrite length_skipn, Hh; unfold n1; lia).
          cbn [firstn]. rewrite app_nil_r. reflexivity.
        * f_equal. rewrite skipn_app, skipn_skipn.
          replace (n1 - length (skipn t hdr))%nat with 0%nat
            by (rewrite length_skipn, Hh; unfold n1; lia).
          cbn [skipn]. rewrite (Nat.add_comm n1 t). reflexivity. }
  specialize (Hgen ps 8%nat (kern w) 0%nat Ho Hw).
  rewrite Nat.sub_0_r in Hgen. cbn [skipn] in Hgen.
  apply Hgen; [lia | lia | exact Hleft].
Qed.

(** C6 (amended).  On a Connected handle, when every [write] takes at least
  one byte, [send] returns 0 and the outbound stream grows by exactly the
  header and the payload; a reader that gathers the three parts with
  [recv_exactly] gets the same tag and payload back however the stream is
  cut into reads.  [send] returns -1 at the first [write] that returns zero
  or fails with any error, retryable or not - be it the first write or one
  that follows accepted writes of the header or of the payload - and issues
  no write after it; it has no other result. *)
Theorem send_recv_round_trip (w : world) (msg_type : Z) (payload : list byte)
  (Hc : connected w) (Ht : 0 <= msg_type < 2 ^ 32)
  (Hl : Z.of_nat (length payload) < 2 ^ 32) :
  (Forall (fun e => accepts e = true) (wr (kern w)) ->
   exists w',
     doom_socket_send_message w msg_type payload = (0, w')
     /\ g_socket_fd w' = g_socket_fd w
     /\ rx (kern w') = rx (kern w)
     /\ tx (kern w') = tx (kern w) ++ message msg_type payload)
  /\ (forall pk pfd rest,
        is_open pk pfd = true ->
        carries (rx pk) (message msg_type payload) rest ->
        recv_message pk pfd = Done 0 (msg_type, payload) (set_rx pk rest))
  /\ (forall ps e ws,
        wr (kern w) = map WrAccept ps ++ e :: ws -> accepts e = false ->
        (0 < unsent_message ps 8 (length payload))%nat ->
        exists w',
          doom_socket_send_message w msg_type payload = (-1, w')
          /\ wr (kern w') = ws
          /\ g_socket_fd w' = g_socket_fd w
          /\ rx (kern w') = rx (kern w))
  /\ (fst (doom_socket_send_message w msg_type payload) = 0
      \/ fst (doom_socket_send_message w msg_type payload) = -1).
Proof.
  pose proof Hc as [Hfd Ho].
  assert (Hneg : (g_socket_fd w <? 0) = false) by lia.
  split; [| split; [| split]].
  - intros Hacc. unfold doom_socket_send_message. rewrite Hneg. cbv zeta.
    rewrite !Z.mod_small by lia.
    destruct (send_exactly (kern w) (g_socket_fd w) _) as [r1 k1] eqn:E1.
    apply send_exactly_spec in E1.
    destruct E1 as (_ & (ws1 & more1 & -> & Hm1) & Hok1).
    destruct (Hok1 Ho Hacc) as [-> Hacc1]. specialize (Hm1 eq_refl).
    subst more1. cbn [Z.ltb Z.compare].
    destruct (send_exactly _ (g_socket_fd w) payload) as [r2 k2] eqn:E2.
    apply send_exactly_spec in E2.
    destruct E2 as (_ & (ws2 & more2 & -> & Hm2) & Hok2).
    destruct (Hok2 Ho Hacc1) as [-> _]. specialize (Hm2 eq_refl).
    subst more2. cbn [Z.ltb Z.compare].
    eexists. split; [reflexivity |]. cbn [g_socket_fd kern with_kernel].
    split; [reflexivity |]. split; [reflexivity |].
    cbn [tx set_tx]. unfold message. rewrite <- !app_assoc. reflexivity.
  - intros pk pfd rest Hopen Hcar.
    apply recv_message_carries; assumption.
  - intros ps e ws Hw He Hleft.
    rewrite (send_message_refused_after w msg_type payload e ws He Hc ps Hw
               Hleft).
    eexists. split; [reflexivity |]. cbn [kern with_kernel g_socket_fd].
    split; [reflexivity |]. split; reflexivity.
  - unfold doom_socket_send_message. rewrite Hneg. cbv zeta.
    destruct (send_exactly (kern w) (g_socket_fd w) _) as [r1 k1].
    destruct (r1 <? 0); [auto |].
    destruct (send_exactly k1 (g_socket_fd w) payload) as [r2 k2].
    destruct (r2 <? 0); auto.
Qed.

Lemma send_recv_round_trip_witness :
  let w := Vectors.connected_world [] [WrAccept 1; WrAccept 3] in
  let late := Vectors.connected_world []
                [WrAccept 5; WrAccept 3; WrAccept 4; WrErr EPIPE;
                 WrAccept 100] in
  let payload := Fmt.text "{'frame':0}" in
  connected w
  /\ fst (doom_socket_send_message w MSG_FRAME_DATA payload) = 0
  /\ recv_message
       (Vectors.kernel_of [5]
          [RdData (firstn 3 (message MSG_FRAME_DATA payload));
           RdData (skipn 3 (message MSG_FRAME_DATA payload))] [])
       5
     = Done 0 (MSG_FRAME_DATA, payload) (Vectors.kernel_of [5] [] [])
  /\ connected late
  /\ exists w',
       doom_socket_send_message late MSG_FRAME_DATA payload = (-1, w')
       /\ wr (kern w') = [WrAccept 100].
Proof.
  cbv zeta.
  assert (Hc : connected (Vectors.connected_world []
                            [WrAccept 1; WrAccept 3])).
  { split; [cbn; lia | reflexivity]. }
  assert (Hc2 : connected (Vectors.connected_world []
                             [WrAccept 5; WrAccept 3; WrAccept 4;
                              WrErr EPIPE; WrAccept 100])).
  { split; [cbn; lia | reflexivity]. }
  split; [exact Hc |].
  destruct (send_recv_round_trip
              (Vectors.connected_world [] [WrAccept 1; WrAccept 3])
              MSG_FRAME_DATA (Fmt.text "{'frame':0}") Hc)
    as (Hsend & Hrecv & _).
  { unfold MSG_FRAME_DATA. lia. }
  { vm_compute. reflexivity. }
  split; [| split; [| split; [exact Hc2 |]]].
  - destruct Hsend as (w' & -> & _).
    + repeat constructor.
    + reflexivity.
  - apply (Hrecv (Vectors.kernel_of [5] _ []) 5 []).
    + reflexivity.
    + exists [firstn 3 (message MSG_FRAME_DATA (Fmt.text "{'frame':0}"));
              skipn 3 (message MSG_FRAME_DATA (Fmt.text "{'frame':0}"))].
      split; [reflexivity |].
      split; [repeat constructor; discriminate |].
      cbn [concat]. rewrite app_nil_r. apply firstn_skipn.
  - destruct (send_recv_round_trip
                (Vectors.connected_world []
                   [WrAccept 5; WrAccept 3; WrAccept 4; WrErr EPIPE;
                    WrAccept 100])
                MSG_FRAME_DATA (Fmt.text "{'frame':0}") Hc2)
      as (_ & _ & Hfail & _).
    { unfold MSG_FRAME_DATA. lia. }
    { vm_compute. reflexivity. }
    destruct (Hfail [5; 3; 4]%positive (WrErr EPIPE) [WrAccept 100])
      as (w' & Hrun & Hwr & _).
    + reflexivity.
    + reflexivity.
    + vm_compute. lia.
    + exists w'. split; [exact Hrun | exact Hwr].
Defined.

(** C6, as stated, fails: a [write] interrupted by a signal (EINTR, which
  can be retried) makes [send] report an error, although no [write]
  returned zero or failed for good. *)
Lemma send_retryable_counterexample :
  let w := Vectors.connected_world [] [WrErr EINTR] in
  connected w
  /\ retryable EINTR = true
  /\ doom_socket_send_message w MSG_FRAME_DATA (Fmt.text "{'frame':0}")
     = (-1, Vectors.connected_world [] []).
Proof.
  cbv zeta. split; [split; [cbn; lia | reflexivity] |].
  split; reflexivity.
Qed.

End RoundTrip.

(** ** Receiving *)

Section Receiving.

Import Kernel DoomSocket Wire.

Lemma carries_ready k fd b bs rest :
  is_open k fd = true -> carries (rx k) (b :: bs) rest -> sys_select k fd = 1.
Proof.
  intros Ho (segs & Hrx & _ & Hcat). unfold sys_select. rewrite Ho, Hrx.
  destruct segs; [discriminate | reflexivity].
Qed.

Lemma carries_then_ready k fd a ev rest :
  is_open k fd = true -> carries (rx k) a (ev :: rest) -> sys_select k fd = 1.
Proof.
  intros Ho (segs & Hrx & _ & _). unfold sys_select. rewrite Ho, Hrx.
  destruct segs; reflexivity.
Qed.

Lemma header_split msg_type len body :
  header msg_type len ++ body
  = bytes_of_u32 msg_type ++ (bytes_of_u32 len ++ body).
Proof. unfold header. rewrite <- app_assoc. reflexivity. Qed.

(** Once a complete header has arrived, [doom_socket_recv_key] reads it,
  however it is cut, and dispatches on its two words. *)
Lemma recv_key_header w msg_type len body rest :
  connected w ->
  0 <= msg_type < 2 ^ 32 -> 0 <= len < 2 ^ 32 ->
  carries (rx (kern w)) (header msg_type len ++ body) rest ->
  exists r2,
    doom_socket_recv_key w
    = recv_key_dispatch w (set_rx (kern w) r2) msg_type len
    /\ carries r2 body rest.
Proof.
  intros [Hfd Ho] Ht Hl Hc. unfold doom_socket_recv_key. cbv zeta.
  assert ((g_socket_fd w <? 0) = false) as -> by lia.
  rewrite (carries_ready (kern w) (g_socket_fd w) (byte_of_Z msg_type)
             (tl (header msg_type len ++ body)) rest Ho Hc).
  cbn [Z.leb Z.compare].
  rewrite header_split in Hc.
  change 4%nat with (length (bytes_of_u32 msg_type)) at 1.
  destruct (recv_exactly_carries _ _ _ _ rest Ho Hc) as (r1 & -> & Hc1).
  cbn [Z.ltb Z.compare].
  change 4%nat with (length (bytes_of_u32 len)).
  destruct (recv_exactly_carries (set_rx (kern w) r1) _ _ _ rest Ho Hc1)
    as (r2 & -> & Hc2).
  cbn [Z.ltb Z.compare].
  rewrite !u32_of_bytes_of_u32 by lia.
  exists r2. split; [reflexivity | exact Hc2].
Qed.

(** The stream ends or fails inside the header. *)
Lemma recv_key_header_short w a ev rest :
  connected w ->
  (ev = RdEof \/ exists e, ev = RdErr e) ->
  carries (rx (kern w)) a (ev :: rest) ->
  (length a < 8)%nat ->
  exists k', doom_socket_recv_key w = Done (-1) None (with_kernel w k').
Proof.
  intros [Hfd Ho] Hev Hc Hlen. unfold doom_socket_recv_key. cbv zeta.
  assert ((g_socket_fd w <? 0) = false) as -> by lia.
  rewrite (carries_then_ready _ _ _ _ _ Ho Hc). cbn [Z.leb Z.compare].
  destruct (Nat.lt_ge_cases (length a) 4) as [H4 | H4].
  - destruct (recv_exactly_short _ _ 4 _ _ _ Hev Ho Hc H4) as (k' & ->).
    cbn [Z.ltb Z.compare]. eauto.
  - rewrite <- (firstn_skipn 4 a) in Hc.
    assert (Hl4 : length (firstn 4 a) = 4%nat)
      by (rewrite length_firstn; lia).
    replace (recv_exactly (kern w) (g_socket_fd w) 4)
      with (recv_exactly (kern w) (g_socket_fd w) (length (firstn 4 a)))
      by (rewrite Hl4; reflexivity).
    destruct (recv_exactly_carries _ _ _ _ _ Ho Hc) as (r1 & -> & Hc1).
    cbn [Z.ltb Z.compare].
    assert (Hs : (length (skipn 4 a) < 4)%nat)
      by (rewrite length_skipn; lia).
    destruct (recv_exactly_short (set_rx (kern w) r1) (g_socket_fd w) 4
                _ _ _ Hev Ho Hc1 Hs) as (k' & ->).
    cbn [Z.ltb Z.compare]. eauto.
Qed.

(** [doom_socket_recv_key] never assigns [g_socket_fd] and never closes a
  descriptor. *)
Lemma recv_key_handle w ret out w' :
  doom_socket_recv_key w = Done ret out w' ->
  g_socket_fd w' = g_socket_fd w
  /\ open_fds (kern w') = open_fds (kern w)
  /\ tx (kern w') = tx (kern w).
Proof.
  unfold doom_socket_recv_key. cbv zeta.
  destruct (g_socket_fd w <? 0); [intros [= _ _ <-]; auto |].
  destruct (sys_select _ _ <=? 0); [intros [= _ _ <-]; auto |].
  destruct (recv_exactly (kern w) _ 4) as [r1 b1 k1 |] eqn:E1;
    [| discriminate].
  apply recv_exactly_only_rx in E1. destruct E1 as (_ & x1 & ->).
  destruct (r1 <? 0); [intros [= _ _ <-]; auto |].
  destruct (recv_exactly _ _ 4) as [r2 b2 k2 |] eqn:E2; [| discriminate].
  apply recv_exactly_only_rx in E2. destruct E2 as (_ & x2 & ->).
  destruct (r2 <? 0); [intros [= _ _ <-]; auto |].
  destruct (_ =? MSG_SHUTDOWN); [intros [= _ _ <-]; auto |].
  destruct (negb _).
  - destruct (_ && _); [| intros [= _ _ <-]; auto].
    destruct (recv_exactly _ _ _) as [r3 b3 k3 |] eqn:E3; [| discriminate].
    apply recv_exactly_only_rx in E3. destruct E3 as (_ & x3 & ->).
    intros [= _ _ <-]; auto.
  - destruct (_ >=? 256); [intros [= _ _ <-]; auto |].
    destruct (recv_exactly _ _ _) as [r3 b3 k3 |] eqn:E3; [| discriminate].
    apply recv_exactly_only_rx in E3. destruct E3 as (_ & x3 & ->).
    destruct (r3 <? 0); intros [= _ _ <-]; auto.
Qed.

End Receiving.

(** ** What a receive reports *)

Section ReceiveResults.

Import Kernel DoomSocket Wire.








End ReceiveResults.

(** ** Decimal numerals and the key-event parser *)

Section KeyEvents.

Import Kernel DoomSocket Wire.

Lemma digit_facts d :
  0 <= d < 10 ->
  Json.is_digit (Fmt.digit d) = true /\ Z_of_byte (Fmt.digit d) = 48 + d.
Proof.
  intros H.
  assert (d = 0 \/ d = 1 \/ d = 2 \/ d = 3 \/ d = 4 \/ d = 5 \/ d = 6
          \/ d = 7 \/ d = 8 \/ d = 9) as Hd by lia.
  repeat (destruct Hd as [-> | Hd]; [split; reflexivity |]).
  subst. split; reflexivity.
Qed.

Lemma is_digit_facts b :
  Json.is_digit b = true ->
  isspace b = false /\ is_blank b = false /\ Byte.eqb b x2d = false
  /\ Byte.eqb b x2b = false /\ Byte.eqb b x00 = false
  /\ Byte.eqb b x74 = false.
Proof. destruct b; cbn; intros H; try discriminate H; repeat split. Qed.

Lemma dec_digits fuel : forall n,
  0 <= n -> Forall (fun b => Json.is_digit b = true) (Fmt.dec fuel n).
Proof.
  induction fuel as [| f IH]; intros n Hn; cbn [Fmt.dec]; [constructor |].
  destruct (n <? 10) eqn:E.
  - constructor; [| constructor]. apply digit_facts. lia.
  - apply Forall_app. split.
    + apply IH. apply Z.div_pos; lia.
    + constructor; [| constructor]. apply digit_facts.
      apply Z.mod_pos_bound. lia.
Qed.

Lemma dec_head fuel n :
  0 <= n ->
  exists b tl, Fmt.dec (S fuel) n = b :: tl /\ Json.is_digit b = true.
Proof.
  intros Hn. pose proof (dec_digits (S fuel) n Hn) as H.
  pose proof (dec_nonempty fuel n) as Hl.
  destruct (Fmt.dec (S fuel) n) as [| b tl]; [cbn in Hl; lia |].
  inversion H; subst. eauto.
Qed.

(** Reading back the digits gives the number. *)
Lemma digits_value_dec fuel : forall n rest,
  0 <= n < 10 ^ Z.of_nat fuel ->
  digits_value (Fmt.dec fuel n ++ rest) 0 = digits_value rest n.
Proof.
  induction fuel as [| f IH]; intros n rest Hn.
  - change (10 ^ Z.of_nat 0) with 1 in Hn.
    assert (n = 0) by lia. subst. reflexivity.
  - cbn [Fmt.dec]. destruct (n <? 10) eqn:E.
    + cbn [app digits_value].
      destruct (digit_facts n) as [-> ->]; [lia |].
      f_equal. lia.
    + rewrite Nat2Z.inj_succ, Z.pow_succ_r in Hn by lia.
      rewrite <- app_assoc. rewrite IH.
      2:{ split; [apply Z.div_pos; lia |].
          apply Z.div_lt_upper_bound; lia. }
      cbn [app digits_value].
      destruct (digit_facts (n mod 10)) as [-> ->];
        [apply Z.mod_pos_bound; lia |].
      f_equal. pose proof (Z.div_mod n 10). lia.
Qed.

Lemma digits_value_stop rest acc :
  match rest with [] => True | b :: _ => Json.is_digit b = false end ->
  digits_value rest acc = acc.
Proof. destruct rest as [| b r]; cbn; [auto | intros ->; reflexivity]. Qed.

(** [atoi] reads back what [%d] printed. *)
Lemma atoi_fmt_d n rest :
  Int32.in_range n ->
  match rest with [] => True | b :: _ => Json.is_digit b = false end ->
  atoi (Fmt.fmt_d n ++ rest) = n.
Proof.
  intros Hn Hrest. pose proof Hn as Hr.
  unfold Int32.in_range, Int32.min_signed, Int32.max_signed in Hr.
  unfold atoi, strtol, Fmt.fmt_d. cbv zeta. rewrite (wrap_id n Hn).
  assert (Hclamp : Z.max (- 2 ^ 63) (Z.min (2 ^ 63 - 1) n) = n) by lia.
  destruct (n <? 0) eqn:E.
  - cbn [app skip]. change (isspace x2d) with false. cbv iota.
    change (Byte.eqb x2d x2d) with true. cbv iota.
    rewrite digits_value_dec by (change (10 ^ Z.of_nat 10) with 10000000000; lia).
    rewrite digits_value_stop by exact Hrest.
    rewrite Z.opp_involutive, Hclamp. apply wrap_id. exact Hn.
  - destruct (dec_head 9 n) as (b & tl & Hd & Hb); [lia |].
    pose proof (digits_value_dec 10 n rest) as Hv.
    rewrite Hd in *. cbn [app skip] in *.
    destruct (is_digit_facts b Hb) as (-> & _ & -> & -> & _).
    rewrite Hv by (change (10 ^ Z.of_nat 10) with 10000000000; lia).
    rewrite digits_value_stop by exact Hrest.
    rewrite Hclamp. apply wrap_id. exact Hn.
Qed.

Lemma fmt_d_head n :
  exists b tl, Fmt.fmt_d n = b :: tl
               /\ (b = x2d \/ Json.is_digit b = true).
Proof.
  unfold Fmt.fmt_d. cbv zeta. destruct (Int32.wrap n <? 0) eqn:E.
  - eauto.
  - destruct (dec_head 9 (Int32.wrap n)) as (b & tl & -> & Hb); [lia |].
    eauto.
Qed.

Lemma fmt_d_bytes n :
  Forall (fun b => b = x2d \/ Json.is_digit b = true) (Fmt.fmt_d n).
Proof.
  unfold Fmt.fmt_d. cbv zeta. destruct (Int32.wrap n <? 0) eqn:E.
  - constructor; [auto |].
    eapply Forall_impl; [| apply dec_digits; lia]. cbv beta. auto.
  - eapply Forall_impl; [| apply dec_digits; lia]. cbv beta. auto.
Qed.

Lemma cstr_app a b :
  Forall (fun c => Byte.eqb c x00 = false) a -> cstr (a ++ b) = a ++ cstr b.
Proof.
  induction 1 as [| c a Hc Ha IH]; cbn [app cstr]; [reflexivity |].
  rewrite Hc, IH. reflexivity.
Qed.

Lemma strstr_absent hay c needle :
  Forall (fun b => Byte.eqb c b = false) hay ->
  strstr hay (c :: needle) = None.
Proof.
  induction 1 as [| b hay Hb Hh IH]; cbn [strstr starts_with].
  - reflexivity.
  - rewrite Hb. cbn [andb]. exact IH.
Qed.

Lemma fmt_d_no_nul_no_t n :
  Forall (fun c => Byte.eqb c x00 = false) (Fmt.fmt_d n)
  /\ Forall (fun b => Byte.eqb x74 b = false) (Fmt.fmt_d n).
Proof.
  pose proof (fmt_d_bytes n) as H. split.
  - eapply Forall_impl; [| exact H]. cbv beta.
    intros b [-> | Hb]; [reflexivity |]. apply is_digit_facts. exact Hb.
  - eapply Forall_impl; [| exact H]. cbv beta.
    intros b [-> | Hb]; [reflexivity |].
    destruct b; cbn in Hb; try discriminate Hb; reflexivity.
Qed.

Lemma key_event_json_cstr p n : cstr (key_event_json p n) = key_event_json p n.
Proof.
  unfold key_event_json.
  destruct (fmt_d_no_nul_no_t n) as [Hn _].
  rewrite !cstr_app; try assumption.
  - reflexivity.
  - repeat constructor.
  - destruct p; repeat constructor.
  - repeat constructor.
Qed.

Lemma parse_key_json p n :
  Int32.in_range n -> parse_key (key_event_json p n) = n.
Proof.
  intros Hn. unfold parse_key, key_event_json.
  assert (Hs : strstr (Fmt.text "{'pressed': "
                       ++ (if p then Fmt.text "true" else Fmt.text "false")
                       ++ Fmt.text ", 'key': " ++ Fmt.fmt_d n ++ Fmt.text "}")
                 (Fmt.text "'key':")
               = Some (Fmt.text "'key': " ++ Fmt.fmt_d n ++ Fmt.text "}")).
  { generalize (Fmt.fmt_d n ++ Fmt.text "}") as t. intros t.
    destruct p; vm_compute; reflexivity. }
  rewrite Hs.
  change (skipn 6 (Fmt.text "'key': " ++ Fmt.fmt_d n ++ Fmt.text "}"))
    with (x20 :: Fmt.fmt_d n ++ Fmt.text "}").
  cbn [skip]. change (is_blank x20) with true. cbv iota.
  destruct (fmt_d_head n) as (b & tl & Hd & Hb).
  assert (Hblank : is_blank b = false).
  { destruct Hb as [-> | Hb]; [reflexivity | apply is_digit_facts; exact Hb]. }
  rewrite Hd. cbn [app skip]. rewrite Hblank.
  change (b :: tl ++ Fmt.text "}") with ((b :: tl) ++ Fmt.text "}").
  rewrite <- Hd. apply atoi_fmt_d; [exact Hn | reflexivity].
Qed.

Lemma parse_pressed_json p n :
  parse_pressed (key_event_json p n) = if p then 1 else 0.
Proof.
  unfold parse_pressed, key_event_json.
  generalize (fmt_d_no_nul_no_t n). intros [_ Ht].
  destruct p.
  - generalize (Fmt.fmt_d n ++ Fmt.text "}") as t. intros t.
    vm_compute. reflexivity.
  - assert (Hs : forall t,
               strstr (Fmt.text "{'pressed': " ++ Fmt.text "false"
                       ++ Fmt.text ", 'key': " ++ t)
                      (Fmt.text "'pressed':")
               = Some (Fmt.text "'pressed': false, 'key': " ++ t))
      by (intros t; vm_compute; reflexivity).
    rewrite Hs.
    change (Fmt.text "true") with (x74 :: Fmt.text "rue").
    rewrite strstr_absent; [reflexivity |].
    apply Forall_app. split; [repeat constructor |].
    apply Forall_app. split; [exact Ht | repeat constructor].
Qed.

Lemma key_event_json_length p n :
  Z.of_nat (length (key_event_json p n)) < 256.
Proof.
  unfold key_event_json. rewrite !length_app.
  pose proof (fmt_d_length n).
  destruct p; text_lengths; lia.
Qed.

End KeyEvents.

(** ** Key events *)

Section KeyCodes.

Import Kernel DoomSocket Wire.

Lemma message_header msg_type payload :
  message msg_type payload
  = header msg_type (Z.of_nat (length payload)) ++ payload.
Proof. unfold message, header. rewrite <- app_assoc. reflexivity. Qed.

Lemma recv_key_event w payload rest :
  connected w ->
  Z.of_nat (length payload) < 256 ->
  carries (rx (kern w)) (message MSG_KEY_EVENT payload) rest ->
  doom_socket_recv_key w
  = Done 1 (Some {| pressed := parse_pressed (cstr payload);
                    key := parse_key (cstr payload) mod 256 |})
         (with_kernel w (set_rx (kern w) rest)).
Proof.
  intros Hc Hlen Hcar. rewrite message_header in Hcar.
  destruct (recv_key_header w MSG_KEY_EVENT (Z.of_nat (length payload))
              payload rest Hc) as (r2 & -> & H2);
    [unfold MSG_KEY_EVENT; lia | lia | exact Hcar |].
  unfold recv_key_dispatch. cbv zeta.
  change (MSG_KEY_EVENT =? MSG_SHUTDOWN) with false.
  change (MSG_KEY_EVENT =? MSG_KEY_EVENT) with true. cbn [negb]. cbv iota.
  assert ((Z.of_nat (length payload) >=? 256) = false) as -> by lia.
  rewrite Nat2Z.id. destruct Hc as [_ Ho].
  rewrite <- (app_nil_r payload) in H2.
  destruct (recv_exactly_carries (set_rx (kern w) r2) (g_socket_fd w)
              payload [] rest Ho H2) as (r3 & -> & H3).
  apply carries_nil in H3. subst r3. reflexivity.
Qed.

(** C10.  For every KEY_EVENT payload of fewer than 256 bytes,
  [doom_socket_recv_key] returns 1 and delivers the parsed [key] value
  reduced modulo 256, a number in [0, 255]; when the payload is the JSON
  text of a key event whose key is the 32-bit integer [n], the key
  delivered is [n mod 256], whether or not [n] lies in [0, 255]. *)
Theorem recv_key_wraps_key_code (w : world) (Hc : connected w) :
  (forall payload rest,
     Z.of_nat (length payload) < 256 ->
     carries (rx (kern w)) (message MSG_KEY_EVENT payload) rest ->
     doom_socket_recv_key w
     = Done 1 (Some {| pressed := parse_pressed (cstr payload);
                       key := parse_key (cstr payload) mod 256 |})
            (with_kernel w (set_rx (kern w) rest))
     /\ 0 <= parse_key (cstr payload) mod 256 < 256)
  /\ (forall p n rest,
        Int32.in_range n ->
        carries (rx (kern w))
                (message MSG_KEY_EVENT (key_event_json p n)) rest ->
        doom_socket_recv_key w
        = Done 1 (Some {| pressed := if p then 1 else 0;
                          key := n mod 256 |})
               (with_kernel w (set_rx (kern w) rest))).
Proof.
  split.
  - intros payload rest Hlen Hcar. split.
    + apply recv_key_event; assumption.
    + apply Z.mod_pos_bound. lia.
  - intros p n rest Hn Hcar.
    rewrite (recv_key_event w _ rest Hc (key_event_json_length p n) Hcar).
    rewrite key_event_json_cstr, parse_pressed_json, parse_key_json by exact Hn.
    reflexivity.
Qed.

Lemma recv_key_wraps_key_code_witness :
  let w := Vectors.connected_world
             [RdData (message MSG_KEY_EVENT (key_event_json true 353))] [] in
  connected w
  /\ Int32.in_range 353
  /\ doom_socket_recv_key w
     = Done 1 (Some {| pressed := 1; key := 97 |})
            (Vectors.connected_world [] []).
Proof.
  cbv zeta. set (w := Vectors.connected_world _ []).
  assert (Hc : connected w) by (split; [cbn; lia | reflexivity]).
  assert (Hr : Int32.in_range 353).
  { unfold Int32.in_range, Int32.min_signed, Int32.max_signed. lia. }
  split; [exact Hc |]. split; [exact Hr |].
  destruct (recv_key_wraps_key_code w Hc) as [_ H].
  rewrite (H true 353 [] Hr); [reflexivity |].
  exists [message MSG_KEY_EVENT (key_event_json true 353)].
  split; [reflexivity |]. split; [repeat constructor; discriminate |].
  cbn [concat]. apply app_nil_r.
Defined.

(** Keys 97, 353 and -159 cannot be told apart after the call. *)
Lemma key_codes_97_353_minus_159 :
  let run n :=
    doom_socket_recv_key
      (Vectors.connected_world
         [RdData (message MSG_KEY_EVENT (key_event_json true n))] []) in
  run 97 = Done 1 (Some {| pressed := 1; key := 97 |})
                (Vectors.connected_world [] [])
  /\ run 353 = run 97
  /\ run (-159) = run 97.
Proof. cbv zeta. split; [| split]; vm_compute; reflexivity. Qed.

End KeyCodes.

(** ** The handshake *)

Section Handshake.

Import Kernel DoomSocket Wire.

Lemma is_open_after_close k fd : is_open (sys_close k fd) fd = false.
Proof.
  unfold is_open, sys_close. cbn [open_fds set_fds].
  induction (open_fds k) as [| d l IH]; cbn [filter existsb]; [reflexivity |].
  destruct (fd =? d) eqn:E; cbn [negb]; [exact IH |].
  cbn [existsb]. rewrite E. exact IH.
Qed.

Lemma closed_world_released k fd : released (closed_world k fd) fd.
Proof.
  unfold released, closed_world. cbn [g_socket_fd kern].
  split; [reflexivity |]. split; [apply is_open_after_close | reflexivity].
Qed.

(** The kernel right after a successful [socket] call. *)
Lemma sys_socket_ok k :
  0 <= socket_ret k ->
  sys_socket k = (socket_ret k, set_fds k (socket_ret k :: open_fds k))
  /\ is_open (set_fds k (socket_ret k :: open_fds k)) (socket_ret k) = true.
Proof.
  intros H. unfold sys_socket.
  assert ((socket_ret k <? 0) = false) as -> by lia.
  split; [reflexivity |].
  unfold is_open. cbn [open_fds set_fds existsb]. rewrite Z.eqb_refl.
  reflexivity.
Qed.

Lemma connect_header w msg_type len body rest :
  let fd := socket_ret (kern w) in
  let k0 := set_fds (kern w) (fd :: open_fds (kern w)) in
  0 <= fd -> 0 <= connect_ret (kern w) ->
  0 <= msg_type < 2 ^ 32 -> 0 <= len < 2 ^ 32 ->
  carries (rx (kern w)) (header msg_type len ++ body) rest ->
  exists r2,
    doom_socket_connect w = connect_dispatch fd (set_rx k0 r2) msg_type len
    /\ carries r2 body rest.
Proof.
  cbv zeta. intros Hfd Hcon Ht Hl Hc.
  destruct (sys_socket_ok (kern w) Hfd) as [Hs Ho].
  unfold doom_socket_connect. rewrite Hs.
  assert ((socket_ret (kern w) <? 0) = false) as -> by lia.
  cbn [connect_ret set_fds].
  assert ((connect_ret (kern w) <? 0) = false) as -> by lia.
  set (k0 := set_fds (kern w) _) in *.
  change (rx (kern w)) with (rx k0) in Hc.
  rewrite header_split in Hc.
  change 4%nat with (length (bytes_of_u32 msg_type)) at 1.
  destruct (recv_exactly_carries _ _ _ _ rest Ho Hc) as (r1 & -> & Hc1).
  cbn [Z.ltb Z.compare].
  change 4%nat with (length (bytes_of_u32 len)).
  destruct (recv_exactly_carries (set_rx k0 r1) _ _ _ rest Ho Hc1)
    as (r2 & -> & Hc2).
  cbn [Z.ltb Z.compare]. cbv zeta.
  rewrite !u32_of_bytes_of_u32 by lia.
  exists r2. split; [reflexivity | exact Hc2].
Qed.

Lemma connect_header_short w a ev rest :
  0 <= socket_ret (kern w) -> 0 <= connect_ret (kern w) ->
  (ev = RdEof \/ exists e, ev = RdErr e) ->
  carries (rx (kern w)) a (ev :: rest) ->
  (length a < 8)%nat ->
  exists k', doom_socket_connect w
             = Done (-1) tt (closed_world k' (socket_ret (kern w))).
Proof.
  intros Hfd Hcon Hev Hc Hlen.
  destruct (sys_socket_ok (kern w) Hfd) as [Hs Ho].
  unfold doom_socket_connect. rewrite Hs.
  assert ((socket_ret (kern w) <? 0) = false) as -> by lia.
  cbn [connect_ret set_fds].
  assert ((connect_ret (kern w) <? 0) = false) as -> by lia.
  set (fd := socket_ret (kern w)) in *.
  set (k0 := set_fds (kern w) _) in *.
  change (rx (kern w)) with (rx k0) in Hc.
  destruct (Nat.lt_ge_cases (length a) 4) as [H4 | H4].
  - destruct (recv_exactly_short _ _ 4 _ _ _ Hev Ho Hc H4) as (k' & ->).
    cbn [Z.ltb Z.compare]. eauto.
  - rewrite <- (firstn_skipn 4 a) in Hc.
    assert (Hl4 : length (firstn 4 a) = 4%nat)
      by (rewrite length_firstn; lia).
    replace (recv_exactly k0 fd 4)
      with (recv_exactly k0 fd (length (firstn 4 a)))
      by (rewrite Hl4; reflexivity).
    destruct (recv_exactly_carries _ _ _ _ _ Ho Hc) as (r1 & -> & Hc1).
    cbn [Z.ltb Z.compare].
    assert (Hsk : (length (skipn 4 a) < 4)%nat)
      by (rewrite length_skipn; lia).
    destruct (recv_exactly_short (set_rx k0 r1) fd 4 _ _ _ Hev Ho Hc1 Hsk)
      as (k' & ->).
    cbn [Z.ltb Z.compare]. eauto.
Qed.

(** Every way out of [doom_socket_connect]: 0 with the new descriptor in
  the handle, or -1 with the handle negative and the descriptor closed. *)
Lemma connect_results w ret w' :
  doom_socket_connect w = Done ret tt w' ->
  (ret = 0 /\ g_socket_fd w' = socket_ret (kern w) /\ connected w')
  \/ (ret = -1 /\ g_socket_fd w' < 0
      /\ (0 <= socket_ret (kern w) -> released w' (socket_ret (kern w)))).
Proof.
  unfold doom_socket_connect, sys_socket.
  destruct (socket_ret (kern w) <? 0) eqn:Efd.
  { rewrite Efd. intros [= <- <-]. right. cbn [g_socket_fd].
    split; [reflexivity |]. split; lia. }
  rewrite Efd. set (fd := socket_ret (kern w)) in *.
  set (k0 := set_fds (kern w) _).
  assert (Ho : is_open k0 fd = true).
  { unfold is_open, k0. cbn [open_fds set_fds existsb].
    rewrite Z.eqb_refl. reflexivity. }
  assert (Hbad : forall k', (ret = 0 /\ g_socket_fd (closed_world k' fd) = fd
                             /\ connected (closed_world k' fd))
                            \/ (-1 = -1 /\ g_socket_fd (closed_world k' fd) < 0
                                /\ (0 <= fd -> released (closed_world k' fd) fd))).
  { intros k'. right. split; [reflexivity |]. split; [cbn; lia |].
    intros _. apply closed_world_released. }
  destruct (connect_ret k0 <? 0); [intros [= <- <-]; apply Hbad |].
  destruct (recv_exactly k0 fd 4) as [r1 b1 k1 |] eqn:E1; [| discriminate].
  apply recv_exactly_only_rx in E1. destruct E1 as (_ & x1 & ->).
  destruct (r1 <? 0); [intros [= <- <-]; apply Hbad |].
  destruct (recv_exactly _ fd 4) as [r2 b2 k2 |] eqn:E2; [| discriminate].
  apply recv_exactly_only_rx in E2. destruct E2 as (_ & x2 & ->).
  destruct (r2 <? 0); [intros [= <- <-]; apply Hbad |].
  cbv zeta. destruct (negb _); [intros [= <- <-]; apply Hbad |].
  destruct (_ && _).
  - destruct (recv_exactly _ fd _) as [r3 b3 k3 |] eqn:E3; [| discriminate].
    apply recv_exactly_only_rx in E3. destruct E3 as (_ & x3 & ->).
    intros [= <- <-]. left. split; [reflexivity |]. split; [reflexivity |].
    split; [cbn [g_socket_fd]; lia | exact Ho].
  - intros [= <- <-]. left. split; [reflexivity |]. split; [reflexivity |].
    split; [cbn [g_socket_fd]; lia | exact Ho].
Qed.

(** Once the header of an INIT_COMPLETE message has been read, no path
  leads to a failure: every return is 0 with the new descriptor in the
  handle. *)
Lemma connect_after_init_header w len body rest ret w' :
  0 <= socket_ret (kern w) -> 0 <= connect_ret (kern w) ->
  0 <= len < 2 ^ 32 ->
  carries (rx (kern w)) (header MSG_INIT_COMPLETE len ++ body) rest ->
  doom_socket_connect w = Done ret tt w' ->
  ret = 0 /\ g_socket_fd w' = socket_ret (kern w) /\ connected w'.
Proof.
  intros Hfd Hcon Hl Hcar.
  destruct (connect_header w MSG_INIT_COMPLETE len body rest Hfd Hcon)
    as (r2 & -> & _);
    [unfold MSG_INIT_COMPLETE; lia | exact Hl | exact Hcar |].
  destruct (sys_socket_ok (kern w) Hfd) as [_ Ho].
  unfold connect_dispatch.
  change (MSG_INIT_COMPLETE =? MSG_INIT_COMPLETE) with true. cbn [negb].
  destruct (_ && _).
  - destruct (recv_exactly _ _ _) as [r3 b3 k3 |] eqn:E3; [| discriminate].
    apply recv_exactly_only_rx in E3. destruct E3 as (_ & x3 & ->).
    intros H. injection H as <- <-. split; [reflexivity |].
    split; [reflexivity |]. split; [exact Hfd | exact Ho].
  - intros H. injection H as <- <-. split; [reflexivity |].
    split; [reflexivity |]. split; [exact Hfd | exact Ho].
Qed.

(** The payload of INIT_COMPLETE is cut short by the end of the stream or
  by a read error: the failed read is ignored. *)
Lemma connect_payload_short w len a ev rest :
  0 <= socket_ret (kern w) -> 0 <= connect_ret (kern w) ->
  0 <= len < 2 ^ 32 ->
  malloc_ok (kern w) len = true ->
  (ev = RdEof \/ exists e, ev = RdErr e) ->
  carries (rx (kern w)) (header MSG_INIT_COMPLETE len ++ a) (ev :: rest) ->
  Z.of_nat (length a) < len ->
  exists k', doom_socket_connect w
             = Done 0 tt {| g_socket_fd := socket_ret (kern w); kern := k' |}
             /\ is_open k' (socket_ret (kern w)) = true.
Proof.
  intros Hfd Hcon Hl Hm Hev Hcar Ha.
  destruct (connect_header w MSG_INIT_COMPLETE len a (ev :: rest) Hfd Hcon)
    as (r2 & -> & Hc2);
    [unfold MSG_INIT_COMPLETE; lia | exact Hl | exact Hcar |].
  destruct (sys_socket_ok (kern w) Hfd) as [_ Ho].
  unfold connect_dispatch.
  change (MSG_INIT_COMPLETE =? MSG_INIT_COMPLETE) with true. cbn [negb].
  cbn [malloc_ok set_rx set_fds]. rewrite Hm.
  assert ((len >? 0) = true) as -> by lia. cbn [andb].
  set (k2 := set_rx _ r2).
  assert (Ho2 : is_open k2 (socket_ret (kern w)) = true) by exact Ho.
  destruct (recv_exactly_short k2 (socket_ret (kern w)) (Z.to_nat len) a ev
              rest Hev Ho2 Hc2) as (k' & E); [lia |].
  rewrite E. exists k'. split; [reflexivity |].
  apply recv_exactly_only_rx in E. destruct E as (_ & x & ->).
  exact Ho2.
Qed.

(** The scratch buffer for the payload cannot be allocated: the payload is
  left in the stream. *)
Lemma connect_payload_unallocated w len body rest :
  0 <= socket_ret (kern w) -> 0 <= connect_ret (kern w) ->
  0 <= len < 2 ^ 32 ->
  malloc_ok (kern w) len = false ->
  carries (rx (kern w)) (header MSG_INIT_COMPLETE len ++ body) rest ->
  exists r2,
    doom_socket_connect w
    = Done 0 tt {| g_socket_fd := socket_ret (kern w);
                   kern := set_rx (set_fds (kern w)
                                     (socket_ret (kern w)
                                      :: open_fds (kern w))) r2 |}
    /\ carries r2 body rest.
Proof.
  intros Hfd Hcon Hl Hm Hcar.
  destruct (connect_header w MSG_INIT_COMPLETE len body rest Hfd Hcon)
    as (r2 & -> & Hc2);
    [unfold MSG_INIT_COMPLETE; lia | exact Hl | exact Hcar |].
  unfold connect_dispatch.
  change (MSG_INIT_COMPLETE =? MSG_INIT_COMPLETE) with true. cbn [negb].
  cbn [malloc_ok set_rx set_fds]. rewrite Hm, andb_false_r.
  exists r2. split; [reflexivity | exact Hc2].
Qed.

End Handshake.

(** C9 (amended).  [doom_socket_connect] returns -1, with the handle
  Disconnected and the descriptor it had opened closed again, when [socket]
  fails (nothing was opened), when [connect] fails, when the stream ends or
  fails inside the 8-byte header, and when the header's tag is not
  INIT_COMPLETE.  Once the header of an INIT_COMPLETE message has been read
  every return is a success, with the handle Connected: it returns 0 having
  read exactly that message when the payload arrives and can be allocated;
  it returns 0 as well when the payload is cut short by the end of the
  stream or by a read error, and when the scratch buffer cannot be
  allocated, in which case the payload stays in the stream.  It has no
  other results: 0 with the handle Connected, or -1 with the handle
  Disconnected and the descriptor released. *)
Theorem connect_handshake (w : DoomSocket.world) :
  let fd := Kernel.socket_ret (DoomSocket.kern w) in
  let k := DoomSocket.kern w in
  (fd < 0 ->
   DoomSocket.doom_socket_connect w
   = DoomSocket.Done (-1) tt
       {| DoomSocket.g_socket_fd := fd; DoomSocket.kern := k |})
  /\ (0 <= fd -> Kernel.connect_ret k < 0 ->
      exists w', DoomSocket.doom_socket_connect w = DoomSocket.Done (-1) tt w'
                 /\ Wire.released w' fd)
  /\ (0 <= fd -> 0 <= Kernel.connect_ret k ->
      (forall a ev rest,
         (ev = Kernel.RdEof \/ exists e, ev = Kernel.RdErr e) ->
         Wire.carries (Kernel.rx k) a (ev :: rest) ->
         (length a < 8)%nat ->
         exists w', DoomSocket.doom_socket_connect w
                    = DoomSocket.Done (-1) tt w'
                    /\ Wire.released w' fd)
      /\ (forall msg_type len rest,
            0 <= msg_type < 2 ^ 32 ->
            msg_type <> DoomSocket.MSG_INIT_COMPLETE ->
            0 <= len < 2 ^ 32 ->
            Wire.carries (Kernel.rx k) (Wire.header msg_type len) rest ->
            exists w', DoomSocket.doom_socket_connect w
                       = DoomSocket.Done (-1) tt w'
                       /\ Wire.released w' fd)
      /\ (forall payload rest,
            Z.of_nat (length payload) < 2 ^ 32 ->
            Kernel.malloc_ok k (Z.of_nat (length payload)) = true ->
            Wire.carries (Kernel.rx k)
              (Wire.message DoomSocket.MSG_INIT_COMPLETE payload) rest ->
            DoomSocket.doom_socket_connect w
            = DoomSocket.Done 0 tt
                {| DoomSocket.g_socket_fd := fd;
                   DoomSocket.kern :=
                     Kernel.set_rx
                       (Kernel.set_fds k (fd :: Kernel.open_fds k)) rest |})
      /\ (forall len a ev rest,
            0 <= len < 2 ^ 32 ->
            Kernel.malloc_ok k len = true ->
            (ev = Kernel.RdEof \/ exists e, ev = Kernel.RdErr e) ->
            Wire.carries (Kernel.rx k)
              (Wire.header DoomSocket.MSG_INIT_COMPLETE len ++ a)
              (ev :: rest) ->
            Z.of_nat (length a) < len ->
            exists k',
              DoomSocket.doom_socket_connect w
              = DoomSocket.Done 0 tt
                  {| DoomSocket.g_socket_fd := fd; DoomSocket.kern := k' |}
              /\ Kernel.is_open k' fd = true)
      /\ (forall len body rest,
            0 <= len < 2 ^ 32 ->
            Kernel.malloc_ok k len = false ->
            Wire.carries (Kernel.rx k)
              (Wire.header DoomSocket.MSG_INIT_COMPLETE len ++ body) rest ->
            exists r2,
              DoomSocket.doom_socket_connect w
              = DoomSocket.Done 0 tt
                  {| DoomSocket.g_socket_fd := fd;
                     DoomSocket.kern :=
                       Kernel.set_rx
                         (Kernel.set_fds k (fd :: Kernel.open_fds k)) r2 |}
              /\ Wire.carries r2 body rest)
      /\ (forall len body rest ret w',
            0 <= len < 2 ^ 32 ->
            Wire.carries (Kernel.rx k)
              (Wire.header DoomSocket.MSG_INIT_COMPLETE len ++ body) rest ->
            DoomSocket.doom_socket_connect w = DoomSocket.Done ret tt w' ->
            ret = 0 /\ DoomSocket.g_socket_fd w' = fd /\ Wire.connected w'))
  /\ (forall ret w',
        DoomSocket.doom_socket_connect w = DoomSocket.Done ret tt w' ->
        (ret = 0 /\ DoomSocket.g_socket_fd w' = fd /\ Wire.connected w')
        \/ (ret = -1 /\ DoomSocket.g_socket_fd w' < 0
            /\ (0 <= fd -> Wire.released w' fd))).
Proof.
  cbv zeta. split; [| split; [| split]].
  - intros Hfd. unfold DoomSocket.doom_socket_connect, Kernel.sys_socket.
    assert ((Kernel.socket_ret (DoomSocket.kern w) <? 0) = true) as -> by lia.
    assert ((Kernel.socket_ret (DoomSocket.kern w) <? 0) = true) as -> by lia.
    reflexivity.
  - intros Hfd Hcon.
    destruct (sys_socket_ok (DoomSocket.kern w) Hfd) as [Hs _].
    unfold DoomSocket.doom_socket_connect. rewrite Hs.
    assert ((Kernel.socket_ret (DoomSocket.kern w) <? 0) = false) as ->
      by lia.
    cbn [Kernel.connect_ret Kernel.set_fds].
    assert ((Kernel.connect_ret (DoomSocket.kern w) <? 0) = true) as ->
      by lia.
    eexists. split; [reflexivity | apply closed_world_released].
  - intros Hfd Hcon. split; [| split; [| split; [| split; [| split]]]].
    + intros a ev rest Hev Hcar Hlen.
      destruct (connect_header_short w a ev rest Hfd Hcon Hev Hcar Hlen)
        as (k' & ->).
      eexists. split; [reflexivity | apply closed_world_released].
    + intros msg_type len rest Ht Hne Hl Hcar.
      rewrite <- (app_nil_r (Wire.header msg_type len)) in Hcar.
      destruct (connect_header w msg_type len [] rest Hfd Hcon Ht Hl Hcar)
        as (r2 & -> & _).
      unfold Wire.connect_dispatch.
      assert ((msg_type =? DoomSocket.MSG_INIT_COMPLETE) = false) as ->
        by (apply Z.eqb_neq; exact Hne).
      cbn [negb]. eexists. split; [reflexivity | apply closed_world_released].
    + intros payload rest Hlen Hm Hcar. rewrite message_header in Hcar.
      destruct (connect_header w DoomSocket.MSG_INIT_COMPLETE
                  (Z.of_nat (length payload)) payload rest Hfd Hcon)
        as (r2 & -> & H2);
        [unfold DoomSocket.MSG_INIT_COMPLETE; lia | lia | exact Hcar |].
      unfold Wire.connect_dispatch.
      change (DoomSocket.MSG_INIT_COMPLETE =? DoomSocket.MSG_INIT_COMPLETE)
        with true.
      cbn [negb]. cbv iota.
      cbn [Kernel.malloc_ok Kernel.set_rx Kernel.set_fds]. rewrite Hm.
      destruct (sys_socket_ok (DoomSocket.kern w) Hfd) as [_ Ho].
      destruct (Z.of_nat (length payload) >? 0) eqn:Epos; cbn [andb].
      * rewrite Nat2Z.id. rewrite <- (app_nil_r payload) in H2.
        destruct (recv_exactly_carries
                    (Kernel.set_rx
                       (Kernel.set_fds (DoomSocket.kern w)
                          (Kernel.socket_ret (DoomSocket.kern w)
                           :: Kernel.open_fds (DoomSocket.kern w))) r2)
                    (Kernel.socket_ret (DoomSocket.kern w))
                    payload [] rest Ho H2) as (r3 & -> & H3).
        apply carries_nil in H3. subst r3. reflexivity.
      * assert (payload = []) by (apply length_zero_iff_nil; lia). subst.
        apply carries_nil in H2. subst r2. reflexivity.
    + intros len a ev rest Hl Hm Hev Hcar Ha.
      exact (connect_payload_short w len a ev rest Hfd Hcon Hl Hm Hev Hcar
               Ha).
    + intros len body rest Hl Hm Hcar.
      exact (connect_payload_unallocated w len body rest Hfd Hcon Hl Hm
               Hcar).
    + intros len body rest ret w' Hl Hcar Hrun.
      exact (connect_after_init_header w len body rest ret w' Hfd Hcon Hl
               Hcar Hrun).
  - intros ret w' Hrun. apply connect_results. exact Hrun.
Qed.

Lemma connect_handshake_witness :
  let w := Vectors.fresh_world
             [Kernel.RdData (Wire.header DoomSocket.MSG_KEY_EVENT 0)] in
  let cut := Vectors.fresh_world
               [Kernel.RdData (Wire.header DoomSocket.MSG_INIT_COMPLETE 5);
                Kernel.RdData [x7b; x7d]; Kernel.RdErr Kernel.ECONNRESET] in
  0 <= Kernel.socket_ret (DoomSocket.kern w)
  /\ 0 <= Kernel.connect_ret (DoomSocket.kern w)
  /\ (exists w', DoomSocket.doom_socket_connect w = DoomSocket.Done (-1) tt w'
                 /\ Wire.released w' 3)
  /\ (exists k', DoomSocket.doom_socket_connect cut
                 = DoomSocket.Done 0 tt
                     {| DoomSocket.g_socket_fd := 3; DoomSocket.kern := k' |}
                 /\ Kernel.is_open k' 3 = true).
Proof.
  cbv zeta.
  set (w := Vectors.fresh_world
              [Kernel.RdData (Wire.header DoomSocket.MSG_KEY_EVENT 0)]).
  set (cut := Vectors.fresh_world
                [Kernel.RdData (Wire.header DoomSocket.MSG_INIT_COMPLETE 5);
                 Kernel.RdData [x7b; x7d]; Kernel.RdErr Kernel.ECONNRESET]).
  assert (H1 : 0 <= Kernel.socket_ret (DoomSocket.kern w)) by (cbn; lia).
  assert (H2 : 0 <= Kernel.connect_ret (DoomSocket.kern w)) by (cbn; lia).
  split; [exact H1 |]. split; [exact H2 |]. split.
  - destruct (connect_handshake w) as (_ & _ & H & _).
    destruct (H H1 H2) as (_ & Htag & _).
    apply (Htag DoomSocket.MSG_KEY_EVENT 0 []).
    + unfold DoomSocket.MSG_KEY_EVENT. lia.
    + discriminate.
    + lia.
    + exists [Wire.header DoomSocket.MSG_KEY_EVENT 0].
      split; [reflexivity |]. split; [repeat constructor; discriminate |].
      reflexivity.
  - destruct (connect_handshake cut) as (_ & _ & H & _).
    destruct (H H1 H2) as (_ & _ & _ & Hcut & _).
    apply (Hcut 5 [x7b; x7d] (Kernel.RdErr Kernel.ECONNRESET) []).
    + lia.
    + reflexivity.
    + right. exists Kernel.ECONNRESET. reflexivity.
    + exists [Wire.header DoomSocket.MSG_INIT_COMPLETE 5; [x7b; x7d]].
      split; [reflexivity |]. split; [repeat constructor; discriminate |].
      reflexivity.
    + cbn. lia.
Defined.

(** C9, as stated, fails: the peer announces five payload bytes and closes
  the stream; [doom_socket_connect] reports success and the handle is
  Connected.  The same happens when the scratch allocation fails. *)
Lemma handshake_closed_peer_counterexample :
  let w := Vectors.fresh_world
             [Kernel.RdData (Wire.header DoomSocket.MSG_INIT_COMPLETE 5);
              Kernel.RdEof] in
  DoomSocket.doom_socket_connect w
  = DoomSocket.Done 0 tt (Vectors.connected_world [Kernel.RdEof] [])
  /\ DoomSocket.doom_socket_is_connected
       (Vectors.connected_world [Kernel.RdEof] []) = 1.
Proof. cbv zeta. split; vm_compute; reflexivity. Qed.

(** ** One call of the frame hook *)

Section FrameHook.

Import Kernel DoomSocket Bridge.

Variables MAXDRAWSEGS MAXVISSPRITES : nat.
Variable km : keymap.

(** A send leaves the inbound stream and the handle alone; when it returns
  0 the whole message has joined the outbound stream. *)
Lemma send_message_spec w msg_type json_data r w' :
  doom_socket_send_message w msg_type json_data = (r, w') ->
  g_socket_fd w' = g_socket_fd w
  /\ rx (kern w') = rx (kern w)
  /\ exists more,
       tx (kern w') = tx (kern w) ++ more
       /\ (r = 0 \/ r = -1)
       /\ (r = 0 ->
           more = bytes_of_u32 (msg_type mod 2 ^ 32)
                  ++ bytes_of_u32 (Z.of_nat (length json_data) mod 2 ^ 32)
                  ++ json_data).
Proof.
  unfold doom_socket_send_message.
  destruct (g_socket_fd w <? 0).
  { intros [= <- <-]. split; [reflexivity |]. split; [reflexivity |].
    exists []. rewrite app_nil_r. split; [reflexivity |].
    split; [auto | discriminate]. }
  cbv zeta.
  destruct (send_exactly (kern w) (g_socket_fd w) _) as [r1 k1] eqn:E1.
  apply send_exactly_spec in E1.
  destruct E1 as (Hr1 & (ws1 & more1 & -> & Hm1) & _).
  destruct (r1 <? 0) eqn:Er1.
  { intros [= <- <-]. split; [reflexivity |]. split; [reflexivity |].
    exists more1. split; [reflexivity |]. split; [auto | discriminate]. }
  assert (r1 = 0) by lia. subst r1. specialize (Hm1 eq_refl). subst more1.
  destruct (send_exactly _ (g_socket_fd w) json_data) as [r2 k2] eqn:E2.
  apply send_exactly_spec in E2.
  destruct E2 as (Hr2 & (ws2 & more2 & -> & Hm2) & _).
  cbn [tx set_tx] in *.
  destruct (r2 <? 0) eqn:Er2; intros [= <- <-];
    (split; [reflexivity |]); (split; [reflexivity |]);
    eexists; cbn [kern with_kernel tx set_tx];
    (split; [rewrite <- app_assoc; reflexivity |]);
    (split; [auto |]).
  - discriminate.
  - intros _. assert (r2 = 0) by lia. subst r2. rewrite (Hm2 eq_refl).
    reflexivity.
Qed.

(** C5 (amended).  A call of the hook that returns has sent the frame's
  FRAME_DATA message in full before anything else, has read nothing from the
  inbound stream and has left the handle as it was; the key queue it leaves
  is the one [handleKeyInput] builds from the SDL events alone.  The hook
  never calls [doom_socket_recv_key]: pending KEY_EVENT and SHUTDOWN
  messages stay in the stream. *)
Theorem frame_hook_reads_no_inbound (b b' : bridge) (e : tick_env)
  (Hrun : DG_DrawFrame MAXDRAWSEGS MAXVISSPRITES km b e
          = Continues b') :
  let doc := Serializer.document
               (Serializer.extract_vectors_to_json MAXDRAWSEGS MAXVISSPRITES
                  (view e) (g_frame_count b) (json_mem b)) in
  (exists more,
     tx (kern (sock b'))
     = tx (kern (sock b))
       ++ (bytes_of_u32 MSG_FRAME_DATA
           ++ bytes_of_u32 (Z.of_nat (length doc) mod 2 ^ 32) ++ doc)
       ++ more)
  /\ rx (kern (sock b')) = rx (kern (sock b))
  /\ g_socket_fd (sock b') = g_socket_fd (sock b)
  /\ handleKeyInput km (keys b) (sdl_events e)
     = Polled (keys b')
  /\ g_frame_count b' = Int32.add (g_frame_count b) 1.
Proof.
  cbv zeta. revert Hrun. unfold DG_DrawFrame. cbv zeta.
  set (doc := Serializer.document _).
  unfold doom_socket_send_frame.
  destruct (doom_socket_send_message (sock b) MSG_FRAME_DATA doc)
    as [r w1] eqn:E1.
  apply send_message_spec in E1.
  destruct E1 as (Hfd1 & Hrx1 & more1 & Htx1 & Hr1 & Hm1).
  destruct (r <? 0) eqn:Er; [discriminate |].
  assert (r = 0) by lia. subst r. specialize (Hm1 eq_refl). subst more1.
  change (MSG_FRAME_DATA mod 2 ^ 32) with MSG_FRAME_DATA in Htx1.
  destruct (handleKeyInput km (keys b) (sdl_events e))
    as [q | q] eqn:Ek; [| discriminate].
  destruct (last_screenshot_time b =? 0).
  { intros [= <-]. cbn [sock keys g_frame_count].
    split; [exists []; rewrite app_nil_r; exact Htx1 |]. auto. }
  destruct (_ >=? 3000).
  2:{ intros [= <-]. cbn [sock keys g_frame_count].
      split; [exists []; rewrite app_nil_r; exact Htx1 |]. auto. }
  destruct (surface_ok e && save_ok e).
  2:{ intros [= <-]. cbn [sock keys g_frame_count].
      split; [exists []; rewrite app_nil_r; exact Htx1 |]. auto. }
  destruct (doom_socket_send_message w1 MSG_SCREENSHOT _) as [r2 w2] eqn:E2.
  apply send_message_spec in E2.
  destruct E2 as (Hfd2 & Hrx2 & more2 & Htx2 & _).
  intros [= <-]. cbn [sock keys g_frame_count snd].
  split; [exists more2; rewrite Htx2, Htx1, <- app_assoc; reflexivity |].
  split; [congruence |]. split; [congruence |]. auto.
Qed.

End FrameHook.

Lemma frame_hook_reads_no_inbound_witness :
  let pending :=
    [Kernel.RdData (Wire.message DoomSocket.MSG_KEY_EVENT
                      (Wire.key_event_json true 97))] in
  let b := Vectors.bridge_of (Vectors.connected_world pending []) in
  exists b',
    Bridge.DG_DrawFrame 256 128 Vectors.sdl2_keys b Vectors.quiet_tick
    = Bridge.Continues b'
    /\ Kernel.rx (DoomSocket.kern (Bridge.sock b')) = pending
    /\ Bridge.keys b' = Bridge.keys b.
Proof.
  cbv zeta. eexists. split; [vm_compute; reflexivity |].
  match goal with
  | |- Kernel.rx (DoomSocket.kern (Bridge.sock ?b')) = _ /\ _ =>
    assert (Hrun : Bridge.DG_DrawFrame 256 128 Vectors.sdl2_keys
                     (Vectors.bridge_of
                        (Vectors.connected_world
                           [Kernel.RdData
                              (Wire.message DoomSocket.MSG_KEY_EVENT
                                 (Wire.key_event_json true 97))] []))
                     Vectors.quiet_tick
                   = Bridge.Continues b') by (vm_compute; reflexivity)
  end.
  destruct (frame_hook_reads_no_inbound 256 128 Vectors.sdl2_keys _ _ _ Hrun)
    as (_ & Hrx & _ & Hk & _).
  split; [exact Hrx |]. symmetry. apply Polled_inj. exact Hk.
Defined.

(** C5, as stated, fails: with a complete KEY_EVENT waiting on a Connected
  handle and no SDL event, the hook returns with the message still in the
  stream and the key queue untouched, although [doom_socket_recv_key] would
  deliver key 97; with a SHUTDOWN waiting the hook carries on as well. *)
Lemma pending_key_event_counterexample :
  let key_event :=
    [Kernel.RdData (Wire.message DoomSocket.MSG_KEY_EVENT
                      (Wire.key_event_json true 97))] in
  let shutdown :=
    [Kernel.RdData (Wire.header DoomSocket.MSG_SHUTDOWN 0)] in
  let tick pending :=
    Bridge.DG_DrawFrame 256 128 Vectors.sdl2_keys
      (Vectors.bridge_of (Vectors.connected_world pending []))
      Vectors.quiet_tick in
  let untouched pending result :=
    match result with
    | Bridge.Continues b' =>
      Kernel.rx (DoomSocket.kern (Bridge.sock b')) = pending
      /\ Bridge.keys b'
         = Bridge.keys (Vectors.bridge_of
                          (Vectors.connected_world pending []))
    | Bridge.Exits _ _ => False
    end in
  DoomSocket.doom_socket_recv_key (Vectors.connected_world key_event [])
  = DoomSocket.Done 1
      (Some {| DoomSocket.pressed := 1; DoomSocket.key := 97 |})
      (Vectors.connected_world [] [])
  /\ untouched key_event (tick key_event)
  /\ untouched shutdown (tick shutdown).
Proof.
  cbv zeta. split; [vm_compute; reflexivity |].
  split; vm_compute; split; reflexivity.
Qed.

(** The queue is fed by SDL: pressing [A] puts DOOM key 97, pressed, in
  slot 0, and [DG_GetKey] hands it out. *)
Lemma sdl_key_reaches_queue :
  let b := Vectors.bridge_of (Vectors.connected_world [] []) in
  let e := {| Bridge.view := Bridge.view Vectors.quiet_tick;
              Bridge.sdl_events := [Bridge.SDL_KEYDOWN 65];
              Bridge.current_time := 1000;
              Bridge.surface_ok := true; Bridge.save_ok := true |} in
  match Bridge.DG_DrawFrame 256 128 Vectors.sdl2_keys b e with
  | Bridge.Continues b' =>
    fst (Bridge.DG_GetKey (Bridge.keys b')) = Some (1, 97)
  | Bridge.Exits _ _ => False
  end.
Proof. vm_compute. reflexivity. Qed.

(** ** Closing the connection *)

Section Closing.

Import Kernel DoomSocket Wire.

(** One [write] leaves the inbound stream and the descriptor table alone
  and appends a prefix of what it was given; it appends all of it when the
  kernel takes that many bytes at once. *)
Lemma sys_write_once k fd bs r k' :
  sys_write k fd bs = (r, k') ->
  rx k' = rx k /\ open_fds k' = open_fds k
  /\ exists n, (n <= length bs)%nat
               /\ tx k' = tx k ++ firstn n bs
               /\ (is_open k fd = true ->
                   (wr k = []
                    \/ exists p ws, wr k = WrAccept p :: ws
                                    /\ (length bs <= Pos.to_nat p)%nat) ->
                   n = length bs).
Proof.
  unfold sys_write. destruct (is_open k fd) eqn:Eo; cbn [negb].
  2:{ intros [= <- <-]. split; [reflexivity |]. split; [reflexivity |].
      exists 0%nat. cbn [firstn]. rewrite app_nil_r.
      split; [lia |]. split; [reflexivity | discriminate]. }
  destruct (wr k) as [| [p | | e] ws] eqn:Ew; intros [= <- <-];
    cbn [rx open_fds tx set_tx]; (split; [reflexivity |]);
    (split; [reflexivity |]).
  - exists (length bs). rewrite firstn_all. auto.
  - exists (Nat.min (Pos.to_nat p) (length bs)).
    split; [lia |]. split; [reflexivity |].
    intros _ [Hn | (p' & ws' & Hw & Hp)]; [discriminate |].
    injection Hw as <- _. lia.
  - exists 0%nat. cbn [firstn]. rewrite app_nil_r.
    split; [lia |]. split; [reflexivity |].
    intros _ [Hn | (p' & ws' & Hw & _)]; discriminate.
  - exists 0%nat. cbn [firstn]. rewrite app_nil_r.
    split; [lia |]. split; [reflexivity |].
    intros _ [Hn | (p' & ws' & Hw & _)]; discriminate.
Qed.

Lemma is_open_close_other k fd fd' :
  fd' <> fd -> is_open (sys_close k fd) fd' = is_open k fd'.
Proof.
  intros Hne. unfold is_open, sys_close. cbn [open_fds set_fds].
  induction (open_fds k) as [| d ds IH]; [reflexivity |].
  cbn [filter]. destruct (Z.eqb_spec fd d) as [-> | Hd]; cbn [negb existsb].
  - rewrite IH. destruct (Z.eqb_spec fd' d); [contradiction | reflexivity].
  - rewrite IH. reflexivity.
Qed.

(** X1.  [doom_socket_close] on a Connected handle leaves the handle
  Disconnected with its descriptor released, whatever the one [write] of
  the goodbye header did; the outbound stream grows by a prefix of the
  8-byte SHUTDOWN header (by all 8 bytes when the kernel takes them at
  once), nothing is read, and no other descriptor is closed. *)
Theorem close_sends_shutdown_and_releases (w : world) (Hc : connected w) :
  let w' := doom_socket_close w in
  released w' (g_socket_fd w)
  /\ rx (kern w') = rx (kern w)
  /\ (exists n, (n <= 8)%nat
                /\ tx (kern w')
                   = tx (kern w) ++ firstn n (header MSG_SHUTDOWN 0))
  /\ ((wr (kern w) = []
       \/ exists p ws, wr (kern w) = WrAccept p :: ws
                       /\ (8 <= Pos.to_nat p)%nat) ->
      tx (kern w') = tx (kern w) ++ header MSG_SHUTDOWN 0)
  /\ (forall fd, fd <> g_socket_fd w ->
                 is_open (kern w') fd = is_open (kern w) fd).
Proof.
  destruct Hc as [Hfd Ho]. cbv zeta. unfold doom_socket_close.
  assert (Hge : (g_socket_fd w >=? 0) = true) by lia. rewrite Hge.
  change (bytes_of_u32 MSG_SHUTDOWN ++ bytes_of_u32 0)
    with (header MSG_SHUTDOWN 0).
  destruct (sys_write (kern w) (g_socket_fd w) (header MSG_SHUTDOWN 0))
    as [r k1] eqn:Ew.
  apply sys_write_once in Ew.
  destruct Ew as (Hrx & Hfds & n & Hn & Htx & Hall).
  split; [apply closed_world_released |].
  cbn [kern closed_world]. unfold sys_close at 1 2 3.
  cbn [rx tx set_fds].
  split; [exact Hrx |]. split; [exists n; split; [exact Hn | exact Htx] |].
  split.
  - intros Hw. rewrite Htx, (Hall Ho Hw). rewrite firstn_all. reflexivity.
  - intros fd Hne. rewrite is_open_close_other by exact Hne.
    unfold is_open. rewrite Hfds. reflexivity.
Qed.

Lemma close_sends_shutdown_and_releases_witness :
  let w := Vectors.connected_world [] [] in
  connected w
  /\ doom_socket_close w
     = {| g_socket_fd := -1;
          kern := set_tx (Vectors.kernel_of [] [] []) []
                         (header MSG_SHUTDOWN 0) |}
  /\ tx (kern (doom_socket_close w)) = [] ++ header MSG_SHUTDOWN 0.
Proof.
  cbv zeta.
  assert (Hc : connected (Vectors.connected_world [] [])).
  { split; [cbn; lia | reflexivity]. }
  split; [exact Hc |]. split; [reflexivity |].
  destruct (close_sends_shutdown_and_releases _ Hc) as (_ & _ & _ & H & _).
  apply H. left. reflexivity.
Defined.

(** X2.  [doom_socket_close] may be called any number of times: a second
  call changes nothing, and after any call the handle reports
  Disconnected. *)
Theorem close_idempotent (w : world) :
  doom_socket_close (doom_socket_close w) = doom_socket_close w
  /\ doom_socket_is_connected (doom_socket_close w) = 0.
Proof.
  unfold doom_socket_close at 2 3 4.
  destruct (g_socket_fd w >=? 0) eqn:E.
  - destruct (sys_write _ _ _) as [r k1]. split; reflexivity.
  - unfold doom_socket_close, doom_socket_is_connected. rewrite E.
    split; reflexivity.
Qed.

(** X3.  On a Disconnected handle every operation is a no-op with its
  documented result: sends fail with -1 without a byte written, the key
  poll answers "nothing" without a [select] or [read], closing does
  nothing. *)
Theorem disconnected_handle_operations (w : world)
  (Hd : g_socket_fd w < 0) :
  doom_socket_is_connected w = 0
  /\ (forall msg_type json_data,
         doom_socket_send_message w msg_type json_data = (-1, w))
  /\ (forall json_data, doom_socket_send_frame w json_data = (-1, w))
  /\ doom_socket_recv_key w = Done 0 None w
  /\ doom_socket_close w = w.
Proof.
  assert (H1 : (g_socket_fd w >=? 0) = false) by lia.
  assert (H2 : (g_socket_fd w <? 0) = true) by lia.
  unfold doom_socket_is_connected, doom_socket_send_frame,
    doom_socket_send_message, doom_socket_recv_key, doom_socket_close.
  rewrite H1, H2. cbv zeta.
  split; [reflexivity |]. split; [reflexivity |]. split; [reflexivity |].
  split; reflexivity.
Qed.

Lemma disconnected_handle_operations_witness :
  let w := Vectors.fresh_world [RdData (header MSG_SHUTDOWN 0)] in
  doom_socket_recv_key w = Done 0 None w
  /\ doom_socket_send_frame w (Fmt.text "{}") = (-1, w).
Proof.
  cbv zeta.
  destruct (disconnected_handle_operations
              (Vectors.fresh_world [RdData (header MSG_SHUTDOWN 0)]))
    as (_ & _ & Hf & Hr & _).
  { cbn. lia. }
  split; [exact Hr | apply Hf].
Defined.

End Closing.

(** ** The handle across calls *)

Section HandleInvariant.

Import Kernel DoomSocket Wire Session.

Lemma send_exactly_fds k fd buf :
  open_fds (snd (send_exactly k fd buf)) = open_fds k.
Proof.
  destruct (send_exactly k fd buf) as [r k'] eqn:E.
  apply send_exactly_spec in E. destruct E as (_ & (ws & more & -> & _) & _).
  reflexivity.
Qed.

Lemma send_message_handle w msg_type json_data :
  let w' := snd (doom_socket_send_message w msg_type json_data) in
  g_socket_fd w' = g_socket_fd w /\ open_fds (kern w') = open_fds (kern w).
Proof.
  cbv zeta. unfold doom_socket_send_message.
  destruct (g_socket_fd w <? 0); [split; reflexivity |]. cbv zeta.
  pose proof (send_exactly_fds (kern w) (g_socket_fd w)
                (bytes_of_u32 (msg_type mod 2 ^ 32)
                 ++ bytes_of_u32 (Z.of_nat (length json_data) mod 2 ^ 32)))
    as H1.
  destruct (send_exactly (kern w) (g_socket_fd w) _) as [r1 k1].
  cbn [snd] in H1.
  destruct (r1 <? 0); [split; [reflexivity | exact H1] |].
  pose proof (send_exactly_fds k1 (g_socket_fd w) json_data) as H2.
  destruct (send_exactly k1 (g_socket_fd w) json_data) as [r2 k2].
  cbn [snd] in H2.
  destruct (r2 <? 0); cbn [snd with_kernel g_socket_fd kern];
    (split; [reflexivity | congruence]).
Qed.

Lemma handle_ok_same w w' :
  g_socket_fd w' = g_socket_fd w -> open_fds (kern w') = open_fds (kern w) ->
  handle_ok w -> handle_ok w'.
Proof.
  unfold handle_ok, connected, is_open. intros -> ->. auto.
Qed.

Lemma do_call_handle_ok w c w' :
  handle_ok w -> do_call w c = Some w' -> handle_ok w'.
Proof.
  intros Hok. destruct c as [| p | t p | |]; cbn [do_call].
  - destruct (doom_socket_connect w) as [ret [] w1 |] eqn:E; [| discriminate].
    intros H. apply Some_inj in H. subst w1.
    apply connect_results in E.
    destruct E as [(_ & _ & Hc) | (_ & Hneg & _)];
      [right; exact Hc | left; exact Hneg].
  - intros H. apply Some_inj in H. subst w'.
    destruct (send_message_handle w MSG_FRAME_DATA p) as [H1 H2].
    exact (handle_ok_same _ _ H1 H2 Hok).
  - intros H. apply Some_inj in H. subst w'.
    destruct (send_message_handle w t p) as [H1 H2].
    exact (handle_ok_same _ _ H1 H2 Hok).
  - destruct (doom_socket_recv_key w) as [ret out w1 |] eqn:E;
      [| discriminate].
    intros H. apply Some_inj in H. subst w1.
    apply recv_key_handle in E. destruct E as (H1 & H2 & _).
    exact (handle_ok_same _ _ H1 H2 Hok).
  - intros H. apply Some_inj in H. subst w'. left.
    unfold doom_socket_close. destruct (g_socket_fd w >=? 0) eqn:E.
    + destruct (sys_write _ _ _). cbn. lia.
    + lia.
Qed.

(** X4.  Whatever sequence of transport calls the program makes, and
  whatever the peer and the kernel do, the handle never holds a descriptor
  the process has closed: after every call it is Disconnected (negative) or
  names an open descriptor. *)
Theorem handle_never_dangles (w w' : world) (cs : list call)
  (Hok : handle_ok w) (Hrun : do_calls w cs = Some w') :
  handle_ok w'.
Proof.
  revert w Hok Hrun. induction cs as [| c rest IH]; intros w Hok; cbn.
  - intros H. apply Some_inj in H. subst w'. exact Hok.
  - destruct (do_call w c) as [w1 |] eqn:E; [| discriminate].
    apply IH. exact (do_call_handle_ok _ _ _ Hok E).
Qed.

Lemma handle_never_dangles_witness :
  let w := Vectors.fresh_world
             [RdData (header MSG_INIT_COMPLETE 0); RdEof] in
  let cs := [Connect; SendFrame (Fmt.text "{}"); RecvKey; Close; RecvKey;
             SendFrame (Fmt.text "{}")] in
  handle_ok w
  /\ (exists w', do_calls w cs = Some w' /\ handle_ok w').
Proof.
  cbv zeta.
  assert (Hok : handle_ok (Vectors.fresh_world
                             [RdData (header MSG_INIT_COMPLETE 0); RdEof])).
  { left. cbn. lia. }
  split; [exact Hok |].
  destruct (do_calls
              (Vectors.fresh_world
                 [RdData (header MSG_INIT_COMPLETE 0); RdEof])
              [Connect; SendFrame (Fmt.text "{}"); RecvKey; Close; RecvKey;
               SendFrame (Fmt.text "{}")]) as [w1 |] eqn:E.
  - exists w1. split; [reflexivity |].
    exact (handle_never_dangles _ _ _ Hok E).
  - vm_compute in E. discriminate E.
Defined.

End HandleInvariant.

(** ** Waiting for the peer *)

Section Blocking.

Import Kernel DoomSocket Wire.

(** When fewer bytes than asked for have arrived and nothing follows, the
  loop of [recv_exactly] ends inside a [read] that waits. *)
Lemma recv_loop_starved fd segs :
  forall fuel k n total_read buf,
  is_open k fd = true ->
  rx k = map RdData segs ->
  Forall (fun s => s <> []) segs ->
  (length (concat segs) < n - total_read)%nat ->
  recv_loop fuel k fd n total_read buf = Hang.
Proof.
  induction segs as [| s segs IH]; intros fuel k n t buf Ho Hrx Hne Hlen;
    rewrite recv_loop_eq.
  - assert ((n <=? t)%nat = false) as -> by (apply Nat.leb_gt; lia).
    destruct fuel; [reflexivity |].
    unfold sys_read. rewrite Ho, Hrx. reflexivity.
  - cbn [concat] in Hlen. rewrite length_app in Hlen.
    assert ((n <=? t)%nat = false) as -> by (apply Nat.leb_gt; lia).
    destruct fuel; [reflexivity |].
    inversion Hne as [| ? ? Hs Hrest]; subst.
    assert (0 < length s)%nat by (destruct s; [congruence | cbn; lia]).
    unfold sys_read. rewrite Ho, Hrx. cbn [negb map].
    assert ((length s <=? n - t)%nat = true) as -> by (apply Nat.leb_le; lia).
    assert ((Z.of_nat (length s) <=? 0) = false) as -> by lia.
    rewrite Nat2Z.id. apply IH.
    + rewrite is_open_set_rx. exact Ho.
    + reflexivity.
    + exact Hrest.
    + lia.
Qed.

Lemma recv_exactly_starved k fd n a :
  is_open k fd = true -> carries (rx k) a [] -> (length a < n)%nat ->
  recv_exactly k fd n = Hang.
Proof.
  intros Ho (segs & Hrx & Hne & Hcat) Hlen. rewrite app_nil_r in Hrx.
  unfold recv_exactly. apply (recv_loop_starved fd segs); try assumption.
  rewrite Hcat. lia.
Qed.

(** X5.  The key poll waits for the peer only in the middle of a message.
  With nothing pending it returns 0 at once and changes nothing.  With a
  header begun but not finished, or the header of a key event complete and
  its payload not, and nothing more arriving, it does not return: the
  [select] reports the descriptor readable and the [read] that follows
  waits. *)
Theorem recv_key_waits_only_inside_a_message (w : world) (Hc : connected w) :
  (rx (kern w) = [] -> doom_socket_recv_key w = Done 0 None w)
  /\ (forall a, carries (rx (kern w)) a [] ->
                (0 < length a < 8)%nat ->
                doom_socket_recv_key w = Hang)
  /\ (forall len a, 0 <= len < 256 ->
                    carries (rx (kern w)) (header MSG_KEY_EVENT len ++ a) [] ->
                    Z.of_nat (length a) < len ->
                    doom_socket_recv_key w = Hang).
Proof.
  destruct Hc as [Hfd Ho].
  assert (Hneg : (g_socket_fd w <? 0) = false) by lia.
  split; [| split].
  - intros Hrx. unfold doom_socket_recv_key. rewrite Hneg.
    unfold sys_select. rewrite Ho, Hrx. reflexivity.
  - intros a Hcar Hlen. unfold doom_socket_recv_key. rewrite Hneg.
    destruct a as [| b a']; [cbn in Hlen; lia |].
    rewrite (carries_ready _ _ b a' [] Ho Hcar). cbn [Z.leb Z.compare].
    destruct (Nat.lt_ge_cases (length (b :: a')) 4) as [Hlt | Hge].
    + rewrite (recv_exactly_starved _ _ 4 (b :: a') Ho Hcar Hlt). reflexivity.
    + rewrite <- (firstn_skipn 4 (b :: a')) in Hcar.
      assert (Hl4 : length (firstn 4 (b :: a')) = 4%nat)
        by (rewrite length_firstn; lia).
      destruct (recv_exactly_carries _ _ _ _ [] Ho Hcar) as (r1 & E1 & Hc1).
      rewrite Hl4 in E1. rewrite E1. cbn [Z.ltb Z.compare].
      rewrite (recv_exactly_starved (set_rx (kern w) r1) _ 4
                 (skipn 4 (b :: a'))).
      * reflexivity.
      * rewrite is_open_set_rx. exact Ho.
      * exact Hc1.
      * rewrite length_skipn. lia.
  - intros len a Hlen Hcar Ha.
    destruct (recv_key_header w MSG_KEY_EVENT len a [])
      as (r2 & -> & Hc2);
      [split; assumption | unfold MSG_KEY_EVENT; lia | lia | exact Hcar |].
    unfold recv_key_dispatch.
    change (MSG_KEY_EVENT =? MSG_SHUTDOWN) with false.
    change (MSG_KEY_EVENT =? MSG_KEY_EVENT) with true. cbn [negb].
    assert ((len >=? 256) = false) as -> by lia.
    rewrite (recv_exactly_starved (set_rx (kern w) r2) _ _ a).
    + reflexivity.
    + rewrite is_open_set_rx. exact Ho.
    + exact Hc2.
    + lia.
Qed.

Lemma recv_key_waits_only_inside_a_message_witness :
  let w := Vectors.connected_world [RdData [x02; x00; x00]] [] in
  connected w /\ doom_socket_recv_key w = Hang.
Proof.
  cbv zeta.
  assert (Hc : connected (Vectors.connected_world [RdData [x02; x00; x00]] [])).
  { split; [cbn; lia | reflexivity]. }
  split; [exact Hc |].
  destruct (recv_key_waits_only_inside_a_message _ Hc) as (_ & H & _).
  apply (H [x02; x00; x00]).
  - exists [[x02; x00; x00]]. split; [reflexivity |].
    split; [repeat constructor; discriminate | reflexivity].
  - cbn. lia.
Defined.

End Blocking.

(** ** Key events the poll refuses *)

Section RefusedKeyEvents.

Import Kernel DoomSocket Wire.

(** X6.  A key event whose header announces 256 bytes or more is refused
  with -1 as soon as the header is read: not one payload byte is taken from
  the stream, and the handle keeps its descriptor. *)
Theorem recv_key_oversize_key_event (w : world) (len : Z)
  (body : list byte) (rest : list rd_event)
  (Hc : connected w) (Hlen : 256 <= len < 2 ^ 32)
  (Hrx : carries (rx (kern w)) (header MSG_KEY_EVENT len ++ body) rest) :
  exists r2,
    doom_socket_recv_key w
    = Done (-1) None (with_kernel w (set_rx (kern w) r2))
    /\ carries r2 body rest.
Proof.
  destruct (recv_key_header w MSG_KEY_EVENT len body rest)
    as (r2 & E & Hc2);
    [exact Hc | unfold MSG_KEY_EVENT; lia | lia | exact Hrx |].
  exists r2. split; [| exact Hc2]. rewrite E. unfold recv_key_dispatch.
  change (MSG_KEY_EVENT =? MSG_SHUTDOWN) with false.
  change (MSG_KEY_EVENT =? MSG_KEY_EVENT) with true. cbn [negb].
  assert ((len >=? 256) = true) as -> by lia. reflexivity.
Qed.

Lemma recv_key_oversize_key_event_witness :
  let body := repeat x20 256 in
  let w := Vectors.connected_world
             [RdData (header MSG_KEY_EVENT 256 ++ body)] [] in
  exists r2,
    doom_socket_recv_key w
    = Done (-1) None (with_kernel w (set_rx (kern w) r2))
    /\ carries r2 body [].
Proof.
  cbv zeta. apply (recv_key_oversize_key_event _ 256 (repeat x20 256) []).
  - split; [cbn; lia | reflexivity].
  - lia.
  - exists [header MSG_KEY_EVENT 256 ++ repeat x20 256].
    split; [reflexivity |]. split; [| apply app_nil_r].
    constructor; [discriminate | constructor].
Defined.

(** X7.  A key event cut short by the end of the stream or by a read error,
  in its header or in its payload, makes the poll return -1; no key is
  reported. *)
Theorem recv_key_truncated_key_event (w : world) (ev : rd_event)
  (rest : list rd_event) (Hc : connected w)
  (Hev : ev = RdEof \/ exists e, ev = RdErr e) :
  (forall a, carries (rx (kern w)) a (ev :: rest) -> (length a < 8)%nat ->
             exists k', doom_socket_recv_key w
                        = Done (-1) None (with_kernel w k'))
  /\ (forall len a, 0 <= len < 256 ->
                    carries (rx (kern w)) (header MSG_KEY_EVENT len ++ a)
                            (ev :: rest) ->
                    Z.of_nat (length a) < len ->
                    exists k', doom_socket_recv_key w
                               = Done (-1) None (with_kernel w k')).
Proof.
  split.
  - intros a Hcar Hlen.
    exact (recv_key_header_short w a ev rest Hc Hev Hcar Hlen).
  - intros len a Hlen Hcar Ha.
    destruct (recv_key_header w MSG_KEY_EVENT len a (ev :: rest))
      as (r2 & -> & Hc2);
      [exact Hc | unfold MSG_KEY_EVENT; lia | lia | exact Hcar |].
    unfold recv_key_dispatch.
    change (MSG_KEY_EVENT =? MSG_SHUTDOWN) with false.
    change (MSG_KEY_EVENT =? MSG_KEY_EVENT) with true. cbn [negb].
    assert ((len >=? 256) = false) as -> by lia.
    destruct Hc as [Hfd Ho].
    destruct (recv_exactly_short (set_rx (kern w) r2) (g_socket_fd w)
                (Z.to_nat len) a ev rest Hev) as (k' & ->).
    + rewrite is_open_set_rx. exact Ho.
    + exact Hc2.
    + lia.
    + exists k'. reflexivity.
Qed.

Lemma recv_key_truncated_key_event_witness :
  let w := Vectors.connected_world
             [RdData (header MSG_KEY_EVENT 28 ++ Fmt.text "{'pressed'");
              RdEof] [] in
  exists k', doom_socket_recv_key w = Done (-1) None (with_kernel w k').
Proof.
  cbv zeta.
  destruct (recv_key_truncated_key_event
              (Vectors.connected_world
                 [RdData (header MSG_KEY_EVENT 28 ++ Fmt.text "{'pressed'");
                  RdEof] [])
              RdEof []) as [_ H].
  - split; [cbn; lia | reflexivity].
  - left. reflexivity.
  - apply (H 28 (Fmt.text "{'pressed'")).
    + lia.
    + exists [header MSG_KEY_EVENT 28 ++ Fmt.text "{'pressed'"].
      split; [reflexivity |]. split; [| apply app_nil_r].
      constructor; [discriminate | constructor].
    + cbn. lia.
Defined.

End RefusedKeyEvents.

(** ** What a send puts on the wire *)

Section Sending.

Import Kernel DoomSocket Wire.

Lemma unsent_message_progress p ps m :
  (unsent_message (p :: ps) 8 m < 8 + m)%nat.
Proof.
  cbn [unsent_message].
  pose proof (unsent_message_le ps (8 - Pos.to_nat p) m).
  pose proof (Pos2Nat.is_pos p). lia.
Qed.

(** X8.  A send is not all-or-nothing.  When a [write] returns zero or
  fails after earlier writes were accepted, [doom_socket_send_message]
  returns -1 and what those writes took stays on the outbound stream:
  exactly the leading bytes of the message (header, then payload) that
  were accepted - at least one byte, never the whole message - and the
  writes after the failing one are not issued. *)
Theorem send_failure_leaves_partial_message (w : world) (msg_type : Z)
  (payload : list byte) (ps : list positive) (e : wr_event)
  (ws : list wr_event) (Hc : connected w)
  (Hw : wr (kern w) = map WrAccept ps ++ e :: ws)
  (He : accepts e = false)
  (Hleft : (0 < unsent_message ps 8 (length payload))%nat) :
  let msg := header (msg_type mod 2 ^ 32)
                    (Z.of_nat (length payload) mod 2 ^ 32) ++ payload in
  let taken := (length msg - unsent_message ps 8 (length payload))%nat in
  exists w',
    doom_socket_send_message w msg_type payload = (-1, w')
    /\ tx (kern w') = tx (kern w) ++ firstn taken msg
    /\ wr (kern w') = ws
    /\ (taken < length msg)%nat
    /\ (ps <> [] -> (0 < taken)%nat).
Proof.
  cbv zeta.
  rewrite (send_message_refused_after w msg_type payload e ws He Hc ps Hw
             Hleft).
  assert (Hlen : length (header (msg_type mod 2 ^ 32)
                                (Z.of_nat (length payload) mod 2 ^ 32)
                         ++ payload) = (8 + length payload)%nat)
    by (rewrite length_app; reflexivity).
  rewrite Hlen.
  eexists. split; [reflexivity |]. cbn [kern with_kernel tx wr set_tx].
  split; [reflexivity |]. split; [reflexivity |]. split; [lia |].
  intros Hne. destruct ps as [| p ps]; [congruence |].
  pose proof (unsent_message_progress p ps (length payload)). lia.
Qed.

Lemma send_failure_leaves_partial_message_witness :
  let w := Vectors.connected_world [] [WrAccept 8; WrAccept 3; WrErr EPIPE] in
  let payload := Fmt.text "{'frame':0}" in
  connected w
  /\ exists w',
       doom_socket_send_message w MSG_FRAME_DATA payload = (-1, w')
       /\ tx (kern w') = header MSG_FRAME_DATA 11 ++ Fmt.text "{'f".
Proof.
  cbv zeta.
  assert (Hc : connected (Vectors.connected_world []
                            [WrAccept 8; WrAccept 3; WrErr EPIPE])).
  { split; [cbn; lia | reflexivity]. }
  split; [exact Hc |].
  destruct (send_failure_leaves_partial_message
              (Vectors.connected_world []
                 [WrAccept 8; WrAccept 3; WrErr EPIPE])
              MSG_FRAME_DATA (Fmt.text "{'frame':0}") [8; 3]%positive
              (WrErr EPIPE) [] Hc eq_refl eq_refl)
    as (w' & Hrun & Htx & _).
  - vm_compute. lia.
  - exists w'. split; [exact Hrun | exact Htx].
Defined.

(** On a Connected handle, with every [write] taking at least one byte, a
  send returns 0 and appends exactly the message. *)
Lemma send_message_accepted w msg_type payload :
  connected w -> 0 <= msg_type < 2 ^ 32 ->
  Z.of_nat (length payload) < 2 ^ 32 ->
  Forall (fun e => accepts e = true) (wr (kern w)) ->
  exists ws,
    doom_socket_send_message w msg_type payload
    = (0, with_kernel w (set_tx (kern w) ws
                           (tx (kern w) ++ message msg_type payload)))
    /\ Forall (fun e => accepts e = true) ws.
Proof.
  intros [Hfd Ho] Ht Hl Hacc. unfold doom_socket_send_message.
  assert ((g_socket_fd w <? 0) = false) as -> by lia. cbv zeta.
  rewrite !Z.mod_small by lia.
  destruct (send_exactly (kern w) (g_socket_fd w) _) as [r1 k1] eqn:E1.
  apply send_exactly_spec in E1.
  destruct E1 as (_ & (ws1 & more1 & -> & Hm1) & Hok1).
  destruct (Hok1 Ho Hacc) as [-> Hacc1]. specialize (Hm1 eq_refl).
  subst more1. cbn [Z.ltb Z.compare].
  destruct (send_exactly _ (g_socket_fd w) payload) as [r2 k2] eqn:E2.
  apply send_exactly_spec in E2.
  destruct E2 as (_ & (ws2 & more2 & -> & Hm2) & Hok2).
  destruct (Hok2 Ho Hacc1) as [-> Hacc2]. specialize (Hm2 eq_refl).
  subst more2. cbn [Z.ltb Z.compare].
  exists ws2. split; [| exact Hacc2].
  unfold message, set_tx. cbn [tx wr rx socket_ret connect_ret malloc_ok
                               open_fds].
  rewrite <- !app_assoc. reflexivity.
Qed.

(** Reading one message when more bytes follow it. *)
Lemma recv_message_then k fd msg_type payload more rest :
  is_open k fd = true ->
  0 <= msg_type < 2 ^ 32 ->
  Z.of_nat (length payload) < 2 ^ 32 ->
  carries (rx k) (message msg_type payload ++ more) rest ->
  exists r, recv_message k fd = Done 0 (msg_type, payload) (set_rx k r)
            /\ carries r more rest.
Proof.
  intros Ho Ht Hl Hc. unfold message in Hc. rewrite <- !app_assoc in Hc.
  unfold recv_message.
  change 4%nat with (length (bytes_of_u32 msg_type)) at 1.
  destruct (recv_exactly_carries k fd _ _ rest Ho Hc) as (r1 & -> & Hc1).
  cbn [Z.ltb Z.compare].
  change 4%nat with (length (bytes_of_u32 (Z.of_nat (length payload)))).
  destruct (recv_exactly_carries (set_rx k r1) fd _ _ rest Ho Hc1)
    as (r2 & -> & Hc2).
  cbn [Z.ltb Z.compare]. cbv zeta.
  rewrite !u32_of_bytes_of_u32 by lia. rewrite Nat2Z.id.
  destruct (recv_exactly_carries (set_rx (set_rx k r1) r2) fd _ _ rest Ho Hc2)
    as (r3 & -> & Hc3).
  cbn [Z.ltb Z.compare]. rewrite !set_rx_twice.
  exists r3. split; [reflexivity | exact Hc3].
Qed.

(** X9.  Messages keep their boundaries and their order.  Two sends in a
  row on a Connected handle whose writes are all accepted put the two
  messages back to back on the outbound stream, and a reader that takes
  header, length and payload with [recv_exactly] gets the first message and
  then the second, however the bytes are cut into reads. *)
Theorem messages_arrive_whole_and_in_order (w : world) (t1 t2 : Z)
  (p1 p2 : list byte) (Hc : connected w)
  (Ht1 : 0 <= t1 < 2 ^ 32) (Ht2 : 0 <= t2 < 2 ^ 32)
  (Hl1 : Z.of_nat (length p1) < 2 ^ 32)
  (Hl2 : Z.of_nat (length p2) < 2 ^ 32)
  (Hacc : Forall (fun e => accepts e = true) (wr (kern w))) :
  (exists w1 w2,
      doom_socket_send_message w t1 p1 = (0, w1)
      /\ doom_socket_send_message w1 t2 p2 = (0, w2)
      /\ tx (kern w2) = tx (kern w) ++ message t1 p1 ++ message t2 p2)
  /\ (forall pk pfd rest,
         is_open pk pfd = true ->
         carries (rx pk) (message t1 p1 ++ message t2 p2) rest ->
         exists pk1,
           recv_message pk pfd = Done 0 (t1, p1) pk1
           /\ recv_message pk1 pfd = Done 0 (t2, p2) (set_rx pk rest)).
Proof.
  split.
  - destruct (send_message_accepted w t1 p1 Hc Ht1 Hl1 Hacc)
      as (ws1 & E1 & Hacc1).
    set (w1 := with_kernel w (set_tx (kern w) ws1
                                (tx (kern w) ++ message t1 p1))) in *.
    assert (Hc1 : connected w1).
    { destruct Hc as [Hfd Ho]. split; [exact Hfd | exact Ho]. }
    destruct (send_message_accepted w1 t2 p2 Hc1 Ht2 Hl2 Hacc1)
      as (ws2 & E2 & _).
    exists w1. eexists. split; [exact E1 |]. split; [exact E2 |].
    cbn [kern with_kernel tx set_tx w1]. rewrite <- app_assoc. reflexivity.
  - intros pk pfd rest Ho Hcar.
    destruct (recv_message_then pk pfd t1 p1 _ rest Ho Ht1 Hl1 Hcar)
      as (r & E1 & Hc1).
    exists (set_rx pk r). split; [exact E1 |].
    rewrite (recv_message_carries (set_rx pk r) pfd t2 p2 rest);
      [rewrite set_rx_twice; reflexivity | | assumption .. ].
    rewrite is_open_set_rx. exact Ho.
Qed.

Lemma messages_arrive_whole_and_in_order_witness :
  let w := Vectors.connected_world [] [WrAccept 5] in
  let p1 := Fmt.text "{'frame':0}" in
  let p2 := Fmt.text "{'sdl_path':'a.bmp'}" in
  connected w
  /\ exists w1 w2,
       doom_socket_send_message w MSG_FRAME_DATA p1 = (0, w1)
       /\ doom_socket_send_message w1 MSG_SCREENSHOT p2 = (0, w2)
       /\ tx (kern w2)
          = tx (kern w) ++ message MSG_FRAME_DATA p1
            ++ message MSG_SCREENSHOT p2.
Proof.
  cbv zeta.
  assert (Hc : connected (Vectors.connected_world [] [WrAccept 5])).
  { split; [cbn; lia | reflexivity]. }
  split; [exact Hc |].
  apply (messages_arrive_whole_and_in_order
           (Vectors.connected_world [] [WrAccept 5])
           MSG_FRAME_DATA MSG_SCREENSHOT
           (Fmt.text "{'frame':0}") (Fmt.text "{'sdl_path':'a.bmp'}") Hc).
  - unfold MSG_FRAME_DATA. lia.
  - unfold MSG_SCREENSHOT. lia.
  - vm_compute. reflexivity.
  - vm_compute. reflexivity.
  - repeat constructor.
Defined.

End Sending.

(** ** Start-up *)

Section StartingUp.

Import Kernel DoomSocket Wire Startup.

Lemma is_open_set_fds_cons k fd fd' :
  fd' <> fd ->
  is_open (set_fds k (fd :: open_fds k)) fd' = is_open k fd'.
Proof.
  intros Hne. unfold is_open. cbn [open_fds set_fds existsb].
  destruct (Z.eqb_spec fd' fd); [contradiction | reflexivity].
Qed.

(** [doom_socket_connect] writes nothing and touches no descriptor but the
  one [socket] gave it. *)
Lemma connect_touches w ret w' :
  doom_socket_connect w = Done ret tt w' ->
  tx (kern w') = tx (kern w)
  /\ wr (kern w') = wr (kern w)
  /\ (forall fd, fd <> socket_ret (kern w) ->
                 is_open (kern w') fd = is_open (kern w) fd).
Proof.
  unfold doom_socket_connect, sys_socket.
  set (fd0 := socket_ret (kern w)).
  destruct (fd0 <? 0) eqn:Efd.
  { rewrite Efd. intros [= _ <-]. cbn [kern]. auto. }
  rewrite Efd.
  set (k0 := set_fds (kern w) (fd0 :: open_fds (kern w))).
  assert (Hk0 : forall r, tx (set_rx k0 r) = tx (kern w)
                          /\ wr (set_rx k0 r) = wr (kern w)
                          /\ (forall fd, fd <> fd0 ->
                                is_open (set_rx k0 r) fd
                                = is_open (kern w) fd)).
  { intros r. split; [reflexivity |]. split; [reflexivity |].
    intros fd Hne. rewrite is_open_set_rx.
    apply is_open_set_fds_cons. exact Hne. }
  assert (Hcl : forall r, tx (kern (closed_world (set_rx k0 r) fd0))
                          = tx (kern w)
                          /\ wr (kern (closed_world (set_rx k0 r) fd0))
                             = wr (kern w)
                          /\ (forall fd, fd <> fd0 ->
                                is_open (kern (closed_world (set_rx k0 r) fd0))
                                        fd
                                = is_open (kern w) fd)).
  { intros r. split; [reflexivity |]. split; [reflexivity |].
    intros fd Hne. cbn [kern closed_world].
    rewrite is_open_close_other by exact Hne. apply Hk0. exact Hne. }
  pose proof (Hcl (rx k0)) as Hcl0. rewrite set_rx_same in Hcl0.
  destruct (connect_ret k0 <? 0); [intros [= _ <-]; exact Hcl0 |].
  destruct (recv_exactly k0 fd0 4) as [r1 b1 k1 |] eqn:E1; [| discriminate].
  apply recv_exactly_only_rx in E1. destruct E1 as (_ & x1 & ->).
  destruct (r1 <? 0); [intros [= _ <-]; apply Hcl |].
  destruct (recv_exactly _ fd0 4) as [r2 b2 k2 |] eqn:E2; [| discriminate].
  apply recv_exactly_only_rx in E2. destruct E2 as (_ & x2 & ->).
  rewrite set_rx_twice.
  destruct (r2 <? 0); [intros [= _ <-]; apply Hcl |]. cbv zeta.
  destruct (negb _); [intros [= _ <-]; apply Hcl |].
  destruct (_ && _).
  - destruct (recv_exactly _ fd0 _) as [r3 b3 k3 |] eqn:E3; [| discriminate].
    apply recv_exactly_only_rx in E3. destruct E3 as (_ & x3 & ->).
    rewrite set_rx_twice. intros [= _ <-]. apply Hk0.
  - intros [= _ <-]. apply Hk0.
Qed.

(** With a peer that accepts the connection and then sends less than a
  header and nothing more, the connect never returns. *)
Lemma connect_starved w a :
  0 <= socket_ret (kern w) -> 0 <= connect_ret (kern w) ->
  carries (rx (kern w)) a [] -> (length a < 8)%nat ->
  doom_socket_connect w = Hang.
Proof.
  intros Hs Hcn Hcar Hlen. unfold doom_socket_connect.
  destruct (sys_socket_ok (kern w) Hs) as [-> Ho].
  set (fd := socket_ret (kern w)) in *.
  set (k0 := set_fds (kern w) (fd :: open_fds (kern w))) in *.
  assert ((fd <? 0) = false) as -> by lia.
  assert ((connect_ret k0 <? 0) = false) as -> by (cbn; lia).
  change (rx (kern w)) with (rx k0) in Hcar.
  destruct (Nat.lt_ge_cases (length a) 4) as [Hlt | Hge].
  - rewrite (recv_exactly_starved k0 fd 4 a Ho Hcar Hlt). reflexivity.
  - rewrite <- (firstn_skipn 4 a) in Hcar.
    assert (Hl4 : length (firstn 4 a) = 4%nat)
      by (rewrite length_firstn; lia).
    destruct (recv_exactly_carries _ _ _ _ [] Ho Hcar) as (r1 & E1 & Hc1).
    rewrite Hl4 in E1. rewrite E1. cbn [Z.ltb Z.compare].
    rewrite (recv_exactly_starved (set_rx k0 r1) fd 4 (skipn 4 a)).
    + reflexivity.
    + rewrite is_open_set_rx. exact Ho.
    + exact Hc1.
    + rewrite length_skipn. lia.
Qed.

(** X10.  [doom_socket_connect] only listens: whatever its result it has
  written nothing to the stream, and it has opened or closed no descriptor
  but the one [socket] returned - so a handle that was already Connected
  loses track of its old descriptor, which stays open. *)
Theorem connect_only_listens (w w' : world) (ret : Z)
  (Hrun : doom_socket_connect w = Done ret tt w') :
  tx (kern w') = tx (kern w)
  /\ wr (kern w') = wr (kern w)
  /\ (forall fd, fd <> socket_ret (kern w) ->
                 is_open (kern w') fd = is_open (kern w) fd)
  /\ (connected w -> g_socket_fd w <> socket_ret (kern w) ->
      g_socket_fd w' <> g_socket_fd w
      /\ is_open (kern w') (g_socket_fd w) = true).
Proof.
  destruct (connect_touches w ret w' Hrun) as (Ht & Hw & Hfd).
  split; [exact Ht |]. split; [exact Hw |]. split; [exact Hfd |].
  intros [Hge Ho] Hne. split.
  - apply connect_results in Hrun.
    destruct Hrun as [(_ & -> & _) | (_ & Hneg & _)]; [congruence | lia].
  - rewrite Hfd by exact Hne. exact Ho.
Qed.

Lemma connect_only_listens_witness :
  let k := {| socket_ret := 4; connect_ret := 0; malloc_ok := fun _ => true;
              open_fds := [3];
              rx := [RdData (header MSG_INIT_COMPLETE 0)];
              wr := []; tx := [] |} in
  let w := {| g_socket_fd := 3; kern := k |} in
  exists w',
    doom_socket_connect w = Done 0 tt w'
    /\ g_socket_fd w' = 4
    /\ is_open (kern w') 3 = true
    /\ tx (kern w') = [].
Proof.
  cbv zeta. eexists. split; [reflexivity |]. split; [reflexivity |].
  match goal with
  | |- is_open (kern ?w') 3 = true /\ _ =>
    destruct (connect_only_listens
                {| g_socket_fd := 3;
                   kern := {| socket_ret := 4; connect_ret := 0;
                              malloc_ok := fun _ => true; open_fds := [3];
                              rx := [RdData (header MSG_INIT_COMPLETE 0)];
                              wr := []; tx := [] |} |} w' 0 eq_refl)
      as (Ht & _ & _ & Hold)
  end.
  split; [| exact Ht].
  apply Hold; [split; [cbn; lia | reflexivity] | cbn; lia].
Defined.

(** A header that names another message type makes the connect fail. *)
Lemma connect_wrong_tag w msg_type len body rest :
  0 <= socket_ret (kern w) -> 0 <= connect_ret (kern w) ->
  0 <= msg_type < 2 ^ 32 -> 0 <= len < 2 ^ 32 ->
  msg_type <> MSG_INIT_COMPLETE ->
  carries (rx (kern w)) (header msg_type len ++ body) rest ->
  exists k', doom_socket_connect w
             = Done (-1) tt (closed_world k' (socket_ret (kern w))).
Proof.
  intros Hfd Hcon Ht Hl Hne Hcar.
  destruct (connect_header w msg_type len body rest Hfd Hcon Ht Hl Hcar)
    as (r2 & -> & _).
  unfold connect_dispatch.
  assert ((msg_type =? MSG_INIT_COMPLETE) = false) as ->
    by (apply Z.eqb_neq; exact Hne).
  cbn [negb]. eexists. reflexivity.
Qed.

Lemma DG_Init_exits_when w w' :
  doom_socket_connect w = Done (-1) tt w' -> DG_Init w = InitExits 1 w'.
Proof. intros E. unfold DG_Init. rewrite E. reflexivity. Qed.

Lemma DG_Init_exits_released w w' :
  0 <= socket_ret (kern w) ->
  doom_socket_connect w = Done (-1) tt w' ->
  DG_Init w = InitExits 1 w' /\ released w' (socket_ret (kern w)).
Proof.
  intros Hfd E. split; [apply DG_Init_exits_when; exact E |].
  apply connect_results in E.
  destruct E as [(Hr & _) | (_ & _ & Hrel)]; [discriminate Hr |].
  apply Hrel. exact Hfd.
Qed.

(** X11.  [DG_Init] hands control back exactly when the connect succeeds,
  and then on a Connected handle with nothing written yet.  A failed
  connect makes it exit with status 1, the handle Disconnected: it exits
  exactly when the connect returns -1, which is what happens when no
  socket can be created, when the connection is refused, when the stream
  ends or fails inside the first header, and when that header names
  another message type; in the last three cases the descriptor has been
  closed.  With a peer that accepts the connection but sends less than a
  header and nothing more it never comes back. *)
Theorem DG_Init_returns_connected (w : world) :
  (forall w', DG_Init w = InitReturns w'
              <-> doom_socket_connect w = Done 0 tt w')
  /\ (forall code w', DG_Init w = InitExits code w'
                      <-> code = 1 /\ doom_socket_connect w = Done (-1) tt w')
  /\ (forall w', DG_Init w = InitReturns w' ->
                 connected w' /\ doom_socket_is_connected w' = 1
                 /\ tx (kern w') = tx (kern w))
  /\ (forall code w', DG_Init w = InitExits code w' ->
                      code = 1 /\ doom_socket_is_connected w' = 0
                      /\ tx (kern w') = tx (kern w))
  /\ (socket_ret (kern w) < 0 -> exists w', DG_Init w = InitExits 1 w')
  /\ (0 <= socket_ret (kern w) -> connect_ret (kern w) < 0 ->
      exists w', DG_Init w = InitExits 1 w'
                 /\ released w' (socket_ret (kern w)))
  /\ (0 <= socket_ret (kern w) -> 0 <= connect_ret (kern w) ->
      (forall a ev rest,
          (ev = RdEof \/ exists e, ev = RdErr e) ->
          carries (rx (kern w)) a (ev :: rest) -> (length a < 8)%nat ->
          exists w', DG_Init w = InitExits 1 w'
                     /\ released w' (socket_ret (kern w)))
      /\ (forall msg_type len body rest,
             0 <= msg_type < 2 ^ 32 -> 0 <= len < 2 ^ 32 ->
             msg_type <> MSG_INIT_COMPLETE ->
             carries (rx (kern w)) (header msg_type len ++ body) rest ->
             exists w', DG_Init w = InitExits 1 w'
                        /\ released w' (socket_ret (kern w)))
      /\ (forall a, carries (rx (kern w)) a [] -> (length a < 8)%nat ->
                    DG_Init w = InitWaits)).
Proof.
  assert (Hret : forall w', DG_Init w = InitReturns w'
                            <-> doom_socket_connect w = Done 0 tt w').
  { intros w1. unfold DG_Init. split.
    - destruct (doom_socket_connect w) as [r [] w2 |] eqn:E;
        [| discriminate].
      destruct (r <? 0) eqn:Er; [discriminate |]. intros [= ->].
      apply connect_results in E.
      destruct E as [(-> & _) | (-> & _)]; [reflexivity | discriminate Er].
    - intros ->. reflexivity. }
  assert (Hex : forall code w',
             DG_Init w = InitExits code w'
             <-> code = 1 /\ doom_socket_connect w = Done (-1) tt w').
  { intros code w1. unfold DG_Init. split.
    - destruct (doom_socket_connect w) as [r [] w2 |] eqn:E;
        [| discriminate].
      destruct (r <? 0) eqn:Er; [| discriminate]. intros [= <- ->].
      apply connect_results in E.
      destruct E as [(-> & _) | (-> & _)]; [discriminate Er | auto].
    - intros [-> ->]. reflexivity. }
  split; [exact Hret |]. split; [exact Hex |].
  split; [| split; [| split; [| split]]].
  - intros w1 H. apply Hret in H.
    destruct (connect_touches _ _ _ H) as (Ht & _).
    apply connect_results in H.
    destruct H as [(_ & _ & Hc) | (Hr & _)]; [| discriminate Hr].
    split; [exact Hc |]. split; [| exact Ht].
    destruct Hc as [Hge _]. unfold doom_socket_is_connected.
    assert ((g_socket_fd w1 >=? 0) = true) as -> by lia. reflexivity.
  - intros code w1 H. apply Hex in H. destruct H as [-> H].
    destruct (connect_touches _ _ _ H) as (Ht & _).
    apply connect_results in H.
    destruct H as [(Hr & _) | (_ & Hneg & _)]; [discriminate Hr |].
    split; [reflexivity |]. split; [| exact Ht].
    unfold doom_socket_is_connected.
    assert ((g_socket_fd w1 >=? 0) = false) as -> by lia. reflexivity.
  - intros Hneg. eexists. apply DG_Init_exits_when.
    unfold doom_socket_connect, sys_socket.
    assert ((socket_ret (kern w) <? 0) = true) as -> by lia.
    assert ((socket_ret (kern w) <? 0) = true) as -> by lia.
    reflexivity.
  - intros Hfd Hneg. eexists. apply DG_Init_exits_released; [exact Hfd |].
    unfold doom_socket_connect.
    destruct (sys_socket_ok (kern w) Hfd) as [-> _].
    assert ((socket_ret (kern w) <? 0) = false) as -> by lia.
    cbn [connect_ret set_fds].
    assert ((connect_ret (kern w) <? 0) = true) as -> by lia.
    reflexivity.
  - intros Hfd Hcon. split; [| split].
    + intros a ev rest Hev Hcar Hlen.
      destruct (connect_header_short w a ev rest Hfd Hcon Hev Hcar Hlen)
        as (k' & E).
      eexists. apply DG_Init_exits_released; [exact Hfd | exact E].
    + intros msg_type len body rest Ht Hl Hne Hcar.
      destruct (connect_wrong_tag w msg_type len body rest Hfd Hcon Ht Hl
                  Hne Hcar) as (k' & E).
      eexists. apply DG_Init_exits_released; [exact Hfd | exact E].
    + intros a Hcar Hlen.
      unfold DG_Init. rewrite (connect_starved w a Hfd Hcon Hcar Hlen).
      reflexivity.
Qed.

End StartingUp.

(** ** Header words *)

Section HeaderWords.

Import Kernel DoomSocket Wire.

Lemma byte_of_Z_of_byte b : byte_of_Z (Z_of_byte b) = b.
Proof.
  unfold byte_of_Z. pose proof (Z_of_byte_range b) as Hr.
  rewrite Z.mod_small by exact Hr. unfold Z_of_byte.
  rewrite N2Z.id, Byte.of_to_N. reflexivity.
Qed.

Lemma byte_of_Z_low b z : byte_of_Z (Z_of_byte b + 256 * z) = b.
Proof.
  assert (H : (Z_of_byte b + 256 * z) mod 256 = Z_of_byte b mod 256)
    by (rewrite (Z.mul_comm 256 z); apply Z_mod_plus_full).
  rewrite <- (byte_of_Z_of_byte b) at 2. unfold byte_of_Z. rewrite H.
  reflexivity.
Qed.

Lemma shiftr_low b z n :
  0 <= n -> Z.shiftr (Z_of_byte b + 256 * z) (8 + n) = Z.shiftr z n.
Proof.
  intros Hn. pose proof (Z_of_byte_range b) as Hr.
  rewrite <- Z.shiftr_shiftr by lia. f_equal.
  rewrite Z.shiftr_div_pow2 by lia. change (2 ^ 8) with 256.
  rewrite (Z.mul_comm 256 z), Z.div_add by lia.
  rewrite Z.div_small by exact Hr. lia.
Qed.

(** X12.  The header words survive the trip through memory in both
  directions: a 32-bit value is read back from its four bytes, four bytes
  are rebuilt from the value they encode, and any four bytes decode to a
  value below 2^32. *)
Theorem header_word_round_trip (z : Z) (b0 b1 b2 b3 : byte) :
  u32_of_bytes (bytes_of_u32 (z mod 2 ^ 32)) = z mod 2 ^ 32
  /\ bytes_of_u32 (u32_of_bytes [b0; b1; b2; b3]) = [b0; b1; b2; b3]
  /\ 0 <= u32_of_bytes [b0; b1; b2; b3] < 2 ^ 32.
Proof.
  split; [| split].
  - apply u32_of_bytes_of_u32. apply Z.mod_pos_bound. lia.
  - unfold bytes_of_u32. cbn [u32_of_bytes]. rewrite Z.mul_0_r, Z.add_0_r.
    rewrite byte_of_Z_low.
    rewrite (shiftr_low b0 _ 0) by lia. rewrite Z.shiftr_0_r.
    rewrite byte_of_Z_low.
    change 16 with (8 + 8). rewrite shiftr_low by lia.
    rewrite (shiftr_low b1 _ 0) by lia. rewrite Z.shiftr_0_r.
    rewrite byte_of_Z_low.
    change 24 with (8 + 16). rewrite shiftr_low by lia.
    change 16 with (8 + 8). rewrite shiftr_low by lia.
    rewrite (shiftr_low b2 _ 0) by lia. rewrite Z.shiftr_0_r.
    rewrite byte_of_Z_of_byte. reflexivity.
  - cbn [u32_of_bytes].
    pose proof (Z_of_byte_range b0). pose proof (Z_of_byte_range b1).
    pose proof (Z_of_byte_range b2). pose proof (Z_of_byte_range b3).
    change (2 ^ 32) with 4294967296. lia.
Qed.

End HeaderWords.

(** ** The key event parser *)

Section KeyParser.

Import Kernel DoomSocket Wire.

Lemma starts_with_app needle : forall rest,
  starts_with needle (needle ++ rest) = true.
Proof.
  induction needle as [| c needle IH]; intros rest; [reflexivity |].
  cbn [app starts_with]. rewrite IH.
  destruct c; reflexivity.
Qed.

Lemma starts_with_inv needle : forall hay,
  starts_with needle hay = true -> exists rest, hay = needle ++ rest.
Proof.
  induction needle as [| c needle IH]; intros hay H.
  - exists hay. reflexivity.
  - destruct hay as [| h hay]; [discriminate H |]. cbn [starts_with] in H.
    apply andb_prop in H. destruct H as [Hc Hn].
    apply Byte.byte_dec_bl in Hc. subst h.
    destruct (IH hay Hn) as (rest & ->). exists rest. reflexivity.
Qed.

Lemma strstr_eq hay needle :
  strstr hay needle
  = if starts_with needle hay then Some hay
    else match hay with
         | [] => None
         | _ :: rest => strstr rest needle
         end.
Proof. destruct hay; reflexivity. Qed.

(** What [strstr] returns starts with the needle and is a tail of the
  text. *)
Lemma strstr_some needle : forall hay s,
  strstr hay needle = Some s ->
  exists a rest, hay = a ++ s /\ s = needle ++ rest.
Proof.
  induction hay as [| h hay IH]; intros s; rewrite strstr_eq;
    destruct (starts_with needle _) eqn:E.
  - intros [= <-]. apply starts_with_inv in E. destruct E as (rest & E).
    exists [], rest. split; [reflexivity | exact E].
  - discriminate.
  - intros [= <-]. apply starts_with_inv in E. destruct E as (rest & E).
    exists [], rest. split; [reflexivity | exact E].
  - intros H. destruct (IH s H) as (a & rest & -> & Hs).
    exists (h :: a), rest. split; [reflexivity | exact Hs].
Qed.

(** [strstr] finds the needle wherever it occurs, at that place or
  before. *)
Lemma strstr_find needle b : forall a,
  exists n s, strstr (a ++ needle ++ b) needle = Some s
              /\ s = skipn n a ++ needle ++ b
              /\ (n <= length a)%nat.
Proof.
  induction a as [| x a IH]; rewrite strstr_eq.
  - cbn [app]. rewrite starts_with_app. exists 0%nat, (needle ++ b).
    split; [reflexivity |]. split; [reflexivity | cbn; lia].
  - destruct (starts_with needle _) eqn:E.
    + exists 0%nat, ((x :: a) ++ needle ++ b). split; [reflexivity |].
      split; [reflexivity | cbn; lia].
    + cbn [app]. destruct IH as (n & s & Hs & Hsk & Hl).
      exists (S n), s. split; [exact Hs |].
      cbn [length skipn]. split; [exact Hsk | lia].
Qed.

Lemma strstr_none needle hay :
  strstr hay needle = None ->
  forall a b, hay <> a ++ needle ++ b.
Proof.
  intros Hn a b ->. destruct (strstr_find needle b a) as (n1 & s & Hs & _).
  congruence.
Qed.

(** X13.  How lenient the key event parser is about the pressed flag: it
  is 1 exactly when the text [true] stands somewhere after the first
  ["pressed":] - in that field or in any later one - and 0 otherwise, also
  when the field is missing. *)
Theorem parse_pressed_meaning (json : list byte) :
  (parse_pressed json = 1
   <-> exists a b c,
         json = a ++ Fmt.text "'pressed':" ++ b ++ Fmt.text "true" ++ c)
  /\ (parse_pressed json = 0 \/ parse_pressed json = 1).
Proof.
  unfold parse_pressed. split.
  - split.
    + destruct (strstr json (Fmt.text "'pressed':")) as [s1 |] eqn:E1;
        [| discriminate].
      destruct (strstr s1 (Fmt.text "true")) as [s2 |] eqn:E2;
        [| discriminate].
      intros _.
      destruct (strstr_some _ _ _ E1) as (a & r & -> & Hs1).
      destruct (strstr_some _ _ _ E2) as (a2 & c & Hs1' & ->).
      rewrite Hs1 in Hs1'.
      apply app_eq_app in Hs1'. destruct Hs1' as (l & [[HP HT] | [Ha2 Hr]]).
      * destruct l as [| x l].
        -- rewrite app_nil_r in HP. subst a2.
           exists a, [], c. rewrite Hs1. cbn [app] in HT.
           rewrite <- HT. reflexivity.
        -- exfalso. change (Fmt.text "true") with (x74 :: Fmt.text "rue") in HT.
           cbn [app] in HT. injection HT as Hx _. subst x.
           assert (Hin : In x74 (Fmt.text "'pressed':")).
           { rewrite HP. apply in_or_app. right. left. reflexivity. }
           vm_compute in Hin.
           repeat (destruct Hin as [Hin | Hin]; [discriminate Hin |]).
           exact Hin.
      * exists a, l, c. rewrite Hs1, Hr. reflexivity.
    + intros (a & b & c & ->).
      destruct (strstr_find (Fmt.text "'pressed':")
                  (b ++ Fmt.text "true" ++ c) a)
        as (n1 & s1 & -> & Hs1 & _).
      rewrite Hs1.
      replace (skipn n1 a ++ Fmt.text "'pressed':" ++ b
               ++ Fmt.text "true" ++ c)
        with ((skipn n1 a ++ Fmt.text "'pressed':" ++ b)
              ++ Fmt.text "true" ++ c)
        by (rewrite <- !app_assoc; reflexivity).
      destruct (strstr_find (Fmt.text "true") c
                  (skipn n1 a ++ Fmt.text "'pressed':" ++ b))
        as (a2 & s2 & -> & _).
      reflexivity.
  - destruct (strstr json _); [| auto].
    destruct (strstr _ _); auto.
Qed.

(** The first occurrence: when the needle does not start inside [a], the
  search through [a ++ needle ++ r] stops right after [a]. *)
Lemma strstr_first init c r : forall a,
  strstr (a ++ init) (init ++ [c]) = None ->
  strstr (a ++ (init ++ [c]) ++ r) (init ++ [c])
  = Some ((init ++ [c]) ++ r).
Proof.
  assert (Hsw : forall needle hay more,
             (length needle <= length hay)%nat ->
             starts_with needle (hay ++ more) = starts_with needle hay).
  { induction needle as [| n needle IH]; intros hay more Hl; [reflexivity |].
    destruct hay as [| h hay]; [cbn in Hl; lia |].
    cbn [app starts_with]. rewrite IH by (cbn in Hl; lia). reflexivity. }
  induction a as [| x a IH]; intros Hnone.
  - cbn [app]. rewrite strstr_eq, starts_with_app. reflexivity.
  - rewrite strstr_eq in Hnone. rewrite strstr_eq.
    destruct (starts_with (init ++ [c]) ((x :: a) ++ init)) eqn:E;
      [discriminate Hnone |].
    cbn [app] in Hnone.
    replace ((x :: a) ++ (init ++ [c]) ++ r)
      with (((x :: a) ++ init) ++ [c] ++ r)
      by (rewrite <- !app_assoc; reflexivity).
    rewrite Hsw by (rewrite !length_app; cbn [length]; lia).
    rewrite E. cbn [app].
    replace ((a ++ init) ++ c :: r) with (a ++ (init ++ [c]) ++ r)
      by (rewrite <- !app_assoc; reflexivity).
    apply IH. exact Hnone.
Qed.

Lemma skip_blanks ws : forall s,
  Forall (fun b => is_blank b = true) ws ->
  match s with [] => True | b :: _ => is_blank b = false end ->
  skip is_blank (ws ++ s) = s.
Proof.
  induction ws as [| b ws IH]; intros s Hws Hs.
  - cbn [app]. destruct s as [| b s]; [reflexivity |]. cbn [skip].
    rewrite Hs. reflexivity.
  - inversion Hws as [| ? ? Hb Hrest]; subst. cbn [app skip]. rewrite Hb.
    apply IH; assumption.
Qed.

(** X14.  How the parser finds the key code: it is the integer printed
  after the first ["key":] and any blanks or tabs, wherever that field
  stands in the text and whatever follows the number; a text without
  ["key":] gives key 0. *)
Theorem parse_key_meaning (json a ws rest : list byte) (n : Z) :
  ((forall x y, json <> x ++ Fmt.text "'key':" ++ y) -> parse_key json = 0)
  /\ (strstr (a ++ Fmt.text "'key'") (Fmt.text "'key':") = None ->
      Forall (fun b => is_blank b = true) ws ->
      Int32.in_range n ->
      match rest with [] => True | b :: _ => Json.is_digit b = false end ->
      parse_key (a ++ Fmt.text "'key':" ++ ws ++ Fmt.fmt_d n ++ rest) = n).
Proof.
  unfold parse_key. split.
  - intros Hno. destruct (strstr json _) as [s |] eqn:E; [| reflexivity].
    destruct (strstr_some _ _ _ E) as (x & y & -> & ->).
    exfalso. exact (Hno x y eq_refl).
  - intros Hfirst Hws Hn Hrest.
    change (Fmt.text "'key':") with (Fmt.text "'key'" ++ [x3a]).
    rewrite strstr_first by exact Hfirst.
    change (skipn 6 ((Fmt.text "'key'" ++ [x3a])
                     ++ ws ++ Fmt.fmt_d n ++ rest))
      with (ws ++ Fmt.fmt_d n ++ rest).
    rewrite skip_blanks.
    + apply atoi_fmt_d; assumption.
    + exact Hws.
    + destruct (fmt_d_head n) as (b & tl & -> & Hb). cbn [app].
      destruct Hb as [-> | Hb]; [reflexivity |].
      apply is_digit_facts. exact Hb.
Qed.

Lemma parse_key_meaning_witness :
  parse_key (Fmt.text "{'pressed': true, " ++ Fmt.text "'key':" ++ [x20; x09]
             ++ Fmt.fmt_d (-7) ++ Fmt.text ", 'key': 9}") = -7.
Proof.
  destruct (parse_key_meaning [] (Fmt.text "{'pressed': true, ") [x20; x09]
              (Fmt.text ", 'key': 9}") (-7)) as [_ H].
  apply H.
  - reflexivity.
  - repeat constructor.
  - unfold Int32.in_range, Int32.min_signed, Int32.max_signed. lia.
  - reflexivity.
Defined.

(** X15.  The payload is read as a C string: a zero byte ends it, and
  nothing after the zero byte reaches the parser.  The key event delivered
  for [text ++ [0] ++ tail] is the one delivered for [text]. *)
Theorem recv_key_stops_at_nul (w : world) (text tail : list byte)
  (rest : list rd_event) (Hc : connected w)
  (Htext : Forall (fun c => Byte.eqb c x00 = false) text)
  (Hlen : Z.of_nat (length (text ++ x00 :: tail)) < 256)
  (Hrx : carries (rx (kern w))
                 (message MSG_KEY_EVENT (text ++ x00 :: tail)) rest) :
  doom_socket_recv_key w
  = Done 1 (Some {| pressed := parse_pressed text;
                    key := parse_key text mod 256 |})
         (with_kernel w (set_rx (kern w) rest)).
Proof.
  rewrite (recv_key_event w _ rest Hc Hlen Hrx).
  rewrite cstr_app by exact Htext. cbn [cstr].
  change (Byte.eqb x00 x00) with true. cbv iota. rewrite app_nil_r.
  reflexivity.
Qed.

Lemma recv_key_stops_at_nul_witness :
  let text := Fmt.text "{'pressed': false, 'key': 13}" in
  let tail := Fmt.text "{'pressed': true, 'key': 27}" in
  let w := Vectors.connected_world
             [RdData (message MSG_KEY_EVENT (text ++ x00 :: tail))] [] in
  doom_socket_recv_key w
  = Done 1 (Some {| pressed := 0; key := 13 |})
         (Vectors.connected_world [] []).
Proof.
  cbv zeta.
  rewrite (recv_key_stops_at_nul
             (Vectors.connected_world
                [RdData (message MSG_KEY_EVENT
                           (Fmt.text "{'pressed': false, 'key': 13}"
                            ++ x00 :: Fmt.text "{'pressed': true, 'key': 27}"))]
                [])
             (Fmt.text "{'pressed': false, 'key': 13}")
             (Fmt.text "{'pressed': true, 'key': 27}") []).
  - reflexivity.
  - split; [cbn; lia | reflexivity].
  - vm_compute. repeat constructor.
  - vm_compute. reflexivity.
  - eexists [_]. split; [reflexivity |].
    split; [repeat constructor; discriminate | apply app_nil_r].
Defined.

End KeyParser.

(** ** The weapon overlay and the depth scale *)

Section Overlay.

Import Sampler.

(** X16.  In a valid view the weapon overlay, when the weapon slot has a
  state, is placed inside the view: [0 <= x < viewwidth] and
  [0 <= y < viewheight], whatever the sprite offsets are.  When the
  offsets are 32-bit values and the view is at most 2^30 rows high, the
  position is [sx >> 16] plus half the width, and [sy >> 16] plus the
  height minus 32, each clamped to the view.  Without a state there is no
  overlay. *)
Theorem weapon_overlay_in_view (v : view_t) (Hv : valid_view v) :
  (psp_state (weapon_psp v) = false <-> sample_weapon v = None)
  /\ (forall wx wy, sample_weapon v = Some (wx, wy) ->
        0 <= wx < viewwidth v /\ 0 <= wy < viewheight v)
  /\ (forall wx wy, sample_weapon v = Some (wx, wy) ->
        Int32.in_range (sx (weapon_psp v)) ->
        Int32.in_range (sy (weapon_psp v)) ->
        viewheight v <= 2 ^ 30 ->
        wx = Z.max 0 (Z.min (viewwidth v - 1)
                        (Z.shiftr (sx (weapon_psp v)) 16 + viewwidth v / 2))
        /\ wy = Z.max 0 (Z.min (viewheight v - 1)
                           (Z.shiftr (sy (weapon_psp v)) 16
                            + viewheight v - 32))).
Proof.
  destruct Hv as [Hw Hh]. unfold Int32.max_signed in Hh.
  assert (Hsw : Int32.sub (viewwidth v) 1 = viewwidth v - 1).
  { unfold Int32.sub. apply wrap_small. lia. }
  assert (Hsh : Int32.sub (viewheight v) 1 = viewheight v - 1).
  { unfold Int32.sub. apply wrap_small. lia. }
  unfold sample_weapon. cbv zeta. rewrite Hsw, Hsh.
  split; [| split].
  - destruct (psp_state (weapon_psp v)); split; congruence.
  - intros wx wy. destruct (psp_state (weapon_psp v)); [| discriminate].
    intros H. apply Some_inj in H.
    pose proof (f_equal fst H) as Hx. pose proof (f_equal snd H) as Hy.
    cbn [fst snd] in Hx, Hy. clear H. subst wx wy.
    set (x := Int32.add _ _). set (y := Int32.sub _ 32).
    clearbody x y. split.
    + destruct (x <? 0) eqn:E1.
      * destruct (0 >=? viewwidth v) eqn:E2; lia.
      * destruct (x >=? viewwidth v) eqn:E2; lia.
    + destruct (y <? 0) eqn:E1.
      * destruct (0 >=? viewheight v) eqn:E2; lia.
      * destruct (y >=? viewheight v) eqn:E2; lia.
  - intros wx wy. destruct (psp_state (weapon_psp v)); [| discriminate].
    intros H Hsx Hsy Hvh. apply Some_inj in H.
    pose proof (f_equal fst H) as Hx. pose proof (f_equal snd H) as Hy.
    cbn [fst snd] in Hx, Hy. clear H. subst wx wy.
    unfold Int32.in_range, Int32.min_signed, Int32.max_signed in Hsx, Hsy.
    assert (Hshr : forall z, - 2 ^ 31 <= z <= 2 ^ 31 - 1 ->
                             - 2 ^ 15 <= Z.shiftr z 16 < 2 ^ 15).
    { intros z Hz. rewrite Z.shiftr_div_pow2 by lia.
      change (2 ^ 16) with 65536. Z.div_mod_to_equations. lia. }
    pose proof (Hshr _ Hsx) as Bx. pose proof (Hshr _ Hsy) as By.
    assert (Hhalf : 0 <= viewwidth v / 2 <= 2 ^ 30).
    { Z.div_mod_to_equations. lia. }
    unfold Int32.add, Int32.sub, Int32.div, Int32.shr, FRACBITS.
    rewrite Z.quot_div_nonneg by lia.
    rewrite (wrap_small (viewwidth v / 2)) by lia.
    rewrite (wrap_small (Z.shiftr (sx (weapon_psp v)) 16 + viewwidth v / 2))
      by lia.
    rewrite (wrap_small (Z.shiftr (sy (weapon_psp v)) 16 + viewheight v))
      by lia.
    rewrite (wrap_small (Z.shiftr (sy (weapon_psp v)) 16 + viewheight v - 32))
      by lia.
    set (x := Z.shiftr (sx (weapon_psp v)) 16 + viewwidth v / 2).
    set (y := Z.shiftr (sy (weapon_psp v)) 16 + viewheight v - 32).
    clearbody x y. split.
    + destruct (x <? 0) eqn:E1.
      * destruct (0 >=? viewwidth v) eqn:E2; lia.
      * destruct (x >=? viewwidth v) eqn:E2; lia.
    + destruct (y <? 0) eqn:E1.
      * destruct (0 >=? viewheight v) eqn:E2; lia.
      * destruct (y >=? viewheight v) eqn:E2; lia.
Qed.

Lemma weapon_overlay_in_view_witness :
  let v := Vectors.view_of [] []
             {| psp_state := true; sx := 400 * Vectors.FRACUNIT;
                sy := 32 * Vectors.FRACUNIT |} in
  valid_view v /\ sample_weapon v = Some (319, 199)
  /\ 0 <= 319 < viewwidth v /\ 0 <= 199 < viewheight v.
Proof.
  cbv zeta.
  assert (Hv : valid_view
                 (Vectors.view_of [] []
                    {| psp_state := true; sx := 400 * Vectors.FRACUNIT;
                       sy := 32 * Vectors.FRACUNIT |})).
  { unfold valid_view, Int32.max_signed. cbn. lia. }
  split; [exact Hv |]. split; [reflexivity |].
  destruct (weapon_overlay_in_view _ Hv) as (_ & H & _).
  apply (H 319 199). reflexivity.
Defined.

(** X17.  The depth bucket never increases with the scale: of two
  surfaces, the one drawn larger is reported at most as far away. *)
Theorem distance_of_scale_antitone (s1 s2 : Z) (Hle : s1 <= s2) :
  distance_of_scale s2 <= distance_of_scale s1.
Proof.
  assert (Hmid : forall s, 0x800 <= s <= 0x20000 ->
            distance_of_scale s
            = 999 - ((s - 0x800) * 999) / (0x20000 - 0x800)).
  { intros s Hs.
    assert (0 <= (s - 0x800) * 999 / (0x20000 - 0x800) <= 999).
    { split; [apply Z.div_pos; lia | apply Z.div_le_upper_bound; lia]. }
    unfold distance_of_scale.
    destruct (s >? 0x20000) eqn:E1; [lia |].
    destruct (s <? 0x800) eqn:E2; [lia |].
    rewrite distance_formula_exact by lia.
    set (d := 999 - _) in *. cbv zeta.
    destruct (d <? 0) eqn:E3; [lia |].
    destruct (d >? 999) eqn:E4; [lia | reflexivity]. }
  assert (Hhi : forall s, 0x20000 < s -> distance_of_scale s = 0).
  { intros s Hs. unfold distance_of_scale.
    destruct (s >? 0x20000) eqn:E; [reflexivity | lia]. }
  assert (Hlo : forall s, s < 0x800 -> distance_of_scale s = 999).
  { intros s Hs. unfold distance_of_scale.
    destruct (s >? 0x20000) eqn:E1; [lia |].
    destruct (s <? 0x800) eqn:E2; [reflexivity | lia]. }
  pose proof (distance_range s1) as R1. pose proof (distance_range s2) as R2.
  destruct (Z_lt_le_dec 0x20000 s2) as [H2 | H2]; [rewrite (Hhi s2 H2); lia |].
  destruct (Z_lt_le_dec s1 0x800) as [H1 | H1]; [rewrite (Hlo s1 H1); lia |].
  rewrite (Hmid s1), (Hmid s2) by lia.
  assert ((s1 - 0x800) * 999 / (0x20000 - 0x800)
          <= (s2 - 0x800) * 999 / (0x20000 - 0x800)); [| lia].
  apply Z.div_le_mono; lia.
Qed.

Lemma distance_of_scale_antitone_witness :
  distance_of_scale 0x10000 <= distance_of_scale 0x900.
Proof. apply distance_of_scale_antitone. lia. Defined.

End Overlay.

(** ** The layout of a frame document *)

Section DocumentLayout.

Import Sampler Serializer Calls Layout.

Lemma join_cons sep x rest :
  join sep (x :: rest)
  = x ++ match rest with
         | [] => []
         | _ :: _ => sep ++ join sep rest
         end.
Proof.
  destruct rest; cbn [join]; [rewrite app_nil_r |]; reflexivity.
Qed.

(** The wall loop writes the emitted walls in order, a comma between
  neighbours and, when walls were written before, one ahead of the first. *)
Lemma wall_calls_join v dsl : forall wall_output,
  0 <= wall_output ->
  wall_output + Z.of_nat (length dsl) < 2 ^ 31 ->
  concat (wall_calls v dsl wall_output)
  = match walls_of v dsl with
    | [] => []
    | _ :: _ =>
      (if wall_output >? 0 then comma else [])
      ++ join comma (map fmt_wall (walls_of v dsl))
    end.
Proof.
  induction dsl as [| ds rest IH]; intros wo H0 Hlen; [reflexivity |].
  cbn [length] in Hlen. cbn [wall_calls walls_of flat_map].
  fold (walls_of v rest).
  destruct (sample_wall v ds) as [w |]; cbn [app].
  - rewrite concat_app. cbn [concat].
    assert (Hadd : Int32.add wo 1 = wo + 1).
    { unfold Int32.add. apply wrap_small. lia. }
    rewrite Hadd, IH by lia.
    assert ((wo + 1 >? 0) = true) as -> by lia.
    cbn [map]. rewrite join_cons.
    destruct (wo >? 0); cbn [concat app]; try rewrite app_nil_r;
      destruct (walls_of v rest); reflexivity.
  - apply IH; lia.
Qed.

Lemma sprite_calls_later v vl : forall i,
  0 < i ->
  concat (sprite_calls v vl i)
  = match entities_of v vl with
    | [] => []
    | _ :: _ => comma ++ join comma (map fmt_entity (entities_of v vl))
    end.
Proof.
  induction vl as [| vis rest IH]; intros i Hi; [reflexivity |].
  cbn [sprite_calls entities_of flat_map]. fold (entities_of v rest).
  destruct (sample_sprite v vis) as [e |]; cbn [app].
  - assert ((i >? 0) = true) as -> by lia.
    cbn [app concat]. rewrite IH by lia. cbn [map]. rewrite join_cons.
    destruct (entities_of v rest); reflexivity.
  - apply IH. lia.
Qed.

(** The sprite loop tests the loop index, not the number of entities
  written: what it writes is the emitted entities in order, joined by
  commas, behind a comma of its own when the first vissprite was skipped
  and a later one was not. *)
Lemma sprite_calls_join v vl :
  concat (sprite_calls v vl 0)
  = stray_comma v vl ++ join comma (map fmt_entity (entities_of v vl)).
Proof.
  destruct vl as [| vis rest]; [reflexivity |].
  cbn [sprite_calls stray_comma entities_of flat_map].
  fold (entities_of v rest). change (0 + 1) with 1.
  destruct (sample_sprite v vis) as [e |]; cbn [app].
  - change (0 >? 0) with false. cbn [app concat].
    rewrite sprite_calls_later by lia. cbn [map]. rewrite join_cons.
    destruct (entities_of v rest); reflexivity.
  - rewrite sprite_calls_later by lia.
    destruct (entities_of v rest); reflexivity.
Qed.

Lemma entities_of_nil v vl :
  entities_of v vl = [] <-> forallb (fun s => negb (accepted v s)) vl = true.
Proof.
  induction vl as [| vis rest IH]; [cbn; tauto |].
  cbn [entities_of flat_map forallb]. fold (entities_of v rest).
  unfold accepted at 1.
  destruct (sample_sprite v vis); cbn [app negb andb].
  - split; discriminate.
  - exact IH.
Qed.

Lemma stray_comma_nil v vl :
  stray_comma v vl = [] <-> separators_agree v vl = true.
Proof.
  destruct vl as [| vis rest]; [cbn; tauto |].
  cbn [stray_comma separators_agree]. unfold accepted at 1.
  destruct (sample_sprite v vis); cbn [orb]; [tauto |].
  rewrite <- entities_of_nil.
  destruct (entities_of v rest); split; (reflexivity || discriminate).
Qed.

(** X18.  The complete layout of a frame that fits the array: the frame
  number, the emitted walls in the order of [drawsegs] joined by commas,
  the emitted entities in the order of [vissprites] joined by commas, the
  weapon overlay.  The only irregularity is the comma the sprite loop puts
  ahead of the entities when the first vissprite was skipped and a later
  one was emitted; it is absent exactly when the first vissprite is emitted
  or none is. *)
Theorem document_layout (MAXDRAWSEGS MAXVISSPRITES : nat) (v : view_t)
  (g_frame_count : Z) (buf : list byte)
  (Hmax : Z.of_nat MAXDRAWSEGS < 2 ^ 31)
  (Hfit : Z.of_nat (length (frame_text MAXDRAWSEGS MAXVISSPRITES v
                              g_frame_count)) < JSON_BUF_SIZE) :
  let walls := walls_of v (firstn MAXDRAWSEGS (drawsegs v)) in
  let sprites := firstn MAXVISSPRITES (vissprites v) in
  document (extract_vectors_to_json MAXDRAWSEGS MAXVISSPRITES v
              g_frame_count buf)
  = Fmt.text "{'frame':" ++ Fmt.fmt_d g_frame_count
    ++ Fmt.text ",'walls':[" ++ join comma (map fmt_wall walls)
    ++ Fmt.text "],'entities':[" ++ stray_comma v sprites
    ++ join comma (map fmt_entity (entities_of v sprites))
    ++ Fmt.text "],'weapon':" ++ fmt_weapon (sample_weapon v)
    ++ Fmt.text "}"
  /\ (stray_comma v sprites = [] <-> separators_agree v sprites = true).
Proof.
  cbv zeta. split; [| apply stray_comma_nil].
  destruct (extract_fits MAXDRAWSEGS MAXVISSPRITES v g_frame_count buf Hfit)
    as (-> & _).
  unfold frame_text, frame_calls. cbn [concat].
  rewrite concat_app. cbn [concat]. rewrite concat_app. cbn [concat].
  rewrite sprite_calls_join.
  rewrite wall_calls_join;
    [| lia | pose proof (length_firstn MAXDRAWSEGS (drawsegs v)); lia].
  change (0 >? 0) with false. cbn [app]. rewrite app_nil_r.
  rewrite <- !app_assoc.
  destruct (walls_of v (firstn MAXDRAWSEGS (drawsegs v))); reflexivity.
Qed.

Lemma document_layout_witness :
  let v := Vectors.view_of [Vectors.wall_10_30; Vectors.wall_10_30]
             [Vectors.sprite_offscreen; Vectors.sprite_10_21]
             Vectors.no_weapon in
  exists w e,
    sample_wall v Vectors.wall_10_30 = Some w
    /\ sample_sprite v Vectors.sprite_10_21 = Some e
    /\ document (extract_vectors_to_json 256 128 v 7 [])
       = Fmt.text "{'frame':" ++ Fmt.fmt_d 7 ++ Fmt.text ",'walls':["
         ++ (fmt_wall w ++ comma ++ fmt_wall w)
         ++ Fmt.text "],'entities':[" ++ comma ++ fmt_entity e
         ++ Fmt.text "],'weapon':" ++ fmt_weapon None ++ Fmt.text "}".
Proof.
  cbv zeta.
  destruct (document_layout 256 128
              (Vectors.view_of [Vectors.wall_10_30; Vectors.wall_10_30]
                 [Vectors.sprite_offscreen; Vectors.sprite_10_21]
                 Vectors.no_weapon) 7 []) as [H _].
  - vm_compute. reflexivity.
  - vm_compute. reflexivity.
  - eexists. eexists. split; [reflexivity |]. split; [reflexivity |].
    exact H.
Defined.

(** X19.  A frame that fits the array is valid JSON (RFC 8259) exactly
  when the first vissprite considered is emitted or none is; walls, the
  frame number and the weapon overlay never break the syntax. *)
Theorem document_is_json_exactly_when (MAXDRAWSEGS MAXVISSPRITES : nat)
  (v : view_t) (g_frame_count : Z) (buf : list byte)
  (Hmax : Z.of_nat MAXDRAWSEGS < 2 ^ 31)
  (Hfit : Z.of_nat (length (frame_text MAXDRAWSEGS MAXVISSPRITES v
                              g_frame_count)) < JSON_BUF_SIZE) :
  Json.valid (document (extract_vectors_to_json MAXDRAWSEGS MAXVISSPRITES v
                          g_frame_count buf))
  = separators_agree v (firstn MAXVISSPRITES (vissprites v))
  /\ (stray_comma v (firstn MAXVISSPRITES (vissprites v)) = [] ->
      Json.valid (document (extract_vectors_to_json MAXDRAWSEGS
                              MAXVISSPRITES v g_frame_count buf)) = true).
Proof.
  destruct (extract_fits MAXDRAWSEGS MAXVISSPRITES v g_frame_count buf Hfit)
    as (-> & _).
  rewrite frame_text_valid by exact Hmax.
  split; [reflexivity |]. apply stray_comma_nil.
Qed.

Lemma document_is_json_exactly_when_witness :
  let v := Vectors.view_of [Vectors.wall_10_30]
             [Vectors.sprite_10_21; Vectors.sprite_offscreen;
              Vectors.sprite_10_21]
             {| psp_state := true; sx := 0; sy := 32 * Vectors.FRACUNIT |} in
  Json.valid (document (extract_vectors_to_json 256 128 v 7 [x7d; x7d]))
  = true.
Proof.
  cbv zeta.
  destruct (document_is_json_exactly_when 256 128
              (Vectors.view_of [Vectors.wall_10_30]
                 [Vectors.sprite_10_21; Vectors.sprite_offscreen;
                  Vectors.sprite_10_21]
                 {| psp_state := true; sx := 0;
                    sy := 32 * Vectors.FRACUNIT |})
              7 [x7d; x7d]) as [H _].
  - vm_compute. reflexivity.
  - vm_compute. reflexivity.
  - rewrite H. reflexivity.
Defined.

End DocumentLayout.

(** ** What the array holds *)

Section ArrayContents.

Import Sampler Serializer Calls.

(** After a run of calls that fit, a zero byte closes the text. *)
Lemma run_terminated calls : forall st,
  calls <> [] ->
  0 <= offset st ->
  offset st + total calls < JSON_BUF_SIZE ->
  let st' := fold_left snprintf calls st in
  peek (json_buf st') (Z.to_nat (offset st') + 1)
  = peek (json_buf st) (Z.to_nat (offset st)) ++ concat calls ++ [x00].
Proof.
  induction calls as [| s calls IH] using rev_ind; intros st Hne H0 Hfit;
    [congruence |].
  clear IH. cbv zeta. rewrite fold_left_app. cbn [fold_left].
  rewrite total_app, total_cons in Hfit.
  change (total []) with 0 in Hfit.
  pose proof (total_nonneg calls) as Hn.
  destruct (run_fits calls st) as (I1 & I2 & _); [lia | lia |].
  set (st1 := fold_left snprintf calls st) in *. clearbody st1.
  rewrite snprintf_fits by lia. cbn [json_buf offset].
  rewrite Z2Nat.inj_add by lia. rewrite Nat2Z.id.
  replace (Z.to_nat (offset st1) + length s + 1)%nat
    with (Z.to_nat (offset st1) + length (s ++ [x00]))%nat
    by (rewrite length_app; cbn [length]; lia).
  rewrite peek_poke by lia. rewrite firstn_all, I2.
  rewrite concat_app. cbn [concat]. rewrite app_nil_r, <- !app_assoc.
  reflexivity.
Qed.

(** X20.  What [extract_vectors_to_json] leaves in the array for a frame
  that fits, whatever the array held before - the longer document of an
  earlier frame included: the whole document from the first cell on and a
  zero byte right behind it, the reported length being that of the
  document.  So what the caller reads back does not depend on earlier
  frames. *)
Theorem array_holds_document (MAXDRAWSEGS MAXVISSPRITES : nat)
  (v : view_t) (g_frame_count : Z) (buf : list byte)
  (Hfit : Z.of_nat (length (frame_text MAXDRAWSEGS MAXVISSPRITES v
                              g_frame_count)) < JSON_BUF_SIZE) :
  let st := extract_vectors_to_json MAXDRAWSEGS MAXVISSPRITES v
              g_frame_count buf in
  let text := frame_text MAXDRAWSEGS MAXVISSPRITES v g_frame_count in
  peek (json_buf st) (length text + 1) = text ++ [x00]
  /\ offset st = Z.of_nat (length text)
  /\ document st = text
  /\ (forall buf',
        document (extract_vectors_to_json MAXDRAWSEGS MAXVISSPRITES v
                    g_frame_count buf') = document st).
Proof.
  cbv zeta.
  assert (Hdoc : forall b,
             let st := extract_vectors_to_json MAXDRAWSEGS MAXVISSPRITES v
                         g_frame_count b in
             peek (json_buf st)
                  (length (frame_text MAXDRAWSEGS MAXVISSPRITES v
                             g_frame_count) + 1)
             = frame_text MAXDRAWSEGS MAXVISSPRITES v g_frame_count ++ [x00]
             /\ offset st
                = Z.of_nat (length (frame_text MAXDRAWSEGS MAXVISSPRITES v
                                      g_frame_count))
             /\ document st
                = frame_text MAXDRAWSEGS MAXVISSPRITES v g_frame_count).
  { intros b. cbv zeta. rewrite extract_calls.
    set (st0 := {| json_buf := b; offset := 0; oob := false |}).
    revert Hfit.
    change (Z.of_nat (length (frame_text MAXDRAWSEGS MAXVISSPRITES v
                                g_frame_count)))
      with (total (frame_calls MAXDRAWSEGS MAXVISSPRITES v g_frame_count)).
    unfold frame_text.
    set (calls := frame_calls MAXDRAWSEGS MAXVISSPRITES v g_frame_count).
    intros Hfit.
    assert (Hne : calls <> []) by (unfold calls, frame_calls; discriminate).
    destruct (run_fits calls st0) as (I1 & I2 & _);
      [cbn [offset st0]; lia .. |].
    pose proof (run_terminated calls st0 Hne) as Ht. cbv zeta in Ht.
    cbn [offset st0] in I1, I2, Ht. rewrite I1 in Ht.
    split; [| split].
    - replace (length (concat calls) + 1)%nat
        with (Z.to_nat (0 + total calls) + 1)%nat by (unfold total; lia).
      rewrite Ht by lia. reflexivity.
    - rewrite I1. reflexivity.
    - unfold document. rewrite I2. reflexivity. }
  destruct (Hdoc buf) as (H1 & H2 & H3).
  split; [exact H1 |]. split; [exact H2 |]. split; [exact H3 |].
  intros buf'. destruct (Hdoc buf') as (_ & _ & H3'). congruence.
Qed.

Lemma array_holds_document_witness :
  let v := Vectors.view_of [Vectors.wall_10_30] [] Vectors.no_weapon in
  let stale := repeat x7d 100 in
  Z.of_nat (length (frame_text 256 128 v 0)) < JSON_BUF_SIZE
  /\ peek (json_buf (extract_vectors_to_json 256 128 v 0 stale))
          (length (frame_text 256 128 v 0) + 1)
     = frame_text 256 128 v 0 ++ [x00]
  /\ document (extract_vectors_to_json 256 128 v 0 stale)
     = document (extract_vectors_to_json 256 128 v 0 []).
Proof.
  cbv zeta.
  assert (Hfit : Z.of_nat (length (frame_text 256 128
                   (Vectors.view_of [Vectors.wall_10_30] []
                      Vectors.no_weapon) 0)) < JSON_BUF_SIZE)
    by (vm_compute; reflexivity).
  split; [exact Hfit |].
  destruct (array_holds_document 256 128
              (Vectors.view_of [Vectors.wall_10_30] [] Vectors.no_weapon)
              0 (repeat x7d 100) Hfit) as (H & _ & _ & Hsame).
  split; [exact H |]. symmetry. apply Hsame.
Defined.

End ArrayContents.

(** ** The key queue *)

Section KeyQueue.

Import Bridge Queue.

Variable km : keymap.

Lemma length_store a : forall i x, length (store a i x) = length a.
Proof.
  induction a as [| y a IH]; intros i x; [reflexivity |].
  destruct i; cbn [store length]; [reflexivity | rewrite IH; reflexivity].
Qed.

Lemma nth_store_same a : forall i x d,
  (i < length a)%nat -> nth i (store a i x) d = x.
Proof.
  induction a as [| y a IH]; intros i x d Hi; [cbn in Hi; lia |].
  destruct i; cbn [store nth]; [reflexivity |].
  apply IH. cbn in Hi. lia.
Qed.

Lemma nth_store_other a : forall i j x d,
  i <> j -> nth j (store a i x) d = nth j a d.
Proof.
  induction a as [| y a IH]; intros i j x d Hne; [reflexivity |].
  destruct i, j; cbn [store nth]; try reflexivity; try congruence.
  apply IH. congruence.
Qed.

(** A cell written by [addKeyToQueue] gives back the flag and the key. *)
Lemma decode_keyData p key :
  p = 0 \/ p = 1 -> 0 <= key < 256 ->
  decode (Z.lor (Z.shiftl p 8) key mod 2 ^ 16) = (p, key).
Proof.
  intros Hp Hk. unfold decode.
  assert (Hland : Z.land key 255 = key).
  { change 255 with (Z.ones 8). rewrite Z.land_ones by lia.
    apply Z.mod_small. change (2 ^ 8) with 256. lia. }
  destruct Hp as [-> | ->].
  - change (Z.shiftl 0 8) with 0. rewrite Z.lor_0_l.
    rewrite Z.mod_small by (change (2 ^ 16) with 65536; lia).
    rewrite Hland. rewrite Z.shiftr_div_pow2 by lia.
    rewrite Z.div_small by (change (2 ^ 8) with 256; lia). reflexivity.
  - change (Z.shiftl 1 8) with 256.
    assert (Hdisj : Z.land 256 key = 0).
    { rewrite <- Hland, (Z.land_comm key 255), Z.land_assoc.
      change (Z.land 256 255) with 0. apply Z.land_0_l. }
    rewrite <- (Z.lxor_lor _ _ Hdisj), <- (Z.add_nocarry_lxor _ _ Hdisj).
    rewrite Z.mod_small by (change (2 ^ 16) with 65536; lia).
    f_equal.
    + rewrite Z.shiftr_div_pow2 by lia. change (2 ^ 8) with 256.
      Z.div_mod_to_equations. lia.
    + change 255 with (Z.ones 8). rewrite Z.land_ones by lia.
      change (2 ^ 8) with 256. Z.div_mod_to_equations. lia.
Qed.

Lemma length_waiting q : length (waiting q) = pending q.
Proof. unfold waiting. rewrite length_map, length_seq. reflexivity. Qed.

Lemma pending_bound q : (pending q <= 15)%nat.
Proof.
  unfold pending, KEYQUEUE_SIZE.
  pose proof (Z.mod_pos_bound
                (s_KeyQueueWriteIndex q - s_KeyQueueReadIndex q) 16).
  lia.
Qed.

(** One [addKeyToQueue]: the key joins the end of the queue, unless fifteen
  keys are waiting - then the write index catches up with the read index
  and the queue reads as empty. *)
Lemma addKeyToQueue_waiting q p sym :
  well_formed q -> p = 0 \/ p = 1 ->
  well_formed (addKeyToQueue km q p sym)
  /\ waiting (addKeyToQueue km q p sym)
     = if (pending q <? 15)%nat
       then waiting q ++ [(p, convertToDoomKey km sym mod 256)]
       else [].
Proof.
  intros (Hlen & Hw & Hr) Hp. unfold KEYQUEUE_SIZE in Hw, Hr.
  set (key := convertToDoomKey km sym mod 256).
  assert (Hkey : 0 <= key < 256) by (apply Z.mod_pos_bound; lia).
  set (w := s_KeyQueueWriteIndex q) in *.
  set (r := s_KeyQueueReadIndex q) in *.
  assert (Hw' : ((w + 1) mod 2 ^ 32) mod 16 = (w + 1) mod 16).
  { rewrite (Z.mod_small (w + 1)) by lia. reflexivity. }
  split.
  { unfold well_formed, addKeyToQueue, KEYQUEUE_SIZE.
    cbn [s_KeyQueue s_KeyQueueWriteIndex s_KeyQueueReadIndex].
    rewrite length_store. fold w r. rewrite Hw'.
    pose proof (Z.mod_pos_bound (w + 1) 16). lia. }
  assert (Hpend : pending q = Z.to_nat ((w - r) mod 16)) by reflexivity.
  assert (Hpend' : pending (addKeyToQueue km q p sym)
                   = Z.to_nat (((w + 1) mod 16 - r) mod 16)).
  { unfold pending, addKeyToQueue, KEYQUEUE_SIZE.
    cbn [s_KeyQueueWriteIndex s_KeyQueueReadIndex]. fold w r.
    rewrite Hw'. reflexivity. }
  unfold waiting. rewrite Hpend'.
  destruct (pending q <? 15)%nat eqn:E.
  - apply Nat.ltb_lt in E.
    assert (Hn : Z.to_nat (((w + 1) mod 16 - r) mod 16) = S (pending q)).
    { rewrite Hpend in *. Z.div_mod_to_equations. lia. }
    rewrite Hn, seq_S, map_app. cbn [map Nat.add]. f_equal.
    + apply map_ext_in. intros i Hi. apply in_seq in Hi. f_equal.
      unfold slot, addKeyToQueue, KEYQUEUE_SIZE.
      cbn [s_KeyQueue s_KeyQueueReadIndex]. fold w r.
      apply nth_store_other.
      rewrite Hpend in Hi. Z.div_mod_to_equations. lia.
    + f_equal. unfold slot, addKeyToQueue, KEYQUEUE_SIZE.
      cbn [s_KeyQueue s_KeyQueueReadIndex]. fold w r.
      assert (Hcell : Z.to_nat ((r + Z.of_nat (pending q)) mod 16)
                      = Z.to_nat w).
      { rewrite Hpend. Z.div_mod_to_equations. lia. }
      rewrite Hcell, nth_store_same by lia.
      apply decode_keyData; assumption.
  - apply Nat.ltb_ge in E. pose proof (pending_bound q) as Hb.
    assert (Hn : Z.to_nat (((w + 1) mod 16 - r) mod 16) = 0%nat).
    { rewrite Hpend in *. Z.div_mod_to_equations. lia. }
    rewrite Hn. reflexivity.
Qed.

(** One [DG_GetKey]: it takes the first waiting key, or returns 0 and
  leaves the queue alone when none is waiting. *)
Lemma DG_GetKey_waiting q :
  well_formed q ->
  match waiting q with
  | [] => DG_GetKey q = (None, q)
  | kv :: rest =>
    exists q', DG_GetKey q = (Some kv, q')
               /\ well_formed q' /\ waiting q' = rest
  end.
Proof.
  intros (Hlen & Hw & Hr). unfold KEYQUEUE_SIZE in Hw, Hr.
  unfold waiting, DG_GetKey.
  set (w := s_KeyQueueWriteIndex q) in *.
  set (r := s_KeyQueueReadIndex q) in *.
  assert (Hpend : pending q = Z.to_nat ((w - r) mod 16)) by reflexivity.
  destruct (pending q) as [| n] eqn:En.
  - assert (r = w) as -> by (Z.div_mod_to_equations; lia).
    rewrite Z.eqb_refl. reflexivity.
  - assert ((r =? w) = false) as ->.
    { apply Z.eqb_neq. intros ->. rewrite Z.sub_diag in Hpend.
      cbn in Hpend. discriminate. }
    cbn [seq map].
    assert (Hr' : ((r + 1) mod 2 ^ 32) mod KEYQUEUE_SIZE = (r + 1) mod 16).
    { rewrite (Z.mod_small (r + 1)) by lia. reflexivity. }
    rewrite Hr'.
    eexists. split; [| split].
    + f_equal. f_equal. unfold decode, slot, KEYQUEUE_SIZE. fold r.
      rewrite Z.add_0_r, Z.mod_small by lia. reflexivity.
    + unfold well_formed, KEYQUEUE_SIZE.
      cbn [s_KeyQueue s_KeyQueueWriteIndex s_KeyQueueReadIndex].
      pose proof (Z.mod_pos_bound (r + 1) 16). fold w. lia.
    + assert (Hn : pending {| s_KeyQueue := s_KeyQueue q;
                              s_KeyQueueWriteIndex := w;
                              s_KeyQueueReadIndex := (r + 1) mod 16 |} = n).
      { unfold pending, KEYQUEUE_SIZE.
        cbn [s_KeyQueueWriteIndex s_KeyQueueReadIndex].
        Z.div_mod_to_equations. lia. }
      rewrite Hn. rewrite <- seq_shift, map_map.
      apply map_ext. intros i. f_equal.
      unfold slot, KEYQUEUE_SIZE. cbn [s_KeyQueue s_KeyQueueReadIndex].
      fold r. f_equal. f_equal. Z.div_mod_to_equations. lia.
Qed.

Lemma drain_waiting n : forall q,
  well_formed q ->
  exists q', drain n q = (firstn n (waiting q), q')
             /\ well_formed q'
             /\ waiting q' = skipn n (waiting q).
Proof.
  induction n as [| n IH]; intros q Hq.
  - exists q. split; [reflexivity |]. split; [exact Hq | reflexivity].
  - pose proof (DG_GetKey_waiting q Hq) as Hg. cbn [drain].
    destruct (waiting q) as [| kv rest] eqn:Ew.
    + rewrite Hg. exists q. split; [reflexivity |].
      split; [exact Hq | exact Ew].
    + destruct Hg as (q1 & -> & Hq1 & Hw1).
      destruct (IH q1 Hq1) as (q2 & -> & Hq2 & Hw2).
      exists q2. rewrite Hw1 in *. split; [reflexivity |].
      split; [exact Hq2 | exact Hw2].
Qed.

(** X21.  [DG_GetKey] hands out the waiting keys oldest first, each with
  the pressed flag and the key code it was queued with, moving only the
  read index; once they are all taken it returns 0 and changes nothing. *)
Theorem DG_GetKey_hands_out_waiting_keys (q : keyqueue)
  (Hq : well_formed q) :
  exists q',
    drain (length (waiting q)) q = (waiting q, q')
    /\ DG_GetKey q' = (None, q')
    /\ s_KeyQueue q' = s_KeyQueue q
    /\ s_KeyQueueWriteIndex q' = s_KeyQueueWriteIndex q
    /\ s_KeyQueueReadIndex q' = s_KeyQueueWriteIndex q.
Proof.
  destruct (drain_waiting (length (waiting q)) q Hq) as (q' & Hd & Hq' & Hw).
  rewrite firstn_all in Hd. rewrite skipn_all in Hw.
  exists q'. split; [exact Hd |].
  pose proof (DG_GetKey_waiting q' Hq') as Hg. rewrite Hw in Hg.
  split; [exact Hg |].
  assert (Hsame : forall n q0 l q1,
             drain n q0 = (l, q1) ->
             s_KeyQueue q1 = s_KeyQueue q0
             /\ s_KeyQueueWriteIndex q1 = s_KeyQueueWriteIndex q0).
  { clear. induction n as [| n IH]; intros q0 l q1; cbn [drain].
    - intros [= _ <-]. auto.
    - unfold DG_GetKey at 1.
      destruct (s_KeyQueueReadIndex q0 =? s_KeyQueueWriteIndex q0);
        [intros [= _ <-]; auto |].
      destruct (drain n _) as [l' q2] eqn:E. intros [= _ <-].
      apply IH in E. exact E. }
  destruct (Hsame _ _ _ _ Hd) as [Ha Hwi].
  split; [exact Ha |]. split; [exact Hwi |].
  unfold DG_GetKey in Hg.
  destruct (s_KeyQueueReadIndex q' =? s_KeyQueueWriteIndex q') eqn:E;
    [| discriminate Hg].
  apply Z.eqb_eq in E. congruence.
Qed.

Lemma handleKeyInput_quit q events :
  (exists q', handleKeyInput km q events = QuitRequested q')
  <-> In SDL_QUIT events.
Proof.
  revert q. induction events as [| e rest IH]; intros q.
  - cbn. split; [intros [q' H]; discriminate H | tauto].
  - destruct e as [| sym | sym |]; cbn [handleKeyInput In].
    + split; [auto | intros _; eexists; reflexivity].
    + rewrite IH. split; [auto | intros [H | H]; [discriminate | exact H]].
    + rewrite IH. split; [auto | intros [H | H]; [discriminate | exact H]].
    + rewrite IH. split; [auto | intros [H | H]; [discriminate | exact H]].
Qed.

Lemma handleKeyInput_polled q events :
  ~ In SDL_QUIT events -> exists q1, handleKeyInput km q events = Polled q1.
Proof.
  intros Hnq. destruct (handleKeyInput km q events) as [q1 | q1] eqn:E.
  - exists q1. reflexivity.
  - exfalso. apply Hnq. apply (handleKeyInput_quit q events).
    exists q1. exact E.
Qed.

(** A poll that meets a quit request has queued the key events ahead of
  it, and none behind it. *)
Lemma handleKeyInput_quit_split events : forall q q',
  handleKeyInput km q events = QuitRequested q' ->
  exists before after,
    events = before ++ SDL_QUIT :: after
    /\ ~ In SDL_QUIT before
    /\ handleKeyInput km q before = Polled q'.
Proof.
  induction events as [| e rest IH]; intros q q' H; [discriminate H |].
  destruct e as [| sym | sym |]; cbn [handleKeyInput] in H.
  - injection H as <-. exists [], rest.
    split; [reflexivity |]. split; [intros [] | reflexivity].
  - destruct (IH _ _ H) as (bf & af & -> & Hn & Hp).
    exists (SDL_KEYDOWN sym :: bf), af.
    split; [reflexivity |]. split; [| exact Hp].
    intros [Hx | Hx]; [discriminate Hx | exact (Hn Hx)].
  - destruct (IH _ _ H) as (bf & af & -> & Hn & Hp).
    exists (SDL_KEYUP sym :: bf), af.
    split; [reflexivity |]. split; [| exact Hp].
    intros [Hx | Hx]; [discriminate Hx | exact (Hn Hx)].
  - destruct (IH _ _ H) as (bf & af & -> & Hn & Hp).
    exists (SDL_OTHER :: bf), af.
    split; [reflexivity |]. split; [| exact Hp].
    intros [Hx | Hx]; [discriminate Hx | exact (Hn Hx)].
Qed.

Lemma skipn_ring {A : Type} (l1 l2 : list A) n :
  length l1 = 16%nat ->
  skipn (16 * ((16 + n) / 16)) (l1 ++ l2) = skipn (16 * (n / 16)) l2.
Proof.
  intros Hl.
  replace ((16 + n) / 16)%nat with (1 + n / 16)%nat
    by (symmetry; apply (Nat.div_add_l 1 16 n); lia).
  replace (16 * (1 + n / 16))%nat with (16 * (n / 16) + 16)%nat by lia.
  rewrite <- skipn_skipn. f_equal.
  rewrite skipn_app, Hl, Nat.sub_diag, skipn_all2 by lia. reflexivity.
Qed.

(** A poll of SDL events with no quit request among them: every sixteenth
  key makes the queue read as empty, and what is waiting afterwards is
  what came since. *)
Lemma handleKeyInput_waiting events : forall q,
  well_formed q -> ~ In SDL_QUIT events ->
  exists q1,
    handleKeyInput km q events = Polled q1
    /\ well_formed q1
    /\ waiting q1
       = skipn (16 * ((length (waiting q) + length (keys_of km events)) / 16))
               (waiting q ++ keys_of km events).
Proof.
  assert (Hstep : forall q p sym rest,
             well_formed q -> p = 0 \/ p = 1 ->
             (exists q1,
                 handleKeyInput km (addKeyToQueue km q p sym) rest = Polled q1
                 /\ well_formed q1
                 /\ waiting q1
                    = skipn (16 * ((length (waiting (addKeyToQueue km q p sym))
                                    + length (keys_of km rest)) / 16))
                            (waiting (addKeyToQueue km q p sym)
                             ++ keys_of km rest)) ->
             exists q1,
               handleKeyInput km (addKeyToQueue km q p sym) rest = Polled q1
               /\ well_formed q1
               /\ waiting q1
                  = skipn (16 * ((length (waiting q)
                                  + S (length (keys_of km rest))) / 16))
                          (waiting q
                           ++ (p, convertToDoomKey km sym mod 256)
                              :: keys_of km rest)).
  { intros q p sym rest Hq Hp (q1 & Hrun & Hq1 & Hw1).
    exists q1. split; [exact Hrun |]. split; [exact Hq1 |].
    rewrite Hw1. destruct (addKeyToQueue_waiting q p sym Hq Hp) as [_ ->].
    pose proof (pending_bound q) as Hb. rewrite length_waiting.
    destruct (pending q <? 15)%nat eqn:E.
    - rewrite length_app, length_waiting. cbn [length].
      rewrite <- app_assoc. cbn [app]. f_equal. f_equal. f_equal. lia.
    - apply Nat.ltb_ge in E. cbn [length app Nat.add].
      replace (pending q + S (length (keys_of km rest)))%nat
        with (16 + length (keys_of km rest))%nat by lia.
      replace (waiting q ++ (p, convertToDoomKey km sym mod 256)
                            :: keys_of km rest)
        with ((waiting q ++ [(p, convertToDoomKey km sym mod 256)])
              ++ keys_of km rest)
        by (rewrite <- app_assoc; reflexivity).
      rewrite skipn_ring; [reflexivity |].
      rewrite length_app, length_waiting. cbn [length]. lia. }
  induction events as [| e rest IH]; intros q Hq Hnq.
  - exists q. split; [reflexivity |]. split; [exact Hq |].
    cbn [keys_of flat_map length]. rewrite app_nil_r, Nat.add_0_r.
    pose proof (pending_bound q). rewrite length_waiting.
    rewrite Nat.div_small by lia. reflexivity.
  - assert (Hrest : ~ In SDL_QUIT rest) by (intros H; apply Hnq; right; exact H).
    destruct e as [| sym | sym |]; cbn [handleKeyInput keys_of flat_map app].
    + exfalso. apply Hnq. left. reflexivity.
    + fold (keys_of km rest). cbn [length].
      apply Hstep; [exact Hq | auto |].
      apply IH; [| exact Hrest].
      apply addKeyToQueue_waiting; [exact Hq | auto].
    + fold (keys_of km rest). cbn [length].
      apply Hstep; [exact Hq | auto |].
      apply IH; [| exact Hrest].
      apply addKeyToQueue_waiting; [exact Hq | auto].
    + fold (keys_of km rest). apply IH; assumption.
Qed.

(** X22.  Key events reach the game in order.  When the keys already
  waiting and the key events of one poll are fifteen or fewer together,
  the poll adds each event behind them with its pressed flag (1 for a key
  press, 0 for a release) and its converted key code, and the next calls
  of [DG_GetKey] return exactly the old keys and then the new ones. *)
Theorem keys_reach_the_game_in_order (q : keyqueue)
  (events : list sdl_event) (Hq : well_formed q)
  (Hnq : ~ In SDL_QUIT events)
  (Hroom : (length (waiting q) + length (keys_of km events) <= 15)%nat) :
  exists q1 q2,
    handleKeyInput km q events = Polled q1
    /\ waiting q1 = waiting q ++ keys_of km events
    /\ drain (length (waiting q) + length (keys_of km events)) q1
       = (waiting q ++ keys_of km events, q2)
    /\ DG_GetKey q2 = (None, q2).
Proof.
  destruct (handleKeyInput_waiting events q Hq Hnq) as (q1 & Hrun & Hq1 & Hw).
  rewrite Nat.div_small in Hw by lia. rewrite Nat.mul_0_r in Hw.
  cbn [skipn] in Hw.
  destruct (drain_waiting (length (waiting q1)) q1 Hq1)
    as (q2 & Hd & Hq2 & Hw2).
  rewrite firstn_all in Hd. rewrite skipn_all in Hw2.
  exists q1, q2. split; [exact Hrun |]. split; [exact Hw |].
  rewrite Hw, length_app in Hd. rewrite <- Hw at 1. split.
  - rewrite Hw. exact Hd.
  - pose proof (DG_GetKey_waiting q2 Hq2) as Hg. rewrite Hw2 in Hg.
    exact Hg.
Qed.

(** X23.  The queue does not notice when it is full.  A poll that brings
  the number of waiting keys to a multiple of sixteen leaves the write
  index on the read index: [DG_GetKey] then returns 0 and every one of
  those keys is lost.  In general the keys that survive a poll are the
  ones that came after the last such wrap. *)
Theorem key_queue_overrun_drops_keys (q : keyqueue)
  (events : list sdl_event) (Hq : well_formed q)
  (Hnq : ~ In SDL_QUIT events) :
  exists q1,
    handleKeyInput km q events = Polled q1
    /\ waiting q1
       = skipn (16 * ((length (waiting q) + length (keys_of km events)) / 16))
               (waiting q ++ keys_of km events)
    /\ ((length (waiting q) + length (keys_of km events) = 16)%nat ->
        DG_GetKey q1 = (None, q1)).
Proof.
  destruct (handleKeyInput_waiting events q Hq Hnq) as (q1 & Hrun & Hq1 & Hw).
  exists q1. split; [exact Hrun |]. split; [exact Hw |].
  intros H16. pose proof (DG_GetKey_waiting q1 Hq1) as Hg.
  rewrite Hw, H16 in Hg. change (16 * (16 / 16))%nat with 16%nat in Hg.
  rewrite skipn_all2 in Hg by (rewrite length_app; lia).
  exact Hg.
Qed.

End KeyQueue.

Lemma keys_reach_the_game_in_order_witness :
  let q := Bridge.keys (Vectors.bridge_of (Vectors.fresh_world [])) in
  let events := [Bridge.SDL_KEYDOWN 0x400000E0; Bridge.SDL_OTHER;
                 Bridge.SDL_KEYDOWN 65; Bridge.SDL_KEYUP 0x400000E0] in
  exists q1 q2,
    Bridge.handleKeyInput Vectors.sdl2_keys q events = Bridge.Polled q1
    /\ Queue.drain 3 q1 = ([(1, 0xa3); (1, 97); (0, 0xa3)], q2)
    /\ Bridge.DG_GetKey q2 = (None, q2).
Proof.
  cbv zeta.
  destruct (keys_reach_the_game_in_order Vectors.sdl2_keys
              (Bridge.keys (Vectors.bridge_of (Vectors.fresh_world [])))
              [Bridge.SDL_KEYDOWN 0x400000E0; Bridge.SDL_OTHER;
               Bridge.SDL_KEYDOWN 65; Bridge.SDL_KEYUP 0x400000E0])
    as (q1 & q2 & H1 & _ & H2 & H3).
  - split; [reflexivity |]. split; vm_compute; split; congruence.
  - intros [H | [H | [H | [H | []]]]]; discriminate H.
  - vm_compute. lia.
  - exists q1, q2. split; [exact H1 |]. split; [exact H2 | exact H3].
Defined.

Lemma key_queue_overrun_drops_keys_witness :
  let q := Bridge.keys (Vectors.bridge_of (Vectors.fresh_world [])) in
  let events := repeat (Bridge.SDL_KEYDOWN 32) 16 in
  exists q1,
    Bridge.handleKeyInput Vectors.sdl2_keys q events = Bridge.Polled q1
    /\ Bridge.DG_GetKey q1 = (None, q1).
Proof.
  cbv zeta.
  destruct (key_queue_overrun_drops_keys Vectors.sdl2_keys
              (Bridge.keys (Vectors.bridge_of (Vectors.fresh_world [])))
              (repeat (Bridge.SDL_KEYDOWN 32) 16))
    as (q1 & H1 & _ & H2).
  - split; [reflexivity |]. split; vm_compute; split; congruence.
  - intros H. apply repeat_spec in H. discriminate H.
  - exists q1. split; [exact H1 |]. apply H2. reflexivity.
Defined.

Lemma DG_GetKey_hands_out_waiting_keys_witness :
  let q := {| Bridge.s_KeyQueue := [0x161; 0; 0; 0; 0; 0; 0; 0; 0; 0; 0; 0; 0;
                                    0; 0x10d; 0x01b];
              Bridge.s_KeyQueueWriteIndex := 1;
              Bridge.s_KeyQueueReadIndex := 14 |} in
  exists q',
    Queue.drain 3 q = ([(1, 13); (0, 27); (1, 97)], q')
    /\ Bridge.DG_GetKey q' = (None, q').
Proof.
  cbv zeta.
  destruct (DG_GetKey_hands_out_waiting_keys
              {| Bridge.s_KeyQueue := [0x161; 0; 0; 0; 0; 0; 0; 0; 0; 0; 0; 0;
                                       0; 0; 0x10d; 0x01b];
                 Bridge.s_KeyQueueWriteIndex := 1;
                 Bridge.s_KeyQueueReadIndex := 14 |})
    as (q' & H1 & H2 & _).
  - split; [reflexivity |]. split; vm_compute; split; congruence.
  - exists q'. split; [exact H1 | exact H2].
Defined.

(** ** The frame hook *)

Section HookResults.

Import Kernel DoomSocket Wire Bridge Hook.

Variables MAXDRAWSEGS MAXVISSPRITES : nat.
Variable km : keymap.

(** The length the serializer reports is an [int], so the document handed
  to the transport is shorter than 2^31 bytes. *)
Lemma length_document v fc buf :
  Z.of_nat (length (Serializer.document
                      (Serializer.extract_vectors_to_json
                         MAXDRAWSEGS MAXVISSPRITES v fc buf))) < 2 ^ 31.
Proof.
  unfold Serializer.document. rewrite length_peek.
  unfold Serializer.extract_vectors_to_json. cbv zeta.
  rewrite snprintf_offset. unfold Int32.add.
  match goal with
  | |- context [Int32.wrap ?z] => pose proof (wrap_range z) as Hr
  end.
  unfold Int32.in_range, Int32.min_signed, Int32.max_signed in Hr. lia.
Qed.

(** X24.  The hook ends the process, with status 1, in exactly two cases:
  the frame could not be sent, or SDL reports a quit request.  In the first
  case the SDL events are not looked at and the key queue is as it was; in
  the second the frame has gone out already and the key events polled
  ahead of the quit request - those and no later ones - have been put in
  the key queue.  Either way the frame counter and the screenshot clock
  stay as they were. *)
Theorem frame_hook_exits_exactly_when (b : bridge) (e : tick_env) :
  let doc := Serializer.document
               (Serializer.extract_vectors_to_json MAXDRAWSEGS MAXVISSPRITES
                  (view e) (g_frame_count b) (json_mem b)) in
  let sent := doom_socket_send_frame (sock b) doc in
  ((exists code b', DG_DrawFrame MAXDRAWSEGS MAXVISSPRITES km b e
                    = Exits code b')
   <-> fst sent = -1 \/ In SDL_QUIT (sdl_events e))
  /\ (forall code b',
         DG_DrawFrame MAXDRAWSEGS MAXVISSPRITES km b e = Exits code b' ->
         code = 1
         /\ sock b' = snd sent
         /\ g_frame_count b' = g_frame_count b
         /\ last_screenshot_time b' = last_screenshot_time b
         /\ (fst sent = -1 -> keys b' = keys b)
         /\ (fst sent = 0 ->
             exists before after,
               sdl_events e = before ++ SDL_QUIT :: after
               /\ ~ In SDL_QUIT before
               /\ handleKeyInput km (keys b) before = Polled (keys b'))).
Proof.
  cbv zeta. unfold DG_DrawFrame. cbv zeta.
  set (doc := Serializer.document _).
  destruct (doom_socket_send_frame (sock b) doc) as [r w1] eqn:E1.
  pose proof E1 as Hs. unfold doom_socket_send_frame in Hs.
  apply send_message_spec in Hs. destruct Hs as (_ & _ & more & _ & Hr & _).
  cbn [fst snd].
  pose proof (handleKeyInput_quit km (keys b) (sdl_events e)) as Hq.
  destruct (r <? 0) eqn:Er.
  - split.
    + split; [intros _; left; lia | intros _; eauto].
    + intros code b' H. injection H as <- <-. cbn [sock g_frame_count keys last_screenshot_time].
      split; [reflexivity |]. split; [reflexivity |].
      split; [reflexivity |]. split; [reflexivity |].
      split; [reflexivity | intros Hz; lia].
  - destruct (handleKeyInput km (keys b) (sdl_events e)) as [q | q] eqn:Ek.
    + split.
      * split; [intros (code & b' & H) | intros [H | H]].
        -- destruct (last_screenshot_time b =? 0); [discriminate H |].
           destruct (_ >=? 3000); [| discriminate H].
           destruct (_ && _); discriminate H.
        -- lia.
        -- apply Hq in H. destruct H as [q' H]. discriminate H.
      * intros code b' H. exfalso.
        destruct (last_screenshot_time b =? 0); [discriminate H |].
        destruct (_ >=? 3000); [| discriminate H].
        destruct (_ && _); discriminate H.
    + split.
      * split; [intros _; right; apply Hq; eexists; reflexivity
               | intros _; eauto].
      * intros code b' H. injection H as <- <-.
        cbn [sock g_frame_count keys last_screenshot_time].
        split; [reflexivity |]. split; [reflexivity |].
        split; [reflexivity |]. split; [reflexivity |].
        split; [intros Hm; lia |]. intros _.
        apply (handleKeyInput_quit_split km _ _ _ Ek).
Qed.

Lemma run_str_plain key stack s :
  Forall (fun b => Json.is_digit b = true) s ->
  Json.run (Json.Str key, stack) s = (Json.Str key, stack).
Proof.
  induction 1 as [| b s Hb Hs IH]; [reflexivity |].
  cbn [Json.run fold_left] in *. rewrite <- IH at 2. f_equal.
  destruct b; cbn in Hb; try discriminate Hb; reflexivity.
Qed.

(** X25.  The screenshot notice is valid JSON for every clock value, and
  both texts behind it are far shorter than the arrays they are printed
  into (256 bytes for the path, 512 for the notice), so neither [snprintf]
  cuts anything. *)
Theorem screenshot_notice_is_json (current_time : Z) :
  Json.valid (screenshot_msg current_time) = true
  /\ (length (screenshot_msg current_time) <= 80)%nat
  /\ (length (Fmt.text
                "/Users/tribune/Desktop/KiDoom/screenshots/sdl/sdl_"
              ++ Fmt.fmt_u (current_time / 1000) ++ Fmt.text ".bmp")
      < 256)%nat.
Proof.
  assert (Hlen : (length (Fmt.fmt_u (current_time / 1000)) <= 10)%nat)
    by apply dec_length.
  split; [| split].
  - unfold Json.valid, screenshot_msg.
    rewrite !run_app.
    change (Json.run (Json.Val, []) (Fmt.text "{'sdl_path':'"))
      with (Json.Str false, [Json.Obj]).
    change (Json.run (Json.Str false, [Json.Obj])
              (Fmt.text
                 "/Users/tribune/Desktop/KiDoom/screenshots/sdl/sdl_"))
      with (Json.Str false, [Json.Obj]).
    rewrite run_str_plain.
    + reflexivity.
    + apply dec_digits. apply Z.mod_pos_bound. lia.
  - unfold screenshot_msg. rewrite !length_app. text_lengths. lia.
  - rewrite !length_app. text_lengths. lia.
Qed.

Lemma screenshot_msg_length t :
  Z.of_nat (length (screenshot_msg t)) < 2 ^ 32.
Proof.
  assert (Hlen : (length (Fmt.fmt_u (t / 1000)) <= 10)%nat)
    by apply dec_length.
  unfold screenshot_msg. rewrite !length_app. text_lengths. lia.
Qed.

(** X26.  What one call of the hook puts on the wire.  On a Connected
  handle whose writes are all accepted, and with no quit request, the hook
  returns after sending the frame's FRAME_DATA message and, when a
  screenshot is due, one SCREENSHOT message behind it - nothing else.  The
  first call only starts the screenshot clock; afterwards the clock is
  reset whenever 3000 ms have passed, whether or not the capture
  succeeded. *)
Theorem tick_sends_frame_then_notice (b : bridge) (e : tick_env)
  (Hc : connected (sock b))
  (Hacc : Forall (fun ev => accepts ev = true) (wr (kern (sock b))))
  (Hnq : ~ In SDL_QUIT (sdl_events e)) :
  let st := Serializer.extract_vectors_to_json MAXDRAWSEGS MAXVISSPRITES
              (view e) (g_frame_count b) (json_mem b) in
  exists b',
    DG_DrawFrame MAXDRAWSEGS MAXVISSPRITES km b e = Continues b'
    /\ tx (kern (sock b'))
       = tx (kern (sock b))
         ++ message MSG_FRAME_DATA (Serializer.document st)
         ++ (if screenshot_due b e
             then message MSG_SCREENSHOT
                          (screenshot_msg (current_time e mod 2 ^ 32))
             else [])
    /\ last_screenshot_time b' = next_screenshot_time b e
    /\ json_mem b' = Serializer.json_buf st
    /\ connected (sock b').
Proof.
  cbv zeta. unfold DG_DrawFrame, screenshot_due, next_screenshot_time.
  cbv zeta.
  set (st := Serializer.extract_vectors_to_json _ _ _ _ _).
  pose proof (length_document (view e) (g_frame_count b) (json_mem b)) as Hl.
  fold st in Hl.
  unfold doom_socket_send_frame.
  destruct (send_message_accepted (sock b) MSG_FRAME_DATA
              (Serializer.document st) Hc) as (ws1 & -> & Hacc1);
    [unfold MSG_FRAME_DATA; lia | lia | exact Hacc |].
  cbn [Z.ltb Z.compare].
  set (w1 := with_kernel (sock b) _).
  assert (Hc1 : connected w1).
  { destruct Hc as [Hfd Ho]. split; [exact Hfd | exact Ho]. }
  destruct (handleKeyInput km (keys b) (sdl_events e)) as [q | q] eqn:Ek.
  2:{ exfalso. apply Hnq. apply (handleKeyInput_quit km (keys b)).
      exists q. exact Ek. }
  destruct (last_screenshot_time b =? 0) eqn:E0; cbn [negb andb].
  { eexists. split; [reflexivity |].
    cbn [sock last_screenshot_time json_mem]. rewrite app_nil_r.
    split; [reflexivity |]. split; [reflexivity |].
    split; [reflexivity | exact Hc1]. }
  destruct (_ >=? 3000) eqn:E3; cbn [andb].
  2:{ eexists. split; [reflexivity |].
      cbn [sock last_screenshot_time json_mem]. rewrite app_nil_r.
      split; [reflexivity |]. split; [reflexivity |].
      split; [reflexivity | exact Hc1]. }
  destruct (surface_ok e && save_ok e) eqn:Es.
  2:{ eexists. split; [reflexivity |].
      cbn [sock last_screenshot_time json_mem]. rewrite app_nil_r.
      split; [reflexivity |]. split; [reflexivity |].
      split; [reflexivity | exact Hc1]. }
  destruct (send_message_accepted w1 MSG_SCREENSHOT
              (screenshot_msg (current_time e mod 2 ^ 32)) Hc1)
    as (ws2 & -> & _);
    [unfold MSG_SCREENSHOT; lia | apply screenshot_msg_length
     | exact Hacc1 |].
  eexists. split; [reflexivity |].
  cbn [sock last_screenshot_time json_mem snd kern with_kernel tx set_tx w1].
  rewrite <- app_assoc.
  split; [reflexivity |]. split; [reflexivity |].
  split; [reflexivity |].
  destruct Hc as [Hfd Ho]. split; [exact Hfd | exact Ho].
Qed.

(** X27.  The 3000 ms test is made on 32-bit unsigned clock values and so
  is not disturbed when the millisecond clock of [get_time_ms] wraps
  around: as long as less than 2^32 ms lie between the recorded capture
  and now, and the clock value on record is not 0, the difference the hook
  compares with 3000 is the true number of milliseconds elapsed.  The
  clock value 0 is the exception: the hook reads it as no capture on
  record, so a capture recorded at a moment the 32-bit clock read 0 is
  forgotten - no screenshot is due then, however long ago that was, and
  the present time is put on record instead. *)
Theorem screenshot_interval_survives_clock_wrap (b : bridge) (e : tick_env)
  (sec0 usec0 sec1 usec1 : Z)
  (Hlast : last_screenshot_time b = Startup.get_time_ms sec0 usec0)
  (Hnow : current_time e = Startup.get_time_ms sec1 usec1) :
  let ms0 := sec0 * 1000 + Z.quot usec0 1000 in
  let ms1 := sec1 * 1000 + Z.quot usec1 1000 in
  0 <= ms1 - ms0 < 2 ^ 32 ->
  (Startup.get_time_ms sec0 usec0 <> 0 ->
   screenshot_due b e = (3000 <=? ms1 - ms0) && surface_ok e && save_ok e
   /\ next_screenshot_time b e
      = if 3000 <=? ms1 - ms0 then Startup.get_time_ms sec1 usec1
        else Startup.get_time_ms sec0 usec0)
  /\ (Startup.get_time_ms sec0 usec0 = 0 ->
      screenshot_due b e = false
      /\ next_screenshot_time b e = Startup.get_time_ms sec1 usec1).
Proof.
  cbv zeta. intros Hd. unfold screenshot_due, next_screenshot_time.
  rewrite Hnow, Hlast. split.
  - intros Hset.
    assert ((Startup.get_time_ms sec0 usec0 =? 0) = false) as ->
      by (apply Z.eqb_neq; exact Hset).
    unfold Startup.get_time_ms.
    set (ms0 := sec0 * 1000 + Z.quot usec0 1000) in *.
    set (ms1 := sec1 * 1000 + Z.quot usec1 1000) in *.
    rewrite Z.mod_mod by lia. rewrite <- Zminus_mod.
    rewrite (Z.mod_small (ms1 - ms0)) by lia.
    cbn [negb andb].
    replace (ms1 - ms0 >=? 3000) with (3000 <=? ms1 - ms0)
      by (destruct (3000 <=? ms1 - ms0) eqn:E; lia).
    split; reflexivity.
  - intros ->. cbn [Z.eqb negb andb]. split; [reflexivity |].
    unfold Startup.get_time_ms. apply Z.mod_mod. lia.
Qed.

Lemma wrap_add_l a c : Int32.wrap (Int32.wrap a + c) = Int32.wrap (a + c).
Proof.
  unfold Int32.wrap. change (2 ^ 31) with 2147483648.
  change (2 ^ 32) with 4294967296.
  replace (a + 2147483648) with (a + 2147483648 + 0) by lia.
  Z.div_mod_to_equations. lia.
Qed.

(** A call that returns has advanced the counter by one and has seen no
  quit request. *)
Lemma hook_continues b e b' :
  DG_DrawFrame MAXDRAWSEGS MAXVISSPRITES km b e = Continues b' ->
  g_frame_count b' = Int32.add (g_frame_count b) 1
  /\ ~ In SDL_QUIT (sdl_events e).
Proof.
  unfold DG_DrawFrame. cbv zeta.
  destruct (doom_socket_send_frame _ _) as [r w1].
  destruct (r <? 0); [discriminate |].
  destruct (handleKeyInput km (keys b) (sdl_events e)) as [q | q] eqn:Ek;
    [| discriminate].
  assert (Hq : ~ In SDL_QUIT (sdl_events e)).
  { intros Hin. apply (handleKeyInput_quit km (keys b)) in Hin.
    destruct Hin as [q' Hin]. congruence. }
  destruct (last_screenshot_time b =? 0);
    [intros H; injection H as <-; auto |].
  destruct (_ >=? 3000); [| intros H; injection H as <-; auto].
  destruct (_ && _); intros H; injection H as <-; auto.
Qed.

(** X28.  The frame counter counts the calls of the hook that returned:
  after [n] of them it has advanced by [n], as a 32-bit [int] that wraps
  around; a run of calls goes on only while no call sees a quit request. *)
Theorem frame_counter_counts_ticks (envs : list tick_env) (b b' : bridge)
  (Hfc : Int32.in_range (g_frame_count b))
  (Hrun : ticks MAXDRAWSEGS MAXVISSPRITES km b envs = Some b') :
  g_frame_count b'
  = Int32.wrap (g_frame_count b + Z.of_nat (length envs))
  /\ Forall (fun ev => ~ In SDL_QUIT (sdl_events ev)) envs.
Proof.
  revert b Hfc Hrun. induction envs as [| e rest IH]; intros b Hfc;
    cbn [ticks].
  - intros H. apply Some_inj in H. subst b'. split; [| constructor].
    rewrite Z.add_0_r. symmetry. apply wrap_id. exact Hfc.
  - destruct (DG_DrawFrame MAXDRAWSEGS MAXVISSPRITES km b e)
      as [code b1 | b1] eqn:E; [discriminate |].
    intros H. apply hook_continues in E. destruct E as [Hf Hq].
    destruct (IH b1) as [Hc Hall]; [| exact H |].
    { rewrite Hf. apply wrap_range. }
    split; [| constructor; assumption].
    rewrite Hc, Hf. unfold Int32.add. rewrite wrap_add_l.
    f_equal. cbn [length]. lia.
Qed.

End HookResults.

Lemma tick_sends_frame_then_notice_witness :
  let b := {| Bridge.sock := Vectors.connected_world [] [];
              Bridge.g_frame_count := 41;
              Bridge.keys := Bridge.keys
                               (Vectors.bridge_of (Vectors.fresh_world []));
              Bridge.json_mem := [];
              Bridge.last_screenshot_time := 1000 |} in
  let e := {| Bridge.view := Vectors.view_of [Vectors.wall_10_30] []
                                             Vectors.no_weapon;
              Bridge.sdl_events := [Bridge.SDL_KEYDOWN 32];
              Bridge.current_time := 4000;
              Bridge.surface_ok := true; Bridge.save_ok := true |} in
  exists b',
    Bridge.DG_DrawFrame 256 128 Vectors.sdl2_keys b e = Bridge.Continues b'
    /\ Kernel.tx (DoomSocket.kern (Bridge.sock b'))
       = Wire.message DoomSocket.MSG_FRAME_DATA
           (Serializer.document
              (Serializer.extract_vectors_to_json 256 128
                 (Bridge.view e) 41 []))
         ++ Wire.message DoomSocket.MSG_SCREENSHOT
              (Bridge.screenshot_msg 4000)
    /\ Bridge.last_screenshot_time b' = 4000.
Proof.
  cbv zeta.
  destruct (tick_sends_frame_then_notice 256 128 Vectors.sdl2_keys
              {| Bridge.sock := Vectors.connected_world [] [];
                 Bridge.g_frame_count := 41;
                 Bridge.keys := Bridge.keys
                                  (Vectors.bridge_of (Vectors.fresh_world []));
                 Bridge.json_mem := [];
                 Bridge.last_screenshot_time := 1000 |}
              {| Bridge.view := Vectors.view_of [Vectors.wall_10_30] []
                                                Vectors.no_weapon;
                 Bridge.sdl_events := [Bridge.SDL_KEYDOWN 32];
                 Bridge.current_time := 4000;
                 Bridge.surface_ok := true; Bridge.save_ok := true |})
    as (b' & Hrun & Htx & Hlast & _).
  - split; [cbn; lia | reflexivity].
  - constructor.
  - intros [H | []]. discriminate H.
  - exists b'. split; [exact Hrun |]. split; [exact Htx | exact Hlast].
Defined.

Lemma screenshot_interval_survives_clock_wrap_witness :
  let b := {| Bridge.sock := Vectors.connected_world [] [];
              Bridge.g_frame_count := 0;
              Bridge.keys := Bridge.keys
                               (Vectors.bridge_of (Vectors.fresh_world []));
              Bridge.json_mem := [];
              Bridge.last_screenshot_time
                := Startup.get_time_ms 4294967 290000 |} in
  let e := {| Bridge.view := Vectors.view_of [] [] Vectors.no_weapon;
              Bridge.sdl_events := [];
              Bridge.current_time := Startup.get_time_ms 4294970 300000;
              Bridge.surface_ok := true; Bridge.save_ok := true |} in
  let b0 := {| Bridge.sock := Vectors.connected_world [] [];
               Bridge.g_frame_count := 0;
               Bridge.keys := Bridge.keys
                                (Vectors.bridge_of (Vectors.fresh_world []));
               Bridge.json_mem := [];
               Bridge.last_screenshot_time
                 := Startup.get_time_ms 4294967 296000 |} in
  Startup.get_time_ms 4294970 300000 < Startup.get_time_ms 4294967 290000
  /\ Hook.screenshot_due b e = true
  /\ Startup.get_time_ms 4294967 296000 = 0
  /\ Hook.screenshot_due b0 e = false
  /\ Hook.next_screenshot_time b0 e = 3004.
Proof.
  cbv zeta. split; [vm_compute; reflexivity |]. split.
  - destruct (screenshot_interval_survives_clock_wrap
                {| Bridge.sock := Vectors.connected_world [] [];
                   Bridge.g_frame_count := 0;
                   Bridge.keys := Bridge.keys
                                    (Vectors.bridge_of
                                       (Vectors.fresh_world []));
                   Bridge.json_mem := [];
                   Bridge.last_screenshot_time
                     := Startup.get_time_ms 4294967 290000 |}
                {| Bridge.view := Vectors.view_of [] [] Vectors.no_weapon;
                   Bridge.sdl_events := [];
                   Bridge.current_time := Startup.get_time_ms 4294970 300000;
                   Bridge.surface_ok := true; Bridge.save_ok := true |}
                4294967 290000 4294970 300000 eq_refl eq_refl) as [H _].
    + vm_compute. split; [discriminate | reflexivity].
    + destruct H as [H _]; [vm_compute; discriminate |].
      rewrite H. reflexivity.
  - split; [vm_compute; reflexivity |].
    destruct (screenshot_interval_survives_clock_wrap
                {| Bridge.sock := Vectors.connected_world [] [];
                   Bridge.g_frame_count := 0;
                   Bridge.keys := Bridge.keys
                                    (Vectors.bridge_of
                                       (Vectors.fresh_world []));
                   Bridge.json_mem := [];
                   Bridge.last_screenshot_time
                     := Startup.get_time_ms 4294967 296000 |}
                {| Bridge.view := Vectors.view_of [] [] Vectors.no_weapon;
                   Bridge.sdl_events := [];
                   Bridge.current_time := Startup.get_time_ms 4294970 300000;
                   Bridge.surface_ok := true; Bridge.save_ok := true |}
                4294967 296000 4294970 300000 eq_refl eq_refl) as [_ H].
    + vm_compute. split; [discriminate | reflexivity].
    + destruct H as [H1 H2]; [vm_compute; reflexivity |].
      split; [exact H1 |]. rewrite H2. vm_compute. reflexivity.
Defined.

Lemma frame_hook_exits_exactly_when_witness :
  let b := Vectors.bridge_of (Vectors.connected_world [] []) in
  let e := {| Bridge.view := Vectors.view_of [] [] Vectors.no_weapon;
              Bridge.sdl_events := [Bridge.SDL_KEYDOWN 32; Bridge.SDL_QUIT;
                                    Bridge.SDL_KEYDOWN 13];
              Bridge.current_time := 4000;
              Bridge.surface_ok := true; Bridge.save_ok := true |} in
  exists b',
    Bridge.DG_DrawFrame 256 128 Vectors.sdl2_keys b e = Bridge.Exits 1 b'
    /\ Bridge.handleKeyInput Vectors.sdl2_keys (Bridge.keys b)
         [Bridge.SDL_KEYDOWN 32] = Bridge.Polled (Bridge.keys b')
    /\ Bridge.g_frame_count b' = Bridge.g_frame_count b.
Proof.
  cbv zeta. eexists. split; [reflexivity |].
  match goal with
  | |- _ = Bridge.Polled (Bridge.keys ?b1) /\ _ =>
    destruct (frame_hook_exits_exactly_when 256 128 Vectors.sdl2_keys
                (Vectors.bridge_of (Vectors.connected_world [] []))
                {| Bridge.view := Vectors.view_of [] [] Vectors.no_weapon;
                   Bridge.sdl_events := [Bridge.SDL_KEYDOWN 32;
                                         Bridge.SDL_QUIT;
                                         Bridge.SDL_KEYDOWN 13];
                   Bridge.current_time := 4000;
                   Bridge.surface_ok := true; Bridge.save_ok := true |})
      as [_ H];
    destruct (H 1 b1 eq_refl) as (_ & _ & Hfc & _ & _ & _)
  end.
  split; [reflexivity | exact Hfc].
Defined.

Lemma frame_counter_counts_ticks_witness :
  let b := Vectors.bridge_of (Vectors.connected_world [] []) in
  exists b',
    Hook.ticks 256 128 Vectors.sdl2_keys b
               [Vectors.quiet_tick; Vectors.quiet_tick; Vectors.quiet_tick]
    = Some b'
    /\ Bridge.g_frame_count b' = 3.
Proof.
  cbv zeta.
  destruct (Hook.ticks 256 128 Vectors.sdl2_keys
              (Vectors.bridge_of (Vectors.connected_world [] []))
              [Vectors.quiet_tick; Vectors.quiet_tick; Vectors.quiet_tick])
    as [b' |] eqn:E.
  - exists b'. split; [reflexivity |].
    assert (Hfc : Int32.in_range
                    (Bridge.g_frame_count
                       (Vectors.bridge_of (Vectors.connected_world [] [])))).
    { unfold Int32.in_range, Int32.min_signed, Int32.max_signed. cbn. lia. }
    destruct (frame_counter_counts_ticks 256 128 Vectors.sdl2_keys
                [Vectors.quiet_tick; Vectors.quiet_tick; Vectors.quiet_tick]
                (Vectors.bridge_of (Vectors.connected_world [] [])) b'
                Hfc E) as [H _].
    exact H.
  - vm_compute in E. discriminate E.
Defined.

Lemma DG_Init_returns_connected_witness :
  let good := Vectors.fresh_world
                [Kernel.RdData (Wire.header DoomSocket.MSG_INIT_COMPLETE 0)] in
  let bad := Vectors.fresh_world
               [Kernel.RdData (Wire.header DoomSocket.MSG_KEY_EVENT 0)] in
  (exists w', Startup.DG_Init good = Startup.InitReturns w'
              /\ Wire.connected w'
              /\ Kernel.tx (DoomSocket.kern w') = [])
  /\ (exists w', Startup.DG_Init bad = Startup.InitExits 1 w'
                 /\ Wire.released w' 3).
Proof.
  cbv zeta. split.
  - destruct (DG_Init_returns_connected
                (Vectors.fresh_world
                   [Kernel.RdData
                      (Wire.header DoomSocket.MSG_INIT_COMPLETE 0)]))
      as (Hret & _ & H & _).
    eexists. split; [apply Hret; reflexivity |].
    match goal with
    | |- Wire.connected ?w1 /\ _ =>
      destruct (H w1 (proj2 (Hret w1) eq_refl)) as (Hc & _ & Ht)
    end.
    split; [exact Hc | exact Ht].
  - destruct (DG_Init_returns_connected
                (Vectors.fresh_world
                   [Kernel.RdData
                      (Wire.header DoomSocket.MSG_KEY_EVENT 0)]))
      as (_ & _ & _ & _ & _ & _ & H).
    destruct (H ltac:(cbn; lia) ltac:(cbn; lia)) as (_ & Htag & _).
    apply (Htag DoomSocket.MSG_KEY_EVENT 0 [] []).
    + unfold DoomSocket.MSG_KEY_EVENT. lia.
    + lia.
    + discriminate.
    + exists [Wire.header DoomSocket.MSG_KEY_EVENT 0].
      split; [reflexivity |]. split; [| reflexivity].
      constructor; [discriminate | constructor].
Defined.

(** ** Reading an exact number of bytes *)

Section ExactReads.

Import Kernel DoomSocket Wire.

(** X29.  [recv_exactly] takes exactly the next [n] bytes of the stream,
  however the kernel cuts them into reads, and leaves what follows in the
  stream; it fails with -1, holding the bytes it got, when the stream ends
  or a read fails before the [n]-th byte; asked for no byte it returns 0
  without a [read].  It has no other result than 0, -1 or waiting, and it
  changes nothing but the inbound stream. *)
Theorem recv_exactly_takes_exactly_n (k : kernel) (fd : Z)
  (Ho : is_open k fd = true) :
  (forall a b rest,
      carries (rx k) (a ++ b) rest ->
      exists r, recv_exactly k fd (length a) = Done 0 a (set_rx k r)
                /\ carries r b rest)
  /\ (forall n a ev rest,
         ev = RdEof \/ (exists e, ev = RdErr e) ->
         carries (rx k) a (ev :: rest) -> (length a < n)%nat ->
         exists k', recv_exactly k fd n = Done (-1) a k')
  /\ (forall n a, carries (rx k) a [] -> (length a < n)%nat ->
                  recv_exactly k fd n = Hang)
  /\ recv_exactly k fd 0 = Done 0 [] k
  /\ (forall n ret out k',
         recv_exactly k fd n = Done ret out k' ->
         (ret = 0 \/ ret = -1) /\ exists r, k' = set_rx k r).
Proof.
  split; [| split; [| split; [| split]]].
  - intros a b rest Hcar. exact (recv_exactly_carries k fd a b rest Ho Hcar).
  - intros n a ev rest Hev Hcar Hlen.
    exact (recv_exactly_short k fd n a ev rest Hev Ho Hcar Hlen).
  - intros n a Hcar Hlen. exact (recv_exactly_starved k fd n a Ho Hcar Hlen).
  - reflexivity.
  - intros n ret out k' H. exact (recv_exactly_only_rx k fd n ret out k' H).
Qed.

Lemma recv_exactly_takes_exactly_n_witness :
  let k := Vectors.kernel_of [3]
             [RdData [x01]; RdData [x02; x03]; RdData [x04; x05; x06]] [] in
  is_open k 3 = true
  /\ exists r, recv_exactly k 3 4 = Done 0 [x01; x02; x03; x04] (set_rx k r)
               /\ carries r [x05; x06] [].
Proof.
  cbv zeta. split; [reflexivity |].
  destruct (recv_exactly_takes_exactly_n
              (Vectors.kernel_of [3]
                 [RdData [x01]; RdData [x02; x03]; RdData [x04; x05; x06]] [])
              3 eq_refl) as (H & _).
  apply (H [x01; x02; x03; x04] [x05; x06] []).
  exists [[x01]; [x02; x03]; [x04; x05; x06]].
  split; [reflexivity |]. split; [| reflexivity].
  repeat constructor; discriminate.
Defined.

End ExactReads.

(** ** Walls on the screen *)

Section WallOrder.

Import Sampler.

(** X30.  In a valid view a wall is never drawn upside down: when the
  sector's floor is not above its ceiling and the four projections are
  computed without 32-bit wrap-around, the top of each end of the wall is
  at or above its bottom on the screen. *)
Theorem wall_top_not_below_bottom (v : view_t) (ds : drawseg_t)
  (seg : seg_t) (sector : sector_t) (w : wall_t)
  (Hv : valid_view v)
  (Hw : sample_wall v ds = Some w)
  (Hseg : curline ds = Some seg)
  (Hsec : frontsector seg = Some sector)
  (Hfc : floorheight sector <= ceilingheight sector)
  (Hexact : forall h s,
      h = floorheight sector \/ h = ceilingheight sector ->
      s = positive_scale (scale1 ds) \/ s = positive_scale (scale2 ds) ->
      project_y v h s = exact_y v h s) :
  w_y1_top w <= w_y1_bottom w /\ w_y2_top w <= w_y2_bottom w.
Proof.
  revert Hw. unfold sample_wall. cbv zeta.
  destruct (_ || _); [discriminate |]. rewrite Hseg, Hsec.
  intros H. apply Some_inj in H. subst w.
  cbn [w_y1_top w_y1_bottom w_y2_top w_y2_bottom].
  split; apply (clamp_y_mono v Hv); rewrite !Hexact by auto;
    apply exact_y_antitone; (apply positive_scale_pos || exact Hfc).
Qed.

Lemma wall_top_not_below_bottom_witness :
  let v := Vectors.view_of [Vectors.wall_10_30] [] Vectors.no_weapon in
  exists w, sample_wall v Vectors.wall_10_30 = Some w
            /\ w_y1_top w <= w_y1_bottom w /\ w_y2_top w <= w_y2_bottom w.
Proof.
  cbv zeta. eexists. split; [reflexivity |].
  apply (wall_top_not_below_bottom
           (Vectors.view_of [Vectors.wall_10_30] [] Vectors.no_weapon)
           Vectors.wall_10_30
           {| frontsector := Some {| floorheight := 0;
                                     ceilingheight := 128 * Vectors.FRACUNIT |} |}
           {| floorheight := 0; ceilingheight := 128 * Vectors.FRACUNIT |}).
  - unfold valid_view, Int32.max_signed. cbn. lia.
  - reflexivity.
  - reflexivity.
  - reflexivity.
  - cbn. lia.
  - intros h s [-> | ->] [-> | ->]; vm_compute; reflexivity.
Defined.

End WallOrder.
